(** * Localization manager backend: local TTL/LRU cache, artifact generator
      and two-tier lookup endpoint (Go, package main).

    The development follows the Go source: [TTLCache] with its [Get], [Put],
    [Size] and [Clear]; [interpolateTemplate]; [getLocalizedComponent]; and
    the handler [getLocalizedComponentEndpoint].

    Conventions of the embedding.
    - Go [string] is a byte string: Rocq [string].
    - Go [int], [time.Time] and [time.Duration] are [Z]; instants and
      durations are counted in nanoseconds, without the saturation of
      [time.Duration] at the ends of int64.
    - Go maps are stdpp [gmap]s.
    - A JSON text held by the remote store is represented by the component
      that [json.Unmarshal] reads from it; [json.Marshal] followed by
      [json.Unmarshal] is [json_round_trip].
    - Every clock read and every answer of the remote store is an input of
      the operation that performs it.
    - A request is handled from start to end without interleaving with
      another request (the cache's mutex makes each single [Get]/[Put]
      atomic; the handler as a whole is modelled sequentially). *)

From Stdlib Require Import ZArith String Ascii.
From Stdlib Require Import DecimalString DecimalZ DecimalPos.
From stdpp Require Import base gmap strings list fin_maps sorting.

Open Scope Z_scope.

(** ** container/list, as used by the cache

    A list element is a heap node; the cache keeps the same node in the
    map [cache] and in [lruList].  A node is modelled by its identity [eid]
    (its address) and its payload; the doubly linked list is the sequence of
    its nodes from [Front] to [Back]. *)

Module GoList.
Section GoList.
Context {V : Type}.

Record cacheEntry := CacheEntry { key : string; value : V }.

Record Element := MkElement { eid : nat; Value : cacheEntry }.

Definition is_node (e : nat) (x : Element) : bool := Nat.eqb (eid x) e.

(** [l.Len()] *)
Definition Len (l : list Element) : Z := Z.of_nat (length l).

(** [l.Front()]: the first node, [nil] on an empty list. *)
Definition Front (l : list Element) : option Element := head l.

(** Dereference of a node handle. *)
Definition node (e : nat) (l : list Element) : option Element :=
List.find (is_node e) l.

(** [l.Remove(e)]: unlinks [e]; nothing happens when [e] is not in [l]. *)
Definition Remove (e : nat) (l : list Element) : list Element :=
List.filter (fun x => negb (is_node e x)) l.

(** [l.MoveToBack(e)]: nothing happens when [e] is not in [l]. *)
Definition MoveToBack (e : nat) (l : list Element) : list Element :=
match node e l with
| Some x => Remove e l ++ [x]
| None => l
end.

(** [l.PushBack(v)] with the address [e] of the node it allocates. *)
Definition PushBack (e : nat) (v : cacheEntry) (l : list Element)
: list Element :=
l ++ [MkElement e v].

(** [e.Value.value = v] on the entry the node points to *)
Definition set_value (e : nat) (v : V) (l : list Element) : list Element :=
List.map (fun x => if is_node e x
                   then MkElement (eid x) (CacheEntry (key (Value x)) v)
                   else x) l.
End GoList.
Arguments cacheEntry : clear implicits.
Arguments Element : clear implicits.
End GoList.
Import GoList.

(** ** TTLCache *)

Section TTLCache.
Context {V : Type}.

(** The struct, without its mutex.  [next_node] is the allocator of node
    identities: the address the next [PushBack] hands out. *)
Record TTLCache := MkTTLCache {
  maxSize : Z;
  ttl : Z;
  cache : gmap string nat;
  lruList : list (Element V);
  timestamps : gmap string Z;
  next_node : nat
}.

Definition NewTTLCache (maxSize ttl : Z) : TTLCache :=
  {| maxSize := maxSize; ttl := ttl; cache := ∅; lruList := [];
     timestamps := ∅; next_node := 0 |}.

(** The three deletions of an expired or evicted entry. *)
Definition drop_entry (c : TTLCache) (k : string) (element : nat)
  : TTLCache :=
  {| maxSize := maxSize c; ttl := ttl c;
     cache := delete k (cache c);
     lruList := Remove element (lruList c);
     timestamps := delete k (timestamps c);
     next_node := next_node c |}.

(** [Get]: [now] is the clock read by [time.Since]; the result is the
    cache after the call and [(value, found)] as an option.  The node the
    map gives is dereferenced through the list; in a well-formed cache it is
    always there ([wf]), so the last branch is never taken. *)
Definition Get (c : TTLCache) (k : string) (now : Z)
  : TTLCache * option V :=
  match cache c !! k with
  | None => (c, None)
  | Some element =>
      match timestamps c !! k with
      | Some timestamp =>
          if now - timestamp >? ttl c
          then (drop_entry c k element, None)
          else
            match node element (lruList c) with
            | Some x =>
                ({| maxSize := maxSize c; ttl := ttl c; cache := cache c;
                    lruList := MoveToBack element (lruList c);
                    timestamps := timestamps c;
                    next_node := next_node c |},
                 Some (value (Value x)))
            | None => (c, None)
            end
      | None => (drop_entry c k element, None)
      end
  end.

(** [Put]: [now] is the clock read by [time.Now]. *)
Definition Put (c : TTLCache) (k : string) (v : V) (now : Z) : TTLCache :=
  match cache c !! k with
  | Some element =>
      {| maxSize := maxSize c; ttl := ttl c; cache := cache c;
         lruList := set_value element v (MoveToBack element (lruList c));
         timestamps := <[k := now]> (timestamps c);
         next_node := next_node c |}
  | None =>
      let c1 :=
        if Len (lruList c) >=? maxSize c then
          match Front (lruList c) with
          | Some oldest =>
              drop_entry c (key (Value oldest)) (eid oldest)
          | None => c
          end
        else c in
      {| maxSize := maxSize c1; ttl := ttl c1;
         cache := <[k := next_node c1]> (cache c1);
         lruList := PushBack (next_node c1) (CacheEntry k v) (lruList c1);
         timestamps := <[k := now]> (timestamps c1);
         next_node := S (next_node c1) |}
  end.

Definition Size (c : TTLCache) : Z := Len (lruList c).

Definition Clear (c : TTLCache) : TTLCache :=
  {| maxSize := maxSize c; ttl := ttl c; cache := ∅; lruList := [];
     timestamps := ∅; next_node := next_node c |}.

(** Keys from least to most recently used. *)
Definition lru_keys (c : TTLCache) : list string :=
  (fun x => key (Value x)) <$> lruList c.

(** The pairs (key, value) the cache holds. *)
Definition entries (c : TTLCache) : list (string * V) :=
  (fun x => (key (Value x), value (Value x))) <$> lruList c.

(** The pairs (key, node) a list holds. *)
Definition index (l : list (Element V)) : list (string * nat) :=
  (fun x => (key (Value x), eid x)) <$> l.

(** A sequence of keys with one key taken out. *)
Definition without (k : string) (ks : list string) : list string :=
  filter (fun k' => k' ≠ k) ks.

(** Calls on a cache, and a run of them from left to right. *)
Inductive Call :=
  | CallGet (k : string) (now : Z)
  | CallPut (k : string) (v : V) (now : Z).

Definition call (c : TTLCache) (op : Call) : TTLCache :=
  match op with
  | CallGet k now => (Get c k now).1
  | CallPut k v now => Put c k v now
  end.

Definition calls (c : TTLCache) (ops : list Call) : TTLCache :=
  foldl call c ops.

(** [Put] of a key, a value and the instant of the call. *)
Definition put_call (p : string * V * Z) : Call :=
  CallPut p.1.1 p.1.2 p.2.

(** The map and the list describe the same nodes. *)
Record wf (c : TTLCache) : Prop := {
  wf_nodes : NoDup (eid <$> lruList c);
  wf_keys : NoDup (lru_keys c);
  wf_cache : ∀ k e,
    cache c !! k = Some e ↔
    ∃ x, x ∈ lruList c ∧ eid x = e ∧ key (Value x) = k;
  wf_fresh : ∀ x, x ∈ lruList c → (eid x < next_node c)%nat;
  wf_stamps : dom (timestamps c) = dom (cache c)
}.
End TTLCache.
Arguments TTLCache : clear implicits.
Arguments Call : clear implicits.

(** ** Strings and formatting *)

Definition dquote : string := String "034" EmptyString.

(** Go raw string literals of the source contain double quotes; they are
    written here with [@] in place of each double quote ([@] occurs in none
    of them) and [go_raw] puts the quotes back. *)
Fixpoint go_raw (s : string) : string :=
  match s with
  | EmptyString => EmptyString
  | String a rest =>
      String (if Ascii.eqb a "@" then "034"%char else a) (go_raw rest)
  end.

(** [fmt.Sprintf] with the verb [%d]. *)
Definition Sprintf_d (n : Z) : string := NilZero.string_of_int (Z.to_int n).

(** [fmt.Sprintf("component:%s:%s", componentType, actualLang)] *)
Definition Sprintf_cacheKey (componentType actualLang : string) : string :=
  "component:" +:+ componentType +:+ ":" +:+ actualLang.

(** ** interpolateTemplate *)

(** The character class [a-zA-Z_]. *)
Definition is_key_char (a : ascii) : bool :=
  let n := nat_of_ascii a in
  ((65 <=? n) && (n <=? 90) || (97 <=? n) && (n <=? 122) || (n =? 95))%nat.

(** The rest of [s] after the literal [p], when [s] starts with [p]. *)
Fixpoint strip_prefix (p s : string) : option string :=
  match p, s with
  | EmptyString, _ => Some s
  | String a p', String b s' =>
      if Ascii.eqb a b then strip_prefix p' s' else None
  | String _ _, EmptyString => None
  end.

(** The tail [[a-zA-Z_]*\}] of the expression: the number of class
    characters at the start of [s] when a closing brace follows them.  The
    class excludes the closing brace, so the greedy run is the only way to
    match. *)
Fixpoint class_run_then_brace (s : string) : option nat :=
  match s with
  | String a rest =>
      if is_key_char a then S <$> class_run_then_brace rest
      else if Ascii.eqb a "}" then Some O
      else None
  | EmptyString => None
  end.

(** [l10nPattern], the compiled expression [\{l10n\.([a-zA-Z_]+)\}],
    anchored at the first byte of [s]: the length of the match that starts
    there, if there is one. *)
Definition l10nPattern (s : string) : option nat :=
  match strip_prefix "{l10n." s with
  | Some s1 =>
      match class_run_then_brace s1 with
      | Some (S n) => Some (6 + S n + 1)%nat
      | _ => None
      end
  | None => None
  end.

(** [l10nPattern.ReplaceAllStringFunc(src, repl)]: the matches are taken
    from left to right without overlap; [skip] counts the bytes of the match
    in progress that are still to be passed over. *)
Fixpoint ReplaceAllStringFunc_from (repl : string → string) (skip : nat)
    (src : string) : string :=
  match src with
  | EmptyString => EmptyString
  | String a rest =>
      match skip with
      | S n => ReplaceAllStringFunc_from repl n rest
      | O =>
          match l10nPattern src with
          | Some len =>
              repl (String.substring 0 len src)
              +:+ ReplaceAllStringFunc_from repl (len - 1) rest
          | None => String a (ReplaceAllStringFunc_from repl 0 rest)
          end
      end
  end.

Definition ReplaceAllStringFunc (src : string) (repl : string → string)
  : string :=
  ReplaceAllStringFunc_from repl 0 src.

Definition interpolateTemplate (template : string)
    (localizedData : gmap string string) : string :=
  ReplaceAllStringFunc template (fun match_ =>
    (* match[6 : len(match)-1] *)
    let key := String.substring 6 (String.length match_ - 1 - 6) match_ in
    match localizedData !! key with
    | Some value => dquote +:+ value +:+ dquote
    | None => match_
    end).

(** ** Data model *)

Module ComponentTemplate.
Record t := Make {
  ComponentName : string;
  ComponentType : string;
  Template : string;
  RequiredKeys : list string
}.
End ComponentTemplate.

(** [LastUpdated] is the RFC 3339 text of an instant in UTC, which has the
    resolution of a second; the field carries that second. *)
Module ComponentMetadata.
Record t := Make {
  ComponentID : string;
  LastUpdated : Z;
  RequiredKeys : list string
}.
End ComponentMetadata.

Module LocalizedComponent.
Record t := Make {
  ComponentName : string;
  ComponentType : string;
  Language : string;
  Template : string;
  LocalizedData : gmap string string;
  Metadata : ComponentMetadata.t;
  Cached : bool
}.

Definition with_Cached (b : bool) (c : t) : t :=
  Make (ComponentName c) (ComponentType c) (Language c) (Template c)
       (LocalizedData c) (Metadata c) b.
End LocalizedComponent.

(** The marker [{l10n.key}] of a template. *)
Definition marker (key : string) : string := "{l10n." +:+ key +:+ "}".

Fixpoint all_chars (p : ascii → bool) (s : string) : bool :=
  match s with
  | String a rest => p a && all_chars p rest
  | EmptyString => true
  end.

(** A key name the pattern accepts: one or more of [a-zA-Z_]. *)
Definition key_name (key : string) : bool :=
  negb (String.eqb key "") && all_chars is_key_char key.

Definition is_brace (a : ascii) : bool := Ascii.eqb a "{" || Ascii.eqb a "}".

(** A key of a marker: text between the braces, itself without braces. *)
Definition brace_free (key : string) : bool :=
  all_chars (fun a => negb (is_brace a)) key.

Definition ConcurrencyLimit : Z := 2.
Definition CacheMaxSize : Z := 50.
Definition Minute : Z := 60 * 1000000000.
Definition CacheTTL : Z := 10 * Minute.
Definition RedisTTL : Z := 30 * Minute.

(** [t.UnixMilli()] of an instant in nanoseconds. *)
Definition UnixMilli (t : Z) : Z := t / 1000000.

(** The second of an instant, as printed by [Format(time.RFC3339)]. *)
Definition RFC3339 (t : Z) : Z := t / 1000000000.

(** A Go [(value, error)] pair; an error is known by its message. *)
Inductive result (A : Type) : Type :=
  | Ok (a : A)
  | Error (err : string).
Arguments Ok {A} a.
Arguments Error {A} err.

(** ** encoding/json

    [json.Marshal] writes a string byte by byte.  A byte below 128 is
    written as it is or as an escape; a well-formed UTF-8 sequence is
    written as it is; a byte at which [utf8.DecodeRuneInString] reports
    [RuneError] with size 1 is written as the escape of U+FFFD.
    [json.Unmarshal] reads every escape back as the character it stands
    for.  The members of a map are written in the byte order of their keys,
    and an object read into a map keeps the last member of each name. *)

Definition byte_in (lo hi : N) (a : ascii) : bool :=
  let n := N_of_ascii a in ((lo <=? n) && (n <=? hi))%N.

(** The range accepted for the second byte after the first byte [b0] of a
    sequence of three or of four bytes. *)
Definition second_byte (b0 : ascii) : ascii → bool :=
  if byte_in 224 224 b0 then byte_in 160 191
  else if byte_in 237 237 b0 then byte_in 128 159
  else if byte_in 240 240 b0 then byte_in 144 191
  else if byte_in 244 244 b0 then byte_in 128 143
  else byte_in 128 191.

(** [utf8.DecodeRuneInString]: the size of the sequence at the start of
    [s]; [None] stands for [RuneError] with size 1 (or 0 at the end). *)
Definition DecodeRuneInString (s : string) : option nat :=
  match s with
  | String b0 (String b1 (String b2 (String b3 _))) =>
      if byte_in 0 127 b0 then Some 1%nat
      else if byte_in 194 223 b0 then
        if byte_in 128 191 b1 then Some 2%nat else None
      else if byte_in 224 239 b0 then
        if second_byte b0 b1 && byte_in 128 191 b2 then Some 3%nat else None
      else if byte_in 240 244 b0 then
        if second_byte b0 b1 && byte_in 128 191 b2 && byte_in 128 191 b3
        then Some 4%nat else None
      else None
  | String b0 (String b1 (String b2 EmptyString)) =>
      if byte_in 0 127 b0 then Some 1%nat
      else if byte_in 194 223 b0 then
        if byte_in 128 191 b1 then Some 2%nat else None
      else if byte_in 224 239 b0 then
        if second_byte b0 b1 && byte_in 128 191 b2 then Some 3%nat else None
      else None
  | String b0 (String b1 EmptyString) =>
      if byte_in 0 127 b0 then Some 1%nat
      else if byte_in 194 223 b0 then
        if byte_in 128 191 b1 then Some 2%nat else None
      else None
  | String b0 EmptyString =>
      if byte_in 0 127 b0 then Some 1%nat else None
  | EmptyString => None
  end.

(** The UTF-8 encoding of U+FFFD: EF BF BD. *)
Definition RuneError : string :=
  String "239" (String "191" (String "189" EmptyString)).

(** A string as read back from its JSON text; [skip] bytes are left of the
    sequence being copied. *)
Fixpoint json_string_from (skip : nat) (s : string) : string :=
  match s with
  | EmptyString => EmptyString
  | String a rest =>
      match skip with
      | S skip' => String a (json_string_from skip' rest)
      | O =>
          match DecodeRuneInString s with
          | Some size => String a (json_string_from (size - 1) rest)
          | None => RuneError +:+ json_string_from 0 rest
          end
      end
  end.

Definition json_string (s : string) : string := json_string_from 0 s.

(** The order in which the members of a map are written. *)
Definition key_le (x y : string * string) : Prop :=
  String.leb x.1 y.1 = true.

#[global] Instance key_le_dec : RelDecision key_le :=
  fun x y => decide (String.leb x.1 y.1 = true).

(** A map as read back from its JSON text. *)
Definition json_map (m : gmap string string) : gmap string string :=
  foldl (fun read '(key, value) =>
           <[json_string key := json_string value]> read)
        ∅ (merge_sort key_le (map_to_list m)).

(** [json.Unmarshal] of [json.Marshal(component)].  The field [cached] is
    [omitempty]: [false] is not written and is what the decoder leaves;
    the text of [LastUpdated] is ASCII. *)
Definition json_round_trip (component : LocalizedComponent.t)
  : LocalizedComponent.t :=
  let metadata := LocalizedComponent.Metadata component in
  LocalizedComponent.Make
    (json_string (LocalizedComponent.ComponentName component))
    (json_string (LocalizedComponent.ComponentType component))
    (json_string (LocalizedComponent.Language component))
    (json_string (LocalizedComponent.Template component))
    (json_map (LocalizedComponent.LocalizedData component))
    (ComponentMetadata.Make
       (json_string (ComponentMetadata.ComponentID metadata))
       (ComponentMetadata.LastUpdated metadata)
       (json_string <$> ComponentMetadata.RequiredKeys metadata))
    (LocalizedComponent.Cached component).

(** ** The remote store

    The Redis server holds, per key, a payload and the instant at which it
    expires.  The payload is the JSON text of a [LocalizedComponent]; it is
    represented by the component that [json.Unmarshal] reads from it.
    [setInRedis] stores [json.Marshal(component)], in this representation
    [json_round_trip component], and [getFromRedis] returns what the
    payload decodes to.  A command reaches the server or not; that, the
    error reported and the server's clock are inputs of the request. *)

Abbreviation RedisStore := (gmap string (LocalizedComponent.t * Z)).

(** GET: the payload of a key that exists and has not expired. *)
Definition redis_GET (store : RedisStore) (key : string) (now : Z)
  : option LocalizedComponent.t :=
  match store !! key with
  | Some (payload, deadline) => if now <? deadline then Some payload else None
  | None => None
  end.

(** SET with an expiry. *)
Definition redis_SET (store : RedisStore) (key : string)
    (payload : LocalizedComponent.t) (expiry now : Z) : RedisStore :=
  <[key := (payload, now + expiry)]> store.

(** EXPIRE: a new deadline for a key that exists. *)
Definition redis_EXPIRE (store : RedisStore) (key : string) (expiry now : Z)
  : RedisStore :=
  match redis_GET store key now with
  | Some payload => <[key := (payload, now + expiry)]> store
  | None => store
  end.

(** Outcome of a read: answered within [RedisTimeout], or an error (no
    connection, timeout, payload that does not decode). *)
Inductive ReadOutcome :=
  | Answered
  | ReadFailed (err : string).

(** Outcome of a write: acknowledged, or an error reported to the client
    with the command executed by the server or not. *)
Inductive WriteOutcome :=
  | Acknowledged
  | FailedExecuted (err : string)
  | FailedNotExecuted (err : string).

(** What one request reads from outside: the process clock at each read of
    it, and for each Redis command its outcome and the server's clock. *)
Record Env := MkEnv {
  clock_Get : Z;
  clock_Put : Z;
  clock_ComponentID : Z;
  clock_LastUpdated : Z;
  redis_Get_outcome : ReadOutcome;
  redis_Get_clock : Z;
  redis_Expire_outcome : WriteOutcome;
  redis_Expire_clock : Z;
  redis_Set_outcome : WriteOutcome;
  redis_Set_clock : Z
}.

(** The environment with another outcome of the GET. *)
Definition with_Get_outcome (o : ReadOutcome) (env : Env) : Env :=
  MkEnv (clock_Get env) (clock_Put env) (clock_ComponentID env)
        (clock_LastUpdated env) o (redis_Get_clock env)
        (redis_Expire_outcome env) (redis_Expire_clock env)
        (redis_Set_outcome env) (redis_Set_clock env).

(** The environment with another outcome of the SET. *)
Definition with_Set_outcome (o : WriteOutcome) (env : Env) : Env :=
  MkEnv (clock_Get env) (clock_Put env) (clock_ComponentID env)
        (clock_LastUpdated env) (redis_Get_outcome env) (redis_Get_clock env)
        (redis_Expire_outcome env) (redis_Expire_clock env)
        o (redis_Set_clock env).

(** The payload read is represented by the component that
    [json.Unmarshal] makes of it, which is what the function returns. *)
Definition getFromRedis (redisClient : RedisStore) (key : string) (env : Env)
  : result LocalizedComponent.t :=
  match redis_Get_outcome env with
  | ReadFailed err => Error err
  | Answered =>
      match redis_GET redisClient key (redis_Get_clock env) with
      | Some component => Ok component
      | None => Error "redis: nil"
      end
  end.

(** The store after the command and the error returned, if any.  [data]
    is [json.Marshal(component)], represented by what is read back from
    it; [json.Marshal] returns no error for a [LocalizedComponent]. *)
Definition setInRedis (redisClient : RedisStore) (key : string)
    (component : LocalizedComponent.t) (env : Env)
  : RedisStore * option string :=
  let data := json_round_trip component in
  let written :=
    redis_SET redisClient key data RedisTTL (redis_Set_clock env) in
  match redis_Set_outcome env with
  | Acknowledged => (written, None)
  | FailedExecuted err => (written, Some err)
  | FailedNotExecuted err => (redisClient, Some err)
  end.

(** [redisClient.Expire(ctx, cacheKey, RedisTTL).Err()] *)
Definition expireInRedis (redisClient : RedisStore) (key : string) (env : Env)
  : RedisStore * option string :=
  let refreshed :=
    redis_EXPIRE redisClient key RedisTTL (redis_Expire_clock env) in
  match redis_Expire_outcome env with
  | Acknowledged => (refreshed, None)
  | FailedExecuted err => (refreshed, Some err)
  | FailedNotExecuted err => (redisClient, Some err)
  end.

(** ** The service: generator and handler

    The two registries are globals of the program, read and never written;
    the functions take them as parameters. *)

(** The process state: the local cache, and the Redis client, [None] for a
    [nil] client, otherwise the store it talks to. *)
Record Server := MkServer {
  componentCache : TTLCache LocalizedComponent.t;
  redisClient : option RedisStore
}.

(** The JSON answer: status 200 with a component, or status 404 with the
    fields [error] and [available_components]. *)
Inductive Response :=
  | StatusOK (component : LocalizedComponent.t)
  | StatusNotFound (error : string) (available_components : list string).

Section Service.
Context (componentTemplates : gmap string ComponentTemplate.t).
Context (localizationDB : gmap string (gmap string string)).

(** The loop over [template.RequiredKeys]. *)
Definition componentStrings_of (strings : gmap string string)
    (requiredKeys : list string) : gmap string string :=
  foldl (fun componentStrings key =>
           match strings !! key with
           | Some value => <[key := value]> componentStrings
           | None => <[key := "[" +:+ key +:+ "]"]> componentStrings
           end) ∅ requiredKeys.

(** [now_id] and [now_stamp] are the two reads of [time.Now]. *)
Definition getLocalizedComponent (componentType lang : string)
    (now_id now_stamp : Z) : result LocalizedComponent.t :=
  match componentTemplates !! componentType with
  | None =>
      Error ("component type '" +:+ componentType +:+ "' not found")
  | Some template =>
      let '(strings, actualLang) :=
        match localizationDB !! lang with
        | Some strings => (strings, lang)
        | None => (default ∅ (localizationDB !! "en"), "en")
        end in
      let componentStrings :=
        componentStrings_of strings
          (ComponentTemplate.RequiredKeys template) in
      let localizedTemplate :=
        interpolateTemplate (ComponentTemplate.Template template)
          componentStrings in
      let componentID :=
        componentType +:+ "_" +:+ actualLang +:+ "_"
        +:+ Sprintf_d (Z.rem (UnixMilli now_id) 10000) in
      Ok {| LocalizedComponent.ComponentName :=
              ComponentTemplate.ComponentName template;
            LocalizedComponent.ComponentType :=
              ComponentTemplate.ComponentType template;
            LocalizedComponent.Language := actualLang;
            LocalizedComponent.Template := localizedTemplate;
            LocalizedComponent.LocalizedData := componentStrings;
            LocalizedComponent.Metadata :=
              {| ComponentMetadata.ComponentID := componentID;
                 ComponentMetadata.LastUpdated := RFC3339 now_stamp;
                 ComponentMetadata.RequiredKeys :=
                   ComponentTemplate.RequiredKeys template |};
            LocalizedComponent.Cached := false |}
  end.

(** The language the cache key is built from. *)
Definition cacheKey_lang (lang : string) : string :=
  match localizationDB !! lang with
  | Some _ => lang
  | None => "en"
  end.

(** The table the generator reads for a requested language. *)
Definition strings_for (lang : string) : gmap string string :=
  match localizationDB !! lang with
  | Some strings => strings
  | None => default ∅ (localizationDB !! "en")
  end.

(** [for key := range componentTemplates]: Go leaves the order of the
    iteration open; the list is in the order of [map_to_list]. *)
Definition getComponentKeys : list string :=
  (map_to_list componentTemplates).*1.

Definition warning (what : string) (err : option string) : list string :=
  match err with
  | Some e => ["Warning: " +:+ what +:+ ": " +:+ e]
  | None => []
  end.

(** The handler of GET /api/component/:component_type.  [lang_query] is
    the query parameter [lang], [None] when the request has none.  The
    result is the state after the request, the answer, and the lines
    printed.  The generator returns [Cached = false], so the assignment
    [component.Cached = false] made after the component has been handed to
    the cache changes nothing in the cache. *)
Definition getLocalizedComponentEndpoint (srv : Server)
    (componentType : string) (lang_query : option string) (env : Env)
  : Server * Response * list string :=
  let lang := default "en" lang_query in
  let actualLang := cacheKey_lang lang in
  let cacheKey := Sprintf_cacheKey componentType actualLang in
  match Get (componentCache srv) cacheKey (clock_Get env) with
  | (cache1, Some component) =>
      (MkServer cache1 (redisClient srv),
       StatusOK (LocalizedComponent.with_Cached true component), [])
  | (cache1, None) =>
      let from_redis :=
        match redisClient srv with
        | Some store =>
            match getFromRedis store cacheKey env with
            | Ok component => Some (store, component)
            | Error _ => None
            end
        | None => None
        end in
      match from_redis with
      | Some (store, component) =>
          let cache2 := Put cache1 cacheKey component (clock_Put env) in
          let '(store', err) := expireInRedis store cacheKey env in
          (MkServer cache2 (Some store'),
           StatusOK (LocalizedComponent.with_Cached true component),
           warning "Failed to refresh Redis TTL" err)
      | None =>
          match getLocalizedComponent componentType lang
                  (clock_ComponentID env) (clock_LastUpdated env) with
          | Error err =>
              (MkServer cache1 (redisClient srv),
               StatusNotFound err getComponentKeys, [])
          | Ok component =>
              let cache2 := Put cache1 cacheKey component (clock_Put env) in
              let '(client', log) :=
                match redisClient srv with
                | Some store =>
                    let '(store', err) :=
                      setInRedis store cacheKey component env in
                    (Some store', warning "Failed to cache in Redis" err)
                | None => (None, [])
                end in
              (MkServer cache2 client',
               StatusOK (LocalizedComponent.with_Cached false component),
               log)
          end
      end
  end.

(** The key of a request, and what the remote tier gives for a key: the
    store and the artifact on a hit, nothing when the client is [nil] or the
    read returns an error. *)
Definition request_key (componentType : string) (lang_query : option string)
  : string :=
  Sprintf_cacheKey componentType (cacheKey_lang (default "en" lang_query)).

Definition redis_lookup (client : option RedisStore) (cacheKey : string)
    (env : Env) : option (RedisStore * LocalizedComponent.t) :=
  match client with
  | Some store =>
      match getFromRedis store cacheKey env with
      | Ok component => Some (store, component)
      | Error _ => None
      end
  | None => None
  end.

(** A language code without a colon, the separator of the cache key. *)
Definition colon_free (lang : string) : bool :=
  all_chars (fun a => negb (Ascii.eqb a ":")) lang.

(** The language codes of the registry have no colon. *)
Definition langs_colon_free : Prop :=
  ∀ lang, is_Some (localizationDB !! lang) → colon_free lang = true.

(** The language codes of the registry are well-formed UTF-8: JSON reads
    them back as they are. *)
Definition langs_utf8 : Prop :=
  ∀ lang, is_Some (localizationDB !! lang) → json_string lang = lang.

(** An artifact is filed under [k] when [k] is the cache key of a
    registered component type and of the artifact's own language, and that
    language is one of the registry or the fallback. *)
Definition filed (k : string) (component : LocalizedComponent.t) : Prop :=
  ∃ componentType,
    is_Some (componentTemplates !! componentType)
    ∧ k = Sprintf_cacheKey componentType
            (LocalizedComponent.Language component)
    ∧ (is_Some (localizationDB !! LocalizedComponent.Language component)
       ∨ LocalizedComponent.Language component = "en").

(** The invariant of the two tiers: the local cache is well formed, and
    every artifact in the local cache or in the remote store is filed under
    its key. *)
Record consistent (srv : Server) : Prop := {
  consistent_wf : wf (componentCache srv);
  consistent_local : ∀ k component,
    (k, component) ∈ entries (componentCache srv) → filed k component;
  consistent_remote : ∀ store k component deadline,
    redisClient srv = Some store →
    store !! k = Some (component, deadline) → filed k component
}.

(** The state at startup: an empty cache; [connected] tells whether the
    ping of [main] succeeded, and [store] is what the server then holds. *)
Definition startup (connected : bool) (store : RedisStore) : Server :=
  MkServer (NewTTLCache CacheMaxSize CacheTTL)
           (if connected then Some store else None).

(** A sequence of requests, each with its environment. *)
Definition serve (srv : Server)
    (requests : list (string * option string * Env)) : Server :=
  foldl (fun s '(componentType, lang_query, env) =>
           (getLocalizedComponentEndpoint s componentType lang_query env).1.1)
        srv requests.
End Service.

(** ** The registries of the program *)

Definition localizationDB : gmap string (gmap string string) :=
  list_to_map [
    ("en", list_to_map [
       ("welcome_title", "Welcome to Our App");
       ("welcome_subtitle", "Your journey starts here");
       ("login_button", "Log In");
       ("signup_button", "Sign Up");
       ("navigation_home", "Home");
       ("navigation_about", "About");
       ("navigation_contact", "Contact");
       ("footer_copyright", "¬© 2024 Our Company. All rights reserved.");
       ("user_profile_title", "User Profile");
       ("user_profile_edit", "Edit Profile");
       ("settings_title", "Settings");
       ("settings_language", "Language");
       ("settings_theme", "Theme");
       ("error_404", "Page not found");
       ("error_500", "Internal server error")]);
    ("es", list_to_map [
       ("welcome_title", "Bienvenido a Nuestra App");
       ("welcome_subtitle", "Tu viaje comienza aqu√≠");
       ("login_button", "Iniciar Sesi√≥n");
       ("signup_button", "Registrarse");
       ("navigation_home", "Inicio");
       ("navigation_about", "Acerca de");
       ("navigation_contact", "Contacto");
       ("footer_copyright", "¬© 2024 Nuestra Empresa. Todos los derechos reservados.");
       ("user_profile_title", "Perfil de Usuario");
       ("user_profile_edit", "Editar Perfil");
       ("settings_title", "Configuraci√≥n");
       ("settings_language", "Idioma");
       ("settings_theme", "Tema");
       ("error_404", "P√°gina no encontrada");
       ("error_500", "Error interno del servidor")]);
    ("fr", list_to_map [
       ("welcome_title", "Bienvenue dans Notre App");
       ("welcome_subtitle", "Votre voyage commence ici");
       ("login_button", "Se Connecter");
       ("signup_button", "S'inscrire");
       ("navigation_home", "Accueil");
       ("navigation_about", "√Ä Propos");
       ("navigation_contact", "Contact");
       ("footer_copyright", "¬© 2024 Notre Entreprise. Tous droits r√©serv√©s.");
       ("user_profile_title", "Profil Utilisateur");
       ("user_profile_edit", "Modifier le Profil");
       ("settings_title", "Param√®tres");
       ("settings_language", "Langue");
       ("settings_theme", "Th√®me");
       ("error_404", "Page non trouv√©e");
       ("error_500", "Erreur interne du serveur")]);
    ("de", list_to_map [
       ("welcome_title", "Willkommen in Unserer App");
       ("welcome_subtitle", "Ihre Reise beginnt hier");
       ("login_button", "Anmelden");
       ("signup_button", "Registrieren");
       ("navigation_home", "Startseite");
       ("navigation_about", "√úber Uns");
       ("navigation_contact", "Kontakt");
       ("footer_copyright", "¬© 2024 Unser Unternehmen. Alle Rechte vorbehalten.");
       ("user_profile_title", "Benutzerprofil");
       ("user_profile_edit", "Profil Bearbeiten");
       ("settings_title", "Einstellungen");
       ("settings_language", "Sprache");
       ("settings_theme", "Design");
       ("error_404", "Seite nicht gefunden");
       ("error_500", "Interner Serverfehler")])].

Definition welcome_template : string := go_raw "
import React from 'react';

const WelcomeComponent = ({ className = @welcome-container@ }) => {
  return (
    <div className={className}>
      <div className=@welcome-wrapper@>
        <header className=@welcome-header@>
          <h1 className=@welcome-title@ data-l10n=@welcome_title@>
            {l10n.welcome_title}
          </h1>
          <p className=@welcome-subtitle@ data-l10n=@welcome_subtitle@>
            {l10n.welcome_subtitle}
          </p>
        </header>
        <div className=@welcome-actions@>
          <button 
            className=@btn btn-primary@ 
            onClick={handleLogin}
            data-l10n=@login_button@
          >
            {l10n.login_button}
          </button>
          <button 
            className=@btn btn-secondary@ 
            onClick={handleSignup}
            data-l10n=@signup_button@
          >
            {l10n.signup_button}
          </button>
        </div>
      </div>
    </div>
  );
};

export default WelcomeComponent;
".

Definition navigation_template : string := go_raw "
import React from 'react';

const NavigationComponent = ({ className = @navigation-container@ }) => {
  return (
    <nav className={className}>
      <ul className=@nav-list@>
        <li className=@nav-item@>
          <a href=@/@ className=@nav-link@ data-l10n=@navigation_home@>
            {l10n.navigation_home}
          </a>
        </li>
        <li className=@nav-item@>
          <a href=@/about@ className=@nav-link@ data-l10n=@navigation_about@>
            {l10n.navigation_about}
          </a>
        </li>
        <li className=@nav-item@>
          <a href=@/contact@ className=@nav-link@ data-l10n=@navigation_contact@>
            {l10n.navigation_contact}
          </a>
        </li>
      </ul>
    </nav>
  );
};

export default NavigationComponent;
".

Definition user_profile_template : string := go_raw "
import React from 'react';

const UserProfileComponent = ({ className = @user-profile-container@ }) => {
  return (
    <div className={className}>
      <div className=@profile-wrapper@>
        <h2 className=@profile-title@ data-l10n=@user_profile_title@>
          {l10n.user_profile_title}
        </h2>
        <div className=@profile-actions@>
          <button 
            className=@btn btn-outline@ 
            onClick={handleEditProfile}
            data-l10n=@user_profile_edit@
          >
            {l10n.user_profile_edit}
          </button>
        </div>
      </div>
    </div>
  );
};

export default UserProfileComponent;
".

Definition footer_template : string := go_raw "
import React from 'react';

const FooterComponent = ({ className = @footer-container@ }) => {
  return (
    <footer className={className}>
      <div className=@footer-content@>
        <p className=@footer-copyright@ data-l10n=@footer_copyright@>
          {l10n.footer_copyright}
        </p>
      </div>
    </footer>
  );
};

export default FooterComponent;
".

Definition componentTemplates : gmap string ComponentTemplate.t :=
  list_to_map [
    ("welcome", ComponentTemplate.Make "WelcomeComponent" "functional" welcome_template
       ["welcome_title"; "welcome_subtitle"; "login_button"; "signup_button"]);
    ("navigation", ComponentTemplate.Make "NavigationComponent" "functional" navigation_template
       ["navigation_home"; "navigation_about"; "navigation_contact"]);
    ("user_profile", ComponentTemplate.Make "UserProfileComponent" "functional" user_profile_template
       ["user_profile_title"; "user_profile_edit"]);
    ("footer", ComponentTemplate.Make "FooterComponent" "functional" footer_template
       ["footer_copyright"])].

(** The program with its registries. *)
Definition Generate : string → string → Z → Z → result LocalizedComponent.t :=
  getLocalizedComponent componentTemplates localizationDB.

Definition Lookup
  : Server → string → option string → Env → Server * Response * list string :=
  getLocalizedComponentEndpoint componentTemplates localizationDB.

(** ** The cache seen from outside *)

Section TTLCacheView.
Context {V : Type}.

(** A sequence of entries with the entry of one key taken out. *)
Definition without_entry (k : string) (es : list (string * V))
  : list (string * V) :=
  filter (fun kv => kv.1 ≠ k) es.

(** Two caches a caller cannot tell apart: the same entries in the same
    order of recency, the same timestamps, capacity and TTL; the nodes may
    differ. *)
Definition same_view (c c' : TTLCache V) : Prop :=
  entries c = entries c' ∧ timestamps c = timestamps c'
  ∧ maxSize c = maxSize c' ∧ ttl c = ttl c'.

(** The answers of the [Get]s of a run of calls, in order. *)
Fixpoint answers (c : TTLCache V) (ops : list (Call V)) : list (option V) :=
  match ops with
  | [] => []
  | CallGet k now :: ops => (Get c k now).2 :: answers (Get c k now).1 ops
  | CallPut k v now :: ops => answers (Put c k v now) ops
  end.

(** A call that is not a [Put] of [k]. *)
Definition not_Put_of (k : string) (op : Call V) : bool :=
  match op with
  | CallGet _ _ => true
  | CallPut k' _ _ => negb (String.eqb k' k)
  end.
End TTLCacheView.

(** ** ConcurrencyLimiter

    The buffered channel [semaphore] is known by its capacity and by the
    number of tokens in it.  A request that reaches the middleware tries to
    send a token; an admitted request takes one token back when its handler
    has returned (the deferred function). *)

Record Semaphore := MkSemaphore { sem_cap : Z; sem_len : Z }.

(** [make(chan struct{}, limit)]; a negative size panics. *)
Definition make_semaphore (limit : Z) : option Semaphore :=
  if limit <? 0 then None else Some (MkSemaphore limit 0).

(** The send of the [select] with a [default] case: it goes through when
    the buffer has room, and is given up at once when it has none. *)
Definition try_send (s : Semaphore) : option Semaphore :=
  if sem_len s <? sem_cap s
  then Some (MkSemaphore (sem_cap s) (sem_len s + 1))
  else None.

(** The receive of the deferred function. *)
Definition receive (s : Semaphore) : Semaphore :=
  MkSemaphore (sem_cap s) (sem_len s - 1).

(** What the middleware does with a request: [c.Next()], or the answer
    503 and [c.Abort()]. *)
Inductive Admission :=
  | Next
  | Abort (status : Z) (error : string).

Definition at_capacity : Admission :=
  Abort 503 "server is at capacity, please try again later".

(** The events at the middleware: a request arrives; the handler of an
    admitted request returns. *)
Inductive Event := Arrive | Leave.

(** A run of the middleware over a sequence of events: the semaphore at the
    end and the decision taken for each arrival.  A [Leave] belongs to an
    admitted request that has not left yet; a sequence with a [Leave] while
    no token is held is not a run. *)
Fixpoint limiter_run (s : Semaphore) (events : list Event)
  : option (Semaphore * list Admission) :=
  match events with
  | [] => Some (s, [])
  | Arrive :: events =>
      match try_send s with
      | Some s' =>
          match limiter_run s' events with
          | Some (s_end, decisions) => Some (s_end, Next :: decisions)
          | None => None
          end
      | None =>
          match limiter_run s events with
          | Some (s_end, decisions) => Some (s_end, at_capacity :: decisions)
          | None => None
          end
      end
  | Leave :: events =>
      if 0 <? sem_len s then limiter_run (receive s) events else None
  end.

(** ** healthCheck and the routes of main *)

Module Health.
Record t := Make {
  status : string;
  service : string;
  version : string;
  cache_size : Z;
  concurrency_limit : Z;
  redis_status : string
}.
End Health.

(** [ping_err] is the error of [redisClient.Ping], [None] when it
    succeeds. *)
Definition healthCheck (srv : Server) (ping_err : option string) : Health.t :=
  let redisStatus :=
    match redisClient srv with
    | Some _ =>
        match ping_err with
        | None => "connected"
        | Some _ => "disconnected"
        end
    | None => "disconnected"
    end in
  Health.Make "healthy" "localization-manager-backend" "0.1.0"
    (Size (componentCache srv)) ConcurrencyLimit redisStatus.

(** The two routes: GET /health and GET /api/component/:component_type. *)
Inductive Request :=
  | GetHealth
  | GetComponent (componentType : string) (lang_query : option string).

Inductive HTTPResponse :=
  | HealthOK (body : Health.t)
  | ComponentResponse (response : Response)
  | Aborted (status : Z) (error : string).

Section Routes.
Context (componentTemplates : gmap string ComponentTemplate.t).
Context (localizationDB : gmap string (gmap string string)).

(** [getLanguageKeys], in the order of [map_to_list]. *)
Definition getLanguageKeys : list string :=
  (map_to_list localizationDB).*1.

(** One request through the router while the other requests in flight hold
    the tokens of [sem]: /health is registered on the router itself, the
    component route in the group that uses the limiter. *)
Definition route (sem : Semaphore) (srv : Server) (request : Request)
    (env : Env) (ping_err : option string)
  : Semaphore * Server * HTTPResponse * list string :=
  match request with
  | GetHealth => (sem, srv, HealthOK (healthCheck srv ping_err), [])
  | GetComponent componentType lang_query =>
      match try_send sem with
      | Some sem' =>
          let '(srv', response, log) :=
            getLocalizedComponentEndpoint componentTemplates localizationDB
              srv componentType lang_query env in
          (receive sem', srv', ComponentResponse response, log)
      | None =>
          (sem, srv,
           Aborted 503 "server is at capacity, please try again later", [])
      end
  end.

(** An artifact the generator made for the request a key stands for. *)
Definition generated_for (k : string) (component : LocalizedComponent.t)
  : Prop :=
  ∃ componentType lang_query now_id now_stamp,
    k = request_key localizationDB componentType lang_query
    ∧ getLocalizedComponent componentTemplates localizationDB
        componentType (default "en" lang_query) now_id now_stamp
      = Ok component.

(** Every artifact of the generator is read back from its JSON text as it
    is: its strings are well-formed UTF-8. *)
Definition json_stable : Prop :=
  ∀ componentType lang now_id now_stamp component,
    getLocalizedComponent componentTemplates localizationDB
      componentType lang now_id now_stamp = Ok component →
    json_round_trip component = component.

(** Both tiers hold generator outputs only, each under its key. *)
Record coherent (srv : Server) : Prop := {
  coherent_wf : wf (componentCache srv);
  coherent_local : ∀ k component,
    (k, component) ∈ entries (componentCache srv) →
    generated_for k component;
  coherent_remote : ∀ store k component deadline,
    redisClient srv = Some store →
    store !! k = Some (component, deadline) → generated_for k component
}.
End Routes.

(** Does the pattern match somewhere in [s]? *)
Fixpoint has_marker (s : string) : bool :=
  match l10nPattern s with
  | Some _ => true
  | None =>
      match s with
      | String _ rest => has_marker rest
      | EmptyString => false
      end
  end.

(** Is [s] the bracketed placeholder of [key]? *)
Definition is_placeholder (key s : string) : bool :=
  String.eqb s ("[" +:+ key +:+ "]").

(** Did the generator find every string of [template] in [strings]: no
    marker is left in the interpolated text and no string is the bracketed
    placeholder of its key. *)
Definition complete (template : ComponentTemplate.t)
    (strings : gmap string string) : bool :=
  let componentStrings :=
    componentStrings_of strings (ComponentTemplate.RequiredKeys template) in
  negb (has_marker
          (interpolateTemplate (ComponentTemplate.Template template)
             componentStrings))
  && bool_decide
       (map_Forall (fun key value => is_placeholder key value = false)
          componentStrings).

(** Is [s] read back from its JSON text as it is? *)
Definition utf8 (s : string) : bool := String.eqb (json_string s) s.

(** Are the strings the generator makes of [template] and [strings] read
    back from JSON as they are? *)
Definition utf8_artifact (template : ComponentTemplate.t)
    (strings : gmap string string) : bool :=
  let componentStrings :=
    componentStrings_of strings (ComponentTemplate.RequiredKeys template) in
  utf8 (ComponentTemplate.ComponentName template)
  && utf8 (ComponentTemplate.ComponentType template)
  && utf8 (interpolateTemplate (ComponentTemplate.Template template)
             componentStrings)
  && forallb utf8 (ComponentTemplate.RequiredKeys template)
  && bool_decide
       (map_Forall (fun key value => utf8 key && utf8 value = true)
          componentStrings).

Definition is_Next (d : Admission) : bool :=
  match d with Next => true | Abort _ _ => false end.

Definition is_Leave (e : Event) : bool :=
  match e with Leave => true | Arrive => false end.

Definition is_Arrive (e : Event) : bool :=
  match e with Arrive => true | Leave => false end.

(** How many elements of a list satisfy a test. *)
Definition count {A : Type} (p : A → bool) (l : list A) : Z :=
  Z.of_nat (length (List.filter p l)).

(** * Properties of the cache *)

Section GoListFacts.
Context {V : Type}.
Implicit Types (l : list (Element V)) (x : Element V) (e : nat).

Lemma is_node_true e x : is_node e x = true ↔ eid x = e.
Proof. unfold is_node. apply Nat.eqb_eq. Qed.

Lemma is_node_false e x : is_node e x = false ↔ eid x ≠ e.
Proof. unfold is_node. apply Nat.eqb_neq. Qed.

Lemma node_absent e l : e ∉ eid <$> l → node e l = None.
Proof.
  induction l as [|y l IH]; simpl; [done|].
  rewrite not_elem_of_cons. intros [Hy Hl].
  unfold node in *. simpl.
  destruct (is_node e y) eqn:E; [|by apply IH].
  apply is_node_true in E. congruence.
Qed.

Lemma Remove_absent e l : e ∉ eid <$> l → Remove e l = l.
Proof.
  induction l as [|y l IH]; simpl; [done|].
  rewrite not_elem_of_cons. intros [Hy Hl].
  unfold Remove in *. simpl.
  destruct (is_node e y) eqn:E; simpl.
  - apply is_node_true in E. congruence.
  - by rewrite IH.
Qed.

Lemma node_app_absent e l1 l2 :
  e ∉ eid <$> l1 → node e (l1 ++ l2) = node e l2.
Proof.
  induction l1 as [|y l1 IH]; simpl; [done|].
  rewrite not_elem_of_cons. intros [Hy Hl].
  unfold node in *. simpl.
  destruct (is_node e y) eqn:E; [|by apply IH].
  apply is_node_true in E. congruence.
Qed.

Lemma Remove_app e l1 l2 : Remove e (l1 ++ l2) = Remove e l1 ++ Remove e l2.
Proof. apply List.filter_app. Qed.

Lemma node_here e x l : eid x = e → node e (x :: l) = Some x.
Proof. intros H. unfold node. simpl. by apply is_node_true in H as ->. Qed.

Lemma Remove_here e x l : eid x = e → Remove e (x :: l) = Remove e l.
Proof. intros H. unfold Remove. simpl. by apply is_node_true in H as ->. Qed.

(** A node of a list without repeated identities splits the list; the
    handle finds it and [Remove] takes exactly it out. *)
Lemma node_split l x :
  NoDup (eid <$> l) → x ∈ l →
  ∃ l1 l2, l = l1 ++ x :: l2
           ∧ (eid x ∉ eid <$> l1) ∧ (eid x ∉ eid <$> l2)
           ∧ node (eid x) l = Some x
           ∧ Remove (eid x) l = l1 ++ l2.
Proof.
  intros Hnd Hin.
  apply list_elem_of_split in Hin as (l1 & l2 & ->).
  rewrite fmap_app, fmap_cons in Hnd.
  apply NoDup_app in Hnd as (_ & H1 & H2).
  apply NoDup_cons in H2 as [H2 _].
  assert (eid x ∉ eid <$> l1) as H1'.
  { intros Hx. apply (H1 _ Hx). left. }
  exists l1, l2. repeat split; try done.
  - rewrite node_app_absent by done. by apply node_here.
  - rewrite Remove_app, Remove_here by done.
    by rewrite !Remove_absent.
Qed.

Lemma set_value_absent e v l : e ∉ eid <$> l → set_value e v l = l.
Proof.
  induction l as [|y l IH]; simpl; [done|].
  rewrite not_elem_of_cons. intros [Hy Hl].
  destruct (is_node e y) eqn:E.
  - apply is_node_true in E. congruence.
  - by rewrite IH.
Qed.

Lemma set_value_app e v l1 l2 :
  set_value e v (l1 ++ l2) = set_value e v l1 ++ set_value e v l2.
Proof. apply List.map_app. Qed.
End GoListFacts.

Section TTLCacheFacts.
Context {V : Type}.
Implicit Types (c : TTLCache V) (l : list (Element V)) (x : Element V).

Lemma index_keys l : (index l).*1 = (fun x => key (Value x)) <$> l.
Proof. unfold index. rewrite <- list_fmap_compose. done. Qed.

Lemma index_nodes l : (index l).*2 = eid <$> l.
Proof. unfold index. rewrite <- list_fmap_compose. done. Qed.

Lemma elem_of_index l k e :
  (k, e) ∈ index l ↔ ∃ x, x ∈ l ∧ eid x = e ∧ key (Value x) = k.
Proof.
  unfold index. rewrite list_elem_of_fmap. split.
  - intros (x & Heq & Hin). inversion Heq. eauto.
  - intros (x & Hin & <- & <-). eauto.
Qed.

Lemma wf_New n t : wf (@NewTTLCache V n t).
Proof.
  split; simpl; try apply NoDup_nil_2.
  - intros k e. rewrite lookup_empty. split; [done|].
    intros (x & Hx & _). by apply elem_of_nil in Hx.
  - intros x Hx. by apply elem_of_nil in Hx.
  - by rewrite !dom_empty_L.
Qed.

(** Well-formedness only looks at the index of the list. *)
Lemma wf_index c c' :
  wf c → cache c' = cache c →
  dom (timestamps c') = dom (timestamps c) →
  (next_node c ≤ next_node c')%nat →
  index (lruList c') ≡ₚ index (lruList c) →
  wf c'.
Proof.
  intros [Hn Hk Hc Hf Hs] Ec Et En Ei. split.
  - rewrite <- index_nodes. rewrite Ei. by rewrite index_nodes.
  - unfold lru_keys. rewrite <- index_keys. rewrite Ei.
    by rewrite index_keys.
  - intros k e. rewrite Ec, Hc, <- !elem_of_index. by rewrite Ei.
  - intros x Hx.
    assert ((key (Value x), eid x) ∈ index (lruList c)) as Hi.
    { rewrite <- Ei. apply elem_of_index. eauto. }
    apply elem_of_index in Hi as (y & Hy & Hey & _).
    apply Hf in Hy. lia.
  - by rewrite Et, Ec.
Qed.

(** What a hit of the map says about the list. *)
Lemma wf_lookup c k e :
  wf c → cache c !! k = Some e →
  ∃ l1 x l2,
    lruList c = l1 ++ x :: l2 ∧ eid x = e ∧ key (Value x) = k
    ∧ node e (lruList c) = Some x
    ∧ Remove e (lruList c) = l1 ++ l2
    ∧ (e ∉ eid <$> l1) ∧ (e ∉ eid <$> l2)
    ∧ (k ∉ (fun y => key (Value y)) <$> l1)
    ∧ (k ∉ (fun y => key (Value y)) <$> l2).
Proof.
  intros Hwf Hc. apply (wf_cache _ Hwf) in Hc as (x & Hx & <- & <-).
  destruct (node_split _ _ (wf_nodes _ Hwf) Hx)
    as (l1 & l2 & El & Hi1 & Hi2 & Hnode & Hrem).
  exists l1, x, l2. split_and!; try done.
  - pose proof (wf_keys _ Hwf) as Hks. unfold lru_keys in Hks.
    rewrite El, fmap_app, fmap_cons in Hks.
    apply NoDup_app in Hks as (_ & Hk2 & _).
    intros Hin. apply (Hk2 _ Hin). left.
  - pose proof (wf_keys _ Hwf) as Hks. unfold lru_keys in Hks.
    rewrite El, fmap_app, fmap_cons in Hks.
    apply NoDup_app in Hks as (_ & _ & Hk3).
    by apply NoDup_cons in Hk3 as [Hk3 _].
Qed.

Lemma wf_lookup_None c k :
  wf c → cache c !! k = None → k ∉ lru_keys c.
Proof.
  intros Hwf Hc Hin. unfold lru_keys in Hin.
  apply list_elem_of_fmap in Hin as (x & -> & Hx).
  assert (cache c !! key (Value x) = Some (eid x)) as H.
  { apply (wf_cache _ Hwf). eauto. }
  congruence.
Qed.

Lemma wf_lookup_keys c k :
  wf c → (is_Some (cache c !! k) ↔ k ∈ lru_keys c).
Proof.
  intros Hwf. split.
  - intros [e He]. apply (wf_cache _ Hwf) in He as (x & Hx & _ & <-).
    unfold lru_keys. apply list_elem_of_fmap. eauto.
  - intros Hin. destruct (cache c !! k) eqn:E; [eauto|].
    by apply wf_lookup_None in E.
Qed.

Lemma wf_drop_entry c k e :
  wf c → cache c !! k = Some e → wf (drop_entry c k e).
Proof.
  intros Hwf Hc.
  destruct (wf_lookup _ _ _ Hwf Hc) as (l1 & x & l2 & El & He & Hk & _ & Hrem & _).
  pose proof (wf_nodes _ Hwf) as Hn. pose proof (wf_keys _ Hwf) as Hks.
  unfold lru_keys in Hks. rewrite El in Hn, Hks.
  rewrite fmap_app, fmap_cons in Hn. rewrite fmap_app, fmap_cons in Hks.
  apply NoDup_app in Hn as (Hn1 & Hn2 & Hn3).
  apply NoDup_cons in Hn3 as [Hn3 Hn4].
  apply NoDup_app in Hks as (Hk1 & Hk2 & Hk3).
  apply NoDup_cons in Hk3 as [Hk3 Hk4].
  split; unfold lru_keys; simpl; rewrite ?Hrem.
  - rewrite fmap_app. apply NoDup_app. split_and!; [done| |done].
    intros y Hy1 Hy2. apply (Hn2 y Hy1). by right.
  - rewrite fmap_app.
    apply NoDup_app. split_and!; [done| |done].
    intros y Hy1 Hy2. apply (Hk2 y Hy1). by right.
  - intros k' e'. rewrite lookup_delete_Some, (wf_cache _ Hwf), El. split.
    + intros (Hne & y & Hy & Hey & Hky). exists y. split; [|done].
      rewrite elem_of_app, elem_of_cons in Hy. rewrite elem_of_app.
      destruct Hy as [?|[->|?]]; [by left|congruence|by right].
    + intros (y & Hy & Hey & Hky). split.
      * intros <-. subst k. rewrite elem_of_app in Hy. destruct Hy as [Hy|Hy].
        -- apply (Hk2 (key (Value y))); [apply list_elem_of_fmap; eauto|].
           rewrite <- Hky. left.
        -- apply Hk3. rewrite <- Hky. apply list_elem_of_fmap; eauto.
      * exists y. split; [|done]. rewrite elem_of_app in Hy.
        rewrite elem_of_app, elem_of_cons. tauto.
  - intros y Hy. apply (wf_fresh _ Hwf). rewrite El.
    rewrite elem_of_app in Hy. rewrite elem_of_app, elem_of_cons. tauto.
  - rewrite !dom_delete_L. by rewrite (wf_stamps _ Hwf).
Qed.

Lemma wf_push c k v now :
  wf c → cache c !! k = None →
  wf {| maxSize := maxSize c; ttl := ttl c;
        cache := <[k := next_node c]> (cache c);
        lruList := PushBack (next_node c) (CacheEntry k v) (lruList c);
        timestamps := <[k := now]> (timestamps c);
        next_node := S (next_node c) |}.
Proof.
  intros Hwf Hc. pose proof (wf_lookup_None _ _ Hwf Hc) as Hk.
  unfold lru_keys in Hk.
  split; unfold lru_keys, PushBack; simpl.
  - rewrite fmap_app. apply NoDup_app. split_and!.
    + apply (wf_nodes _ Hwf).
    + intros e He Hin. simpl in Hin. apply list_elem_of_singleton in Hin.
      subst e. apply list_elem_of_fmap in He as (y & Hy & Hin).
      apply (wf_fresh _ Hwf) in Hin. lia.
    + simpl. apply NoDup_singleton.
  - rewrite fmap_app. apply NoDup_app. split_and!.
    + apply (wf_keys _ Hwf).
    + intros k' Hk' Hin. simpl in Hin. apply list_elem_of_singleton in Hin.
      by subst k'.
    + simpl. apply NoDup_singleton.
  - intros k' e'. rewrite lookup_insert_Some, (wf_cache _ Hwf). split.
    + intros [[<- <-]|(Hne & y & Hy & Hey & Hky)].
      * eexists. split; [apply elem_of_app; right; left|done].
      * exists y. split; [apply elem_of_app; by left|done].
    + intros (y & Hy & Hey & Hky). apply elem_of_app in Hy as [Hy|Hy].
      * right. split; [|eauto]. intros <-. apply Hk.
        apply list_elem_of_fmap. eauto.
      * apply list_elem_of_singleton in Hy. subst y. simpl in *. by left.
  - intros y Hy. apply elem_of_app in Hy as [Hy|Hy].
    + apply (wf_fresh _ Hwf) in Hy. lia.
    + apply list_elem_of_singleton in Hy. subst y. simpl. lia.
  - rewrite !dom_insert_L. by rewrite (wf_stamps _ Hwf).
Qed.

Lemma index_MoveToBack l1 x l2 :
  index (l1 ++ l2 ++ [x]) ≡ₚ index (l1 ++ x :: l2).
Proof.
  unfold index. rewrite !fmap_app, !fmap_cons. simpl.
  apply Permutation_app_head. symmetry. apply Permutation_cons_append.
Qed.

Lemma MoveToBack_split l e x l1 l2 :
  node e l = Some x → Remove e l = l1 ++ l2 →
  MoveToBack e l = l1 ++ l2 ++ [x].
Proof.
  intros Hn Hr. unfold MoveToBack. rewrite Hn, Hr. by rewrite <- app_assoc.
Qed.

Lemma set_value_back e v l1 l2 x :
  (e ∉ eid <$> l1) → (e ∉ eid <$> l2) → eid x = e →
  set_value e v (l1 ++ l2 ++ [x])
  = l1 ++ l2 ++ [MkElement (eid x) (CacheEntry (key (Value x)) v)].
Proof.
  intros H1 H2 He. rewrite !set_value_app, !set_value_absent by done.
  simpl. by apply is_node_true in He as ->.
Qed.

Lemma wf_Get c k now : wf c → wf (Get c k now).1.
Proof.
  intros Hwf. unfold Get.
  destruct (cache c !! k) as [e|] eqn:Hc; [|done].
  destruct (wf_lookup _ _ _ Hwf Hc)
    as (l1 & x & l2 & El & He & Hk & Hn & Hr & _).
  destruct (timestamps c !! k) as [t|]; [|by apply wf_drop_entry].
  destruct (now - t >? ttl c); [by apply wf_drop_entry|].
  rewrite Hn. simpl. apply (wf_index c); simpl; try done.
  rewrite (MoveToBack_split _ _ _ _ _ Hn Hr), El.
  apply index_MoveToBack.
Qed.

Lemma wf_Put c k v now : wf c → wf (Put c k v now).
Proof.
  intros Hwf. unfold Put.
  destruct (cache c !! k) as [e|] eqn:Hc.
  - destruct (wf_lookup _ _ _ Hwf Hc)
      as (l1 & x & l2 & El & He & Hk & Hn & Hr & H1 & H2 & _).
    apply (wf_index c); simpl; try done.
    + apply dom_insert_lookup_L. apply elem_of_dom.
      rewrite (wf_stamps _ Hwf). apply elem_of_dom. eauto.
    + rewrite (MoveToBack_split _ _ _ _ _ Hn Hr).
      rewrite set_value_back by done. rewrite El.
      rewrite <- index_MoveToBack. unfold index.
      by rewrite !fmap_app.
  - match goal with |- context [if ?b then ?t else c] =>
      set (c1 := if b then t else c) end.
    assert (wf c1 ∧ cache c1 !! k = None) as [Hwf1 Hc1].
    { subst c1. destruct (Len (lruList c) >=? maxSize c); [|done].
      destruct (Front (lruList c)) as [oldest|] eqn:Hf; [|done].
      assert (cache c !! key (Value oldest) = Some (eid oldest)) as Ho.
      { apply (wf_cache _ Hwf). exists oldest. split; [|done].
        unfold Front in Hf. destruct (lruList c); [done|].
        simpl in Hf. inversion Hf. left. }
      split; [by apply wf_drop_entry|].
      simpl. by apply lookup_delete_None; right. }
    by apply wf_push.
Qed.

(** *** The operations on the sequence of keys *)

Lemma without_absent k ks : k ∉ ks → without k ks = ks.
Proof.
  intros Hk. unfold without. induction ks as [|k' ks IH]; [done|].
  apply not_elem_of_cons in Hk as [Hne Hk].
  rewrite filter_cons_True by done. by rewrite IH.
Qed.

Lemma without_split k ks1 ks2 :
  k ∉ ks1 → k ∉ ks2 → without k (ks1 ++ k :: ks2) = ks1 ++ ks2.
Proof.
  intros H1 H2. unfold without.
  rewrite filter_app, filter_cons_False by (intros ?; done).
  fold (without k ks1) (without k ks2). by rewrite !without_absent.
Qed.

Lemma Size_lru_keys c : Size c = Z.of_nat (length (lru_keys c)).
Proof. unfold Size, Len, lru_keys. by rewrite length_fmap. Qed.

Lemma Get_miss c k now : cache c !! k = None → Get c k now = (c, None).
Proof. intros H. unfold Get. by rewrite H. Qed.

(** An entry older than the TTL: not found, and unlinked. *)
Lemma Get_expired c k now e t :
  wf c → cache c !! k = Some e → timestamps c !! k = Some t →
  now - t > ttl c →
  (Get c k now).2 = None
  ∧ lru_keys (Get c k now).1 = without k (lru_keys c)
  ∧ Size (Get c k now).1 = Size c - 1
  ∧ cache (Get c k now).1 !! k = None
  ∧ timestamps (Get c k now).1 !! k = None.
Proof.
  intros Hwf Hc Ht Hage.
  destruct (wf_lookup _ _ _ Hwf Hc)
    as (l1 & x & l2 & El & He & Hk & Hn & Hr & _ & _ & Hk1 & Hk2).
  unfold Get. rewrite Hc, Ht.
  destruct (now - t >? ttl c) eqn:E; [|lia].
  simpl. unfold Size, Len, lru_keys. simpl. rewrite Hr, El.
  split_and!; try done.
  - rewrite !fmap_app, fmap_cons, Hk. by rewrite without_split.
  - rewrite !length_app. simpl. lia.
  - apply lookup_delete_eq.
  - apply lookup_delete_eq.
Qed.

(** A fresh entry: found, and moved to the back; nothing else changes. *)
Lemma Get_hit c k now e t :
  wf c → cache c !! k = Some e → timestamps c !! k = Some t →
  now - t ≤ ttl c →
  (∃ x, x ∈ lruList c ∧ key (Value x) = k
        ∧ (Get c k now).2 = Some (value (Value x)))
  ∧ lruList (Get c k now).1 = MoveToBack e (lruList c)
  ∧ lru_keys (Get c k now).1 = without k (lru_keys c) ++ [k]
  ∧ lruList (Get c k now).1 ≡ₚ lruList c
  ∧ cache (Get c k now).1 = cache c
  ∧ timestamps (Get c k now).1 = timestamps c
  ∧ maxSize (Get c k now).1 = maxSize c
  ∧ ttl (Get c k now).1 = ttl c.
Proof.
  intros Hwf Hc Ht Hage.
  destruct (wf_lookup _ _ _ Hwf Hc)
    as (l1 & x & l2 & El & He & Hk & Hn & Hr & _ & _ & Hk1 & Hk2).
  unfold Get. rewrite Hc, Ht.
  destruct (now - t >? ttl c) eqn:E; [lia|].
  rewrite Hn. simpl. unfold lru_keys. simpl.
  rewrite (MoveToBack_split _ _ _ _ _ Hn Hr), El.
  split_and!; try done.
  - exists x. split_and!; try done. apply elem_of_app. right. left.
  - rewrite !fmap_app, fmap_cons. simpl. rewrite Hk.
    rewrite without_split by done. by rewrite <- app_assoc.
  - apply Permutation_app_head. symmetry. apply Permutation_cons_append.
Qed.

Lemma Put_existing c k v now e :
  wf c → cache c !! k = Some e →
  lru_keys (Put c k v now) = without k (lru_keys c) ++ [k]
  ∧ Size (Put c k v now) = Size c
  ∧ cache (Put c k v now) = cache c
  ∧ timestamps (Put c k v now) = <[k := now]> (timestamps c).
Proof.
  intros Hwf Hc.
  destruct (wf_lookup _ _ _ Hwf Hc)
    as (l1 & x & l2 & El & He & Hk & Hn & Hr & H1 & H2 & Hk1 & Hk2).
  unfold Put. rewrite Hc. unfold Size, Len, lru_keys. simpl.
  rewrite (MoveToBack_split _ _ _ _ _ Hn Hr).
  rewrite set_value_back by done. rewrite El.
  split_and!; try done.
  - rewrite !fmap_app, fmap_cons. simpl. rewrite Hk.
    rewrite without_split by done. by rewrite <- app_assoc.
  - rewrite !length_app. simpl. lia.
Qed.

(** A new key: at capacity the front entry goes first, then the new
    entry is linked at the back. *)
Lemma Put_new c k v now :
  wf c → cache c !! k = None →
  lru_keys (Put c k v now)
  = (if Size c >=? maxSize c then tail (lru_keys c) else lru_keys c) ++ [k].
Proof.
  intros Hwf Hc. unfold Put. rewrite Hc. unfold Size.
  destruct (Len (lruList c) >=? maxSize c).
  2:{ unfold lru_keys, PushBack; simpl. rewrite fmap_app. reflexivity. }
  unfold lru_keys, PushBack, Front.
  pose proof (wf_nodes _ Hwf) as Hn.
  destruct (lruList c) as [|oldest rest] eqn:El; simpl; rewrite ?El;
    [reflexivity|].
  rewrite fmap_app. simpl. f_equal.
  rewrite fmap_cons in Hn. apply NoDup_cons in Hn as [Hn _].
  assert (is_node (eid oldest) oldest = true) as -> by by apply is_node_true.
  simpl. by rewrite Remove_absent.
Qed.

Lemma Put_lookup c k v now : is_Some (cache (Put c k v now) !! k).
Proof.
  unfold Put. destruct (cache c !! k) eqn:E; simpl; [by rewrite E|].
  rewrite lookup_insert_eq. eauto.
Qed.
End TTLCacheFacts.

Section TTLCacheRuns.
Context {V : Type}.
Implicit Types (c : TTLCache V) (op : Call V) (ops : list (Call V)).

Lemma Get_stamped c k e :
  wf c → cache c !! k = Some e → is_Some (timestamps c !! k).
Proof.
  intros Hwf Hc. apply elem_of_dom. rewrite (wf_stamps _ Hwf).
  apply elem_of_dom. eauto.
Qed.

Lemma maxSize_Get c k now : maxSize (Get c k now).1 = maxSize c.
Proof.
  unfold Get. destruct (cache c !! k); [|done].
  destruct (timestamps c !! k); [|done].
  destruct (_ >? _); [done|]. by destruct (node _ _).
Qed.

Lemma maxSize_Put c k v now : maxSize (Put c k v now) = maxSize c.
Proof.
  unfold Put. destruct (cache c !! k); [done|]. simpl.
  destruct (_ >=? _); [|done]. by destruct (Front _).
Qed.

Lemma ttl_Get c k now : ttl (Get c k now).1 = ttl c.
Proof.
  unfold Get. destruct (cache c !! k); [|done].
  destruct (timestamps c !! k); [|done].
  destruct (_ >? _); [done|]. by destruct (node _ _).
Qed.

Lemma ttl_Put c k v now : ttl (Put c k v now) = ttl c.
Proof.
  unfold Put. destruct (cache c !! k); [done|]. simpl.
  destruct (_ >=? _); [|done]. by destruct (Front _).
Qed.

Lemma Size_Get_le c k now : wf c → Size (Get c k now).1 ≤ Size c.
Proof.
  intros Hwf. destruct (cache c !! k) as [e|] eqn:Hc.
  - destruct (Get_stamped _ _ _ Hwf Hc) as [t Ht].
    destruct (Z_le_gt_dec (now - t) (ttl c)) as [Hage|Hage].
    + destruct (Get_hit c k now e t Hwf Hc Ht Hage)
        as (_ & _ & _ & Hp & _).
      unfold Size, Len. rewrite Hp. lia.
    + destruct (Get_expired c k now e t Hwf Hc Ht Hage)
        as (_ & _ & Hs & _). lia.
  - rewrite Get_miss by done. simpl. lia.
Qed.

Lemma Size_Put_new c k v now :
  wf c → cache c !! k = None →
  Size (Put c k v now)
  = if Size c >=? maxSize c then Z.max (Size c) 1 else Size c + 1.
Proof.
  intros Hwf Hc. rewrite !Size_lru_keys, Put_new by done.
  rewrite <- Size_lru_keys. destruct (Size c >=? maxSize c).
  - rewrite length_app. simpl. rewrite Size_lru_keys.
    destruct (lru_keys c); simpl; lia.
  - rewrite length_app. simpl. rewrite Size_lru_keys. lia.
Qed.

Lemma Size_Put_le c k v now :
  wf c → 1 ≤ maxSize c → Size c ≤ maxSize c →
  Size (Put c k v now) ≤ maxSize c.
Proof.
  intros Hwf H1 Hs. destruct (cache c !! k) as [e|] eqn:Hc.
  - destruct (Put_existing c k v now e Hwf Hc) as (_ & -> & _). done.
  - rewrite Size_Put_new by done.
    rewrite Z.geb_leb. destruct (Z.leb_spec (maxSize c) (Size c)); lia.
Qed.

Lemma wf_call c op : wf c → wf (call c op).
Proof. destruct op; simpl; [apply wf_Get|apply wf_Put]. Qed.

Lemma wf_calls c ops : wf c → wf (calls c ops).
Proof.
  unfold calls. revert c. induction ops as [|op ops IH]; intros c Hwf;
    simpl; [done|]. by apply IH, wf_call.
Qed.

Lemma maxSize_calls c ops : maxSize (calls c ops) = maxSize c.
Proof.
  unfold calls. revert c. induction ops as [|op ops IH]; intros c;
    simpl; [done|]. rewrite IH. destruct op; simpl.
  - apply maxSize_Get.
  - apply maxSize_Put.
Qed.

Lemma Size_calls_le c ops :
  wf c → 1 ≤ maxSize c → Size c ≤ maxSize c →
  Size (calls c ops) ≤ maxSize c.
Proof.
  unfold calls. revert c. induction ops as [|op ops IH]; intros c Hwf H1 Hs;
    simpl; [done|].
  assert (maxSize (call c op) = maxSize c) as Hm.
  { destruct op; simpl; [apply maxSize_Get|apply maxSize_Put]. }
  rewrite <- Hm. apply IH.
  - by apply wf_call.
  - by rewrite Hm.
  - rewrite Hm. destruct op; simpl.
    + pose proof (Size_Get_le c k now Hwf). lia.
    + by apply Size_Put_le.
Qed.

(** Distinct keys put one after the other into an empty cache: the cache
    holds the last [maxSize] of them, in the order of insertion. *)
Lemma calls_Put_snoc c ops k v now :
  calls c (ops ++ [CallPut k v now]) = Put (calls c ops) k v now.
Proof. unfold calls. by rewrite foldl_app. Qed.

Lemma elem_of_drop_inv {A} (x : A) n (l : list A) : x ∈ drop n l → x ∈ l.
Proof.
  intros H. rewrite <- (take_drop n l). apply elem_of_app. by right.
Qed.

Lemma tail_drop {A} n (l : list A) : tail (drop n l) = drop (S n) l.
Proof.
  revert l. induction n as [|n IH]; intros [|a l]; simpl; auto.
Qed.

Lemma lru_keys_distinct_puts N t (puts : list (string * V * Z)) :
  1 ≤ N → NoDup (puts.*1.*1) →
  lru_keys (calls (NewTTLCache N t) (put_call <$> puts))
  = drop (length puts - Z.to_nat N) (puts.*1.*1).
Proof.
  intros HN. induction puts as [|p puts IH] using rev_ind; intros Hnd.
  - done.
  - rewrite !fmap_app in Hnd. simpl in Hnd.
    apply NoDup_app in Hnd as (Hnd & Hfresh & _).
    specialize (IH Hnd).
    rewrite fmap_app. simpl. unfold put_call at 2.
    rewrite calls_Put_snoc.
    set (c := calls (NewTTLCache N t) (put_call <$> puts)) in *.
    assert (wf c) as Hwf by apply wf_calls, wf_New.
    assert (cache c !! p.1.1 = None) as Hc.
    { destruct (cache c !! p.1.1) eqn:E; [|done].
      assert (p.1.1 ∈ lru_keys c) as Hin
        by (apply wf_lookup_keys; eauto).
      rewrite IH in Hin. apply elem_of_drop_inv in Hin.
      exfalso. apply (Hfresh _ Hin). left. }
    rewrite Put_new by done.
    assert (maxSize c = N) as -> by apply maxSize_calls.
    rewrite Size_lru_keys, IH, length_drop, !length_fmap.
    rewrite !fmap_app, length_app. simpl.
    rewrite Z.geb_leb.
    match goal with |- context [N <=? ?s] =>
      destruct (Z.leb_spec N s) as [E|E] end.
    + assert (Z.to_nat N ≤ length puts)%nat as Hle by lia.
      rewrite tail_drop, drop_app_le by (rewrite !length_fmap; lia).
      do 2 f_equal. lia.
    + assert (length puts < Z.to_nat N)%nat as Hlt by lia.
      replace (length puts - Z.to_nat N)%nat with 0%nat by lia.
      replace (length puts + 1 - Z.to_nat N)%nat with 0%nat by lia.
      done.
Qed.
End TTLCacheRuns.

Section TTLCacheClaims.
Context {V : Type}.
Implicit Types (c : TTLCache V) (ops : list (Call V)).

Lemma ttl_calls c ops : ttl (calls c ops) = ttl c.
Proof.
  unfold calls. revert c. induction ops as [|op ops IH]; intros c;
    simpl; [done|]. rewrite IH. destruct op; simpl.
  - apply ttl_Get.
  - apply ttl_Put.
Qed.

Lemma wf_started N t ops : wf (calls (@NewTTLCache V N t) ops).
Proof. apply wf_calls, wf_New. Qed.

(** A [Get] that finds a value found a fresh entry. *)
Lemma Get_found c k now v :
  (Get c k now).2 = Some v →
  ∃ e t, cache c !! k = Some e ∧ timestamps c !! k = Some t
         ∧ now - t ≤ ttl c.
Proof.
  unfold Get. destruct (cache c !! k) as [e|]; [|done].
  destruct (timestamps c !! k) as [t|]; [|done].
  destruct (Z.gtb_spec (now - t) (ttl c)); [done|].
  intros _. exists e, t. split_and!; try done.
Qed.

Lemma elem_of_without k k' (ks : list string) :
  k ∈ without k' ks ↔ k ∈ ks ∧ k ≠ k'.
Proof. unfold without. rewrite list_elem_of_filter. tauto. Qed.

(** A call on one key leaves the entries of the other keys linked. *)
Lemma Get_other c k k' now :
  wf c → k ≠ k' → k ∈ lru_keys c → k ∈ lru_keys (Get c k' now).1.
Proof.
  intros Hwf Hne Hin. destruct (cache c !! k') as [e|] eqn:Hc.
  - destruct (Get_stamped _ _ _ Hwf Hc) as [t Ht].
    destruct (Z_le_gt_dec (now - t) (ttl c)) as [Hage|Hage].
    + destruct (Get_hit c k' now e t Hwf Hc Ht Hage)
        as (_ & _ & -> & _).
      apply elem_of_app. left. by apply elem_of_without.
    + destruct (Get_expired c k' now e t Hwf Hc Ht Hage)
        as (_ & -> & _). by apply elem_of_without.
  - by rewrite Get_miss.
Qed.
End TTLCacheClaims.

(** C2 (as amended: the capacity is at least 1).  For a cache created with
    capacity [N >= 1], after any sequence of [Get] and [Put] calls [Size]
    is at most [N]; a [Put] of a key that is not in the cache, made when the
    cache holds at least [N] entries, unlinks exactly the front entry (the
    least recently used one) and links the new one at the back, so the size
    stays the same; and after [N+1] [Put]s of pairwise distinct keys into the
    new cache [Size] is [N], the keys held are all but the first one put,
    and a [Get] of that first key finds nothing. *)
Theorem C2_size_never_exceeds_capacity {V : Type} (N t : Z) :
  1 ≤ N →
  (∀ ops : list (Call V), Size (calls (NewTTLCache N t) ops) ≤ N)
  ∧ (∀ (ops : list (Call V)) (k : string) (v : V) (now : Z),
       let c := calls (NewTTLCache N t) ops in
       cache c !! k = None → N ≤ Size c →
       Size (Put c k v now) = Size c
       ∧ lru_keys (Put c k v now) = tail (lru_keys c) ++ [k])
  ∧ (∀ puts : list (string * V * Z),
       NoDup (puts.*1.*1) → Z.of_nat (length puts) = N + 1 →
       let c := calls (NewTTLCache N t) (put_call <$> puts) in
       Size c = N
       ∧ lru_keys c = tail (puts.*1.*1)
       ∧ ∀ k0, head (puts.*1.*1) = Some k0 →
               (k0 ∉ lru_keys c) ∧ cache c !! k0 = None
               ∧ ∀ now, (Get c k0 now).2 = None).
Proof.
  intros HN. split_and!.
  - intros ops.
    pose proof (Size_calls_le (NewTTLCache N t) ops (wf_New N t)) as H.
    simpl in H. apply H; [done|].
    unfold Size, Len. simpl. lia.
  - intros ops k v now c Hc Hfull.
    assert (wf c) as Hwf by apply wf_started.
    assert (maxSize c = N) as Hm by apply maxSize_calls.
    assert (lru_keys (Put c k v now) = tail (lru_keys c) ++ [k]) as Hk.
    { rewrite Put_new by done. rewrite Hm, Z.geb_leb.
      by destruct (Z.leb_spec N (Size c)); [|lia]. }
    split; [|done].
    rewrite !Size_lru_keys, Hk, length_app. simpl.
    rewrite Size_lru_keys in Hfull. destruct (lru_keys c); simpl in *; lia.
  - intros puts Hnd Hlen c.
    assert (lru_keys c = tail (puts.*1.*1)) as Hk.
    { subst c. rewrite lru_keys_distinct_puts by done.
      replace (length puts - Z.to_nat N)%nat with 1%nat by lia.
      by destruct (puts.*1.*1). }
    assert (wf c) as Hwf by apply wf_started.
    split_and!; [|done|].
    + rewrite Size_lru_keys, Hk.
      assert (length (puts.*1.*1) = length puts) as Hl
        by by rewrite !length_fmap.
      destruct (puts.*1.*1); simpl in *; lia.
    + intros k0 Hk0.
      assert (k0 ∉ lru_keys c) as Hout.
      { rewrite Hk. destruct (puts.*1.*1) as [|k1 ks]; [done|].
        simpl in *. inversion Hk0; subst k1.
        by apply NoDup_cons in Hnd as [? _]. }
      assert (cache c !! k0 = None) as Hc.
      { destruct (cache c !! k0) eqn:E; [|done].
        exfalso. apply Hout. apply wf_lookup_keys; eauto. }
      split_and!; try done. intros now. by rewrite Get_miss.
Qed.

Lemma C2_size_never_exceeds_capacity_witness :
  1 ≤ 2
  ∧ Size (calls (NewTTLCache 2 CacheTTL)
            [CallPut "a" 1 0; CallPut "b" 2 1; CallPut "c" 3 2]) ≤ 2.
Proof.
  split; [lia|].
  apply (C2_size_never_exceeds_capacity (V:=Z) 2 CacheTTL); lia.
Defined.

(** C2 as stated fails for the capacity 0: the first [Put] into the new
    cache finds no front entry to unlink and links its entry all the same. *)
Lemma C2_capacity_zero_counterexample :
  ¬ (Size (calls (NewTTLCache 0 CacheTTL) [CallPut "a" 1 0]) ≤ 0).
Proof. vm_compute. intros H. by apply H. Qed.

(** C3.  In a cache reached by any calls, let [k] have an entry stamped
    [t] and let [now - t] exceed the TTL.  [Get k] at [now] reports
    not-found and unlinks the entry: [Size] drops by one and [k] is in no
    part of the cache any more.  Until that [Get] the entry is counted by
    [Size] and stays linked whatever the clock says: a [Get] of another key,
    at any instant, leaves it in the list. *)
Theorem C3_expiry_at_access {V : Type} (N ttl0 : Z) (ops : list (Call V))
    (k : string) (t now : Z) :
  let c := calls (NewTTLCache N ttl0) ops in
  timestamps c !! k = Some t →
  now - t > ttl0 →
  (Get c k now).2 = None
  ∧ Size (Get c k now).1 = Size c - 1
  ∧ (k ∉ lru_keys (Get c k now).1)
  ∧ cache (Get c k now).1 !! k = None
  ∧ timestamps (Get c k now).1 !! k = None
  ∧ (k ∈ lru_keys c)
  ∧ (∀ k' now', k' ≠ k →
       (k ∈ lru_keys (Get c k' now').1)
       ∧ timestamps (Get c k' now').1 !! k = Some t)
  ∧ (∀ k' v now', k' ≠ k → Size c < N →
       (k ∈ lru_keys (Put c k' v now'))
       ∧ timestamps (Put c k' v now') !! k = Some t).
Proof.
  intros c Ht Hage.
  assert (wf c) as Hwf by apply wf_started.
  assert (ttl c = ttl0) as Httl by apply ttl_calls.
  assert (is_Some (cache c !! k)) as [e Hc].
  { apply elem_of_dom. rewrite <- (wf_stamps _ Hwf). apply elem_of_dom. eauto. }
  rewrite <- Httl in Hage.
  destruct (Get_expired c k now e t Hwf Hc Ht Hage) as (Hr & Hk & Hs & Hc' & Ht').
  assert (k ∈ lru_keys c) as Hin by (apply wf_lookup_keys; eauto).
  split_and!; try done.
  - rewrite Hk. rewrite elem_of_without. tauto.
  - intros k' now' Hne. split; [by apply Get_other|].
    unfold Get. destruct (cache c !! k') as [e'|]; [|done].
    destruct (timestamps c !! k') as [t'|]; simpl.
    + destruct (_ >? _); simpl; [by rewrite lookup_delete_ne|].
      by destruct (node _ _).
    + by rewrite lookup_delete_ne.
  - intros k' v now' Hne Hroom.
    assert (maxSize c = N) as Hm by apply maxSize_calls.
    destruct (cache c !! k') as [e'|] eqn:Hck.
    + destruct (Put_existing c k' v now' e' Hwf Hck) as (-> & _ & _ & ->).
      split; [|by rewrite lookup_insert_ne].
      apply elem_of_app. left. by apply elem_of_without.
    + split.
      * rewrite Put_new by done. rewrite Hm, Z.geb_leb.
        destruct (Z.leb_spec N (Size c)); [lia|].
        apply elem_of_app. by left.
      * unfold Put. rewrite Hck, Hm. simpl. rewrite Z.geb_leb.
        destruct (Z.leb_spec N (Len (lruList c))); [unfold Size in *; lia|].
        simpl. by rewrite lookup_insert_ne.
Qed.

Lemma C3_expiry_at_access_witness :
  let c := calls (NewTTLCache 2 CacheTTL) [CallPut "a" 1 0; CallPut "b" 2 5] in
  timestamps c !! "a" = Some 0
  ∧ CacheTTL + 1 - 0 > CacheTTL
  ∧ (Get c "a" (CacheTTL + 1)).2 = None
  ∧ Size (Get c "a" (CacheTTL + 1)).1 = Size c - 1.
Proof.
  intros c.
  assert (timestamps c !! "a" = Some 0) as Ht by (vm_compute; reflexivity).
  assert (CacheTTL + 1 - 0 > CacheTTL) as Hage by (vm_compute; reflexivity).
  split; [exact Ht|]. split; [exact Hage|].
  pose proof (C3_expiry_at_access 2 CacheTTL
                [CallPut "a" 1 0; CallPut "b" 2 5] "a" 0 (CacheTTL + 1)
                Ht Hage) as H.
  split; [exact (proj1 H)|exact (proj1 (proj2 H))].
Defined.

Lemma lookup_absent {V : Type} (c : TTLCache V) (k : string) :
  wf c → k ∉ lru_keys c → cache c !! k = None.
Proof.
  intros Hwf Hk. destruct (cache c !! k) eqn:E; [|done].
  exfalso. apply Hk. apply wf_lookup_keys; eauto.
Qed.


(** * Properties of the interpolation *)

Lemma append_cons (a : ascii) (s1 s2 : string) :
  String a s1 +:+ s2 = String a (s1 +:+ s2).
Proof. reflexivity. Qed.

Lemma append_nil_l (s : string) : "" +:+ s = s.
Proof. reflexivity. Qed.

(** [String.append] is not unfolded by [simpl]. *)
Ltac ssimpl := repeat (rewrite ?append_cons, ?append_nil_l; simpl).
Tactic Notation "ssimpl" "in" hyp(H) :=
  repeat (rewrite ?append_cons, ?append_nil_l in H; simpl in H).
Tactic Notation "ssimpl" "in" "*" :=
  repeat (rewrite ?append_cons, ?append_nil_l in *; simpl in * ).

#[local] Arguments Ascii.eqb : simpl never.

Section StringFacts.
Implicit Types (s p k : string) (a : ascii).

Lemma append_assoc s1 s2 s3 : (s1 +:+ s2) +:+ s3 = s1 +:+ s2 +:+ s3.
Proof. induction s1 as [|a s1 IH]; ssimpl; [done|]. f_equal. exact IH. Qed.

Lemma append_nil_r s : s +:+ "" = s.
Proof. induction s as [|a s IH]; ssimpl; [done|]. f_equal. exact IH. Qed.

Lemma length_append s1 s2 :
  String.length (s1 +:+ s2) = (String.length s1 + String.length s2)%nat.
Proof. induction s1 as [|a s1 IH]; ssimpl; [done|]. f_equal. exact IH. Qed.

Lemma substring_prefix s1 s2 :
  String.substring 0 (String.length s1) (s1 +:+ s2) = s1.
Proof.
  induction s1 as [|a s1 IH]; ssimpl; [by destruct s2|]. by rewrite IH.
Qed.

Lemma substring_middle p k s :
  String.substring (String.length p) (String.length k) (p +:+ k +:+ s) = k.
Proof.
  induction p as [|a p IH]; ssimpl; [apply substring_prefix|done].
Qed.

Lemma all_chars_append f s1 s2 :
  all_chars f (s1 +:+ s2) = all_chars f s1 && all_chars f s2.
Proof.
  induction s1 as [|a s1 IH]; ssimpl; [done|].
  by rewrite IH, andb_assoc.
Qed.
End StringFacts.

Section PatternFacts.
Implicit Types (s pre post key : string) (a : ascii).

Lemma brace_not_key_char a : is_brace a = true → is_key_char a = false.
Proof.
  unfold is_brace. intros H. apply orb_true_iff in H as [H|H];
    apply Ascii.eqb_eq in H; by subst a.
Qed.

(** The class run of a key name, followed by the closing brace. *)
Lemma class_run_key key post :
  all_chars is_key_char key = true →
  class_run_then_brace (key +:+ String "}" post) = Some (String.length key).
Proof.
  induction key as [|a key IH]; ssimpl; [done|].
  intros H. apply andb_true_iff in H as [Ha Hk].
  by rewrite Ha, IH.
Qed.

(** A character outside the class, other than a brace, ends the attempt. *)
Lemma class_run_not_key key rest :
  brace_free key = true → all_chars is_key_char key = false →
  class_run_then_brace (key +:+ rest) = None.
Proof.
  unfold brace_free. induction key as [|a key IH]; ssimpl; [done|].
  intros Hb Hk. apply andb_true_iff in Hb as [Ha Hb].
  destruct (is_key_char a) eqn:E; ssimpl in Hk.
  - by rewrite IH.
  - unfold is_brace in Ha. apply negb_true_iff, orb_false_iff in Ha as [_ Ha].
    by rewrite Ha.
Qed.

(** An opening brace further on is outside of every attempt. *)
Lemma class_run_open s rest :
  class_run_then_brace (s +:+ String "{" rest) = class_run_then_brace s.
Proof.
  induction s as [|a s IH]; ssimpl; [done|]. by rewrite IH.
Qed.

Lemma strip_prefix_open p s rest :
  all_chars (fun a => negb (Ascii.eqb a "{")) p = true →
  strip_prefix p (s +:+ String "{" rest)
  = (fun r => r +:+ String "{" rest) <$> strip_prefix p s.
Proof.
  revert s. induction p as [|b p IH]; intros s Hp; ssimpl; [done|].
  ssimpl in Hp. apply andb_true_iff in Hp as [Hb Hp].
  destruct s as [|a s]; ssimpl.
  - apply negb_true_iff in Hb. by rewrite Hb.
  - destruct (Ascii.eqb b a); [by apply IH|done].
Qed.

Lemma strip_prefix_cons b p a s :
  strip_prefix (String b p) (String a s)
  = if Ascii.eqb b a then strip_prefix p s else None.
Proof. reflexivity. Qed.

Lemma fmap_Some_eq {A B} (f : A → B) (x : A) : f <$> Some x = Some (f x).
Proof. reflexivity. Qed.

Lemma strip_prefix_length p s r :
  strip_prefix p s = Some r →
  String.length s = (String.length p + String.length r)%nat.
Proof.
  revert s. induction p as [|b p IH]; intros s; ssimpl.
  - by intros [= ->].
  - destruct s as [|a s]; [done|]. ssimpl.
    destruct (Ascii.eqb b a); [|done]. intros H. by rewrite (IH _ H).
Qed.

Lemma class_run_length s n :
  class_run_then_brace s = Some n → (n < String.length s)%nat.
Proof.
  revert n. induction s as [|a s IH]; intros n; ssimpl; [done|].
  destruct (is_key_char a).
  - destruct (class_run_then_brace s) as [m|]; [|done].
    intros [= <-]. specialize (IH m eq_refl). lia.
  - destruct (Ascii.eqb a "}"); [|done]. intros [= <-]. lia.
Qed.

Lemma strip_prefix_Some p s r : strip_prefix p s = Some r → s = p +:+ r.
Proof.
  revert s. induction p as [|b p IH]; intros s; simpl.
  - by intros [= ->].
  - destruct s as [|a s]; [done|].
    destruct (Ascii.eqb b a) eqn:E; [|done].
    apply Ascii.eqb_eq in E as ->. intros H. by rewrite (IH _ H).
Qed.

(** What the tail of the expression matches: class characters, then the
    closing brace. *)
Lemma class_run_Some s n :
  class_run_then_brace s = Some n →
  ∃ key rest, s = key +:+ String "}" rest
              ∧ all_chars is_key_char key = true
              ∧ String.length key = n.
Proof.
  revert n. induction s as [|a s IH]; intros n; simpl; [done|].
  destruct (is_key_char a) eqn:Ha.
  - destruct (class_run_then_brace s) as [m|]; [|done].
    intros [= <-]. destruct (IH m eq_refl) as (key & rest & -> & Hk & <-).
    exists (String a key), rest. simpl. by rewrite Ha, Hk.
  - destruct (Ascii.eqb a "}") eqn:E; [|done].
    apply Ascii.eqb_eq in E as ->. intros [= <-]. by exists "", s.
Qed.

(** A match lies within the text it is found in. *)
Lemma l10nPattern_length s len :
  l10nPattern s = Some len → (1 ≤ len ≤ String.length s)%nat.
Proof.
  unfold l10nPattern. destruct (strip_prefix _ s) as [s1|] eqn:E; [|done].
  destruct (class_run_then_brace s1) as [[|n]|] eqn:E'; try done.
  intros [= <-]. apply strip_prefix_length in E. apply class_run_length in E'.
  ssimpl in E. lia.
Qed.

(** The pattern at the start of a text does not see an opening brace that
    comes after that start. *)
Lemma l10nPattern_open a s rest :
  l10nPattern (String a s +:+ String "{" rest) = l10nPattern (String a s).
Proof.
  unfold l10nPattern. rewrite append_cons.
  change "{l10n." with (String "{" "l10n."). rewrite !strip_prefix_cons.
  destruct (Ascii.eqb "{" a); [|done].
  rewrite strip_prefix_open by done.
  destruct (strip_prefix _ s) as [s1|]; [|done].
  rewrite fmap_Some_eq. by rewrite class_run_open.
Qed.

Lemma substring_0_append len s1 s2 :
  (len ≤ String.length s1)%nat →
  String.substring 0 len (s1 +:+ s2) = String.substring 0 len s1.
Proof.
  revert len. induction s1 as [|a s1 IH]; intros len Hlen; ssimpl in *.
  - assert (len = 0%nat) as -> by lia. by destruct s2.
  - destruct len as [|len]; [done|]. rewrite IH; [done|lia].
Qed.
End PatternFacts.

Section ReplaceFacts.
Context (repl : string → string).
Implicit Types (s pre post key : string) (a : ascii).
#[local] Abbreviation from := (ReplaceAllStringFunc_from repl).

(** Passing over the rest of a match. *)
Lemma from_skip s1 s2 : from (String.length s1) (s1 +:+ s2) = from 0 s2.
Proof.
  induction s1 as [|a s1 IH]; ssimpl; [|done].
  destruct s2; done.
Qed.

(** Text before an opening brace is processed on its own. *)
Lemma from_open pre rest skip :
  (skip ≤ String.length pre)%nat →
  from skip (pre +:+ String "{" rest)
  = from skip pre +:+ from 0 (String "{" rest).
Proof.
  revert skip. induction pre as [|a pre IH]; intros skip Hskip.
  - ssimpl in Hskip. assert (skip = 0%nat) as -> by lia. done.
  - destruct skip as [|n].
    + change (from 0 (String a pre +:+ String "{" rest)) with
        (match l10nPattern (String a pre +:+ String "{" rest) with
         | Some len =>
             repl (String.substring 0 len (String a pre +:+ String "{" rest))
             +:+ from (len - 1) (pre +:+ String "{" rest)
         | None => String a (from 0 (pre +:+ String "{" rest))
         end).
      rewrite l10nPattern_open.
      change (from 0 (String a pre)) with
        (match l10nPattern (String a pre) with
         | Some len =>
             repl (String.substring 0 len (String a pre))
             +:+ from (len - 1) pre
         | None => String a (from 0 pre)
         end).
      destruct (l10nPattern (String a pre)) as [len|] eqn:E.
      * apply l10nPattern_length in E. ssimpl in E.
        rewrite substring_0_append by (ssimpl; lia).
        rewrite IH by lia. by rewrite append_assoc.
      * ssimpl. by rewrite IH by lia.
    + ssimpl in *. apply IH. lia.
Qed.

(** Text without an opening brace is copied. *)
Lemma from_plain s rest :
  all_chars (fun a => negb (Ascii.eqb a "{")) s = true →
  from 0 (s +:+ rest) = s +:+ from 0 rest.
Proof.
  induction s as [|a s IH]; intros Hs; [done|].
  ssimpl in Hs. apply andb_true_iff in Hs as [Ha Hs].
  change (from 0 (String a s +:+ rest)) with
    (match l10nPattern (String a (s +:+ rest)) with
     | Some len =>
         repl (String.substring 0 len (String a (s +:+ rest)))
         +:+ from (len - 1) (s +:+ rest)
     | None => String a (from 0 (s +:+ rest))
     end).
  assert (l10nPattern (String a (s +:+ rest)) = None) as ->.
  { unfold l10nPattern. ssimpl. apply negb_true_iff in Ha.
    rewrite Ascii.eqb_sym in Ha. by rewrite Ha. }
  ssimpl. by rewrite IH.
Qed.
End ReplaceFacts.


Section InterpolateFacts.
Context (localizedData : gmap string string).
Implicit Types (s pre post key : string) (a : ascii).

(** The function handed to [ReplaceAllStringFunc]. *)
#[local] Abbreviation repl := (fun match_ : string =>
    let key := String.substring 6 (String.length match_ - 1 - 6) match_ in
    match localizedData !! key with
    | Some value => dquote +:+ value +:+ dquote
    | None => match_
    end).

Lemma marker_append key post :
  marker key +:+ post = String "{" ("l10n." +:+ key +:+ String "}" post).
Proof. unfold marker. by rewrite !append_assoc. Qed.

Lemma length_marker key :
  String.length (marker key) = (6 + String.length key + 1)%nat.
Proof. unfold marker. rewrite !length_append. simpl. lia. Qed.

Lemma key_of_marker key :
  String.substring 6 (String.length (marker key) - 1 - 6) (marker key) = key.
Proof.
  rewrite length_marker.
  replace (6 + String.length key + 1 - 1 - 6)%nat with (String.length key)
    by lia.
  apply (substring_middle "{l10n." key "}").
Qed.

Lemma key_name_inv key :
  key_name key = true →
  all_chars is_key_char key = true ∧ ∃ n, String.length key = S n.
Proof.
  unfold key_name. intros H. apply andb_true_iff in H as [Hne Hall].
  split; [done|]. destruct key; [done|]. simpl. eauto.
Qed.

Lemma l10nPattern_marker key post :
  key_name key = true →
  l10nPattern (marker key +:+ post) = Some (String.length (marker key)).
Proof.
  intros H. apply key_name_inv in H as [Hall [n Hn]].
  rewrite marker_append, length_marker. unfold l10nPattern.
  change (strip_prefix "{l10n." (String "{" ("l10n." +:+ key +:+ String "}" post)))
    with (Some (key +:+ String "}" post)).
  cbv beta iota. rewrite class_run_key by done. by rewrite Hn.
Qed.

Lemma l10nPattern_not_marker key post :
  brace_free key = true → key_name key = false →
  l10nPattern (marker key +:+ post) = None.
Proof.
  intros Hb Hk. rewrite marker_append. unfold l10nPattern.
  change (strip_prefix "{l10n." (String "{" ("l10n." +:+ key +:+ String "}" post)))
    with (Some (key +:+ String "}" post)).
  cbv beta iota. destruct (all_chars is_key_char key) eqn:Hall.
  - unfold key_name in Hk. rewrite Hall, andb_true_r in Hk.
    apply negb_false_iff, String.eqb_eq in Hk. by subst key.
  - by rewrite class_run_not_key.
Qed.

(** Whatever the pattern matches is a marker with a key name. *)
Lemma l10nPattern_Some s len :
  l10nPattern s = Some len →
  ∃ key rest, s = marker key +:+ rest ∧ key_name key = true
              ∧ len = String.length (marker key).
Proof.
  unfold l10nPattern. destruct (strip_prefix _ s) as [s1|] eqn:E; [|done].
  destruct (class_run_then_brace s1) as [[|n]|] eqn:E'; try done.
  intros [= <-]. apply strip_prefix_Some in E as ->.
  apply class_run_Some in E' as (key & rest & -> & Hk & Hlen).
  exists key, rest. rewrite marker_append, length_marker, Hlen.
  split_and!; try done.
  unfold key_name. rewrite Hk. by destruct key.
Qed.

(** A marker with a key name is replaced by what the function returns
      for it, and the scan goes on behind it. *)
Lemma from_marker key post :
  key_name key = true →
  ReplaceAllStringFunc_from repl 0 (marker key +:+ post)
  = repl (marker key) +:+ ReplaceAllStringFunc_from repl 0 post.
Proof.
  intros Hk. pose proof (l10nPattern_marker key post Hk) as Hm.
  rewrite marker_append in *.
  change (ReplaceAllStringFunc_from repl 0
            (String "{" ("l10n." +:+ key +:+ String "}" post)))
    with (match l10nPattern (String "{" ("l10n." +:+ key +:+ String "}" post)) with
          | Some len =>
              repl (String.substring 0 len
                      (String "{" ("l10n." +:+ key +:+ String "}" post)))
              +:+ ReplaceAllStringFunc_from repl (len - 1)
                    ("l10n." +:+ key +:+ String "}" post)
          | None =>
              String "{" (ReplaceAllStringFunc_from repl 0
                            ("l10n." +:+ key +:+ String "}" post))
          end).
  rewrite Hm. rewrite <- marker_append, substring_prefix. f_equal.
  rewrite length_marker.
  replace (6 + String.length key + 1 - 1)%nat
    with (String.length ("l10n." +:+ key +:+ "}"))
    by (rewrite !length_append; simpl; lia).
  rewrite <- (from_skip repl ("l10n." +:+ key +:+ "}") post).
  by rewrite !append_assoc.
Qed.

(** A marker whose key is not a key name is copied. *)
Lemma from_not_marker key post :
  brace_free key = true → key_name key = false →
  ReplaceAllStringFunc_from repl 0 (marker key +:+ post)
  = marker key +:+ ReplaceAllStringFunc_from repl 0 post.
Proof.
  intros Hb Hk. pose proof (l10nPattern_not_marker key post Hb Hk) as Hm.
  rewrite marker_append in *.
  change (ReplaceAllStringFunc_from repl 0
            (String "{" ("l10n." +:+ key +:+ String "}" post)))
    with (match l10nPattern (String "{" ("l10n." +:+ key +:+ String "}" post)) with
          | Some len =>
              repl (String.substring 0 len
                      (String "{" ("l10n." +:+ key +:+ String "}" post)))
              +:+ ReplaceAllStringFunc_from repl (len - 1)
                    ("l10n." +:+ key +:+ String "}" post)
          | None =>
              String "{" (ReplaceAllStringFunc_from repl 0
                            ("l10n." +:+ key +:+ String "}" post))
          end).
  rewrite Hm, (marker_append key (ReplaceAllStringFunc_from repl 0 post)).
  f_equal.
  assert ("l10n." +:+ key +:+ String "}" post = ("l10n." +:+ key +:+ "}") +:+ post)
    as -> by by rewrite !append_assoc.
  rewrite from_plain; [by rewrite !append_assoc|].
  rewrite !all_chars_append. unfold brace_free in Hb.
  apply andb_true_iff. split; [done|]. apply andb_true_iff. split; [|done].
  clear -Hb. induction key as [|a key IH]; [done|]. simpl in *.
  apply andb_true_iff in Hb as [Ha Hb]. rewrite IH by done.
  unfold is_brace in Ha. apply negb_true_iff, orb_false_iff in Ha as [-> _].
  done.
Qed.
End InterpolateFacts.

(** C10.  In any template, a marker [{l10n.key}] whose key is a key name
    (one or more ASCII letters or underscores) and is present in the map is
    replaced by the localized value between two double-quote characters,
    the character of code 34 written ["034"] here: the replacement is two
    characters longer than the value (when the key is not in the map the
    marker is kept); a marker whose key is not a key name (it is empty, or
    holds a digit or any other character that is not a letter or an
    underscore) is copied to the output as it is, whether the map has that
    key or not.  The text before and the text after the marker are
    interpolated on their own.  Whatever the pattern matches is a marker
    whose key is a key name. *)
Theorem C10_interpolation_markers (localizedData : gmap string string)
    (pre key post : string) :
  (key_name key = true →
   interpolateTemplate (pre +:+ marker key +:+ post) localizedData
   = interpolateTemplate pre localizedData
     +:+ match localizedData !! key with
         | Some value => String "034" (value +:+ String "034" EmptyString)
         | None => marker key
         end
     +:+ interpolateTemplate post localizedData)
  ∧ (brace_free key = true → key_name key = false →
     interpolateTemplate (pre +:+ marker key +:+ post) localizedData
     = interpolateTemplate pre localizedData
       +:+ marker key
       +:+ interpolateTemplate post localizedData)
  ∧ (∀ s len, l10nPattern s = Some len →
       ∃ key' rest, s = marker key' +:+ rest ∧ key_name key' = true
                    ∧ len = String.length (marker key'))
  ∧ (∀ value, localizedData !! key = Some value → key_name key = true →
       interpolateTemplate (marker key) localizedData
       = String "034" (value +:+ String "034" EmptyString)
       ∧ String.length (interpolateTemplate (marker key) localizedData)
         = (String.length value + 2)%nat
       ∧ interpolateTemplate (marker key) localizedData ≠ value).
Proof.
  assert (∀ value, dquote +:+ value +:+ dquote
                   = String "034" (value +:+ String "034" EmptyString)) as Hq.
  { intros value. unfold dquote. by rewrite append_cons, append_nil_l. }
  assert (key_name key = true →
          interpolateTemplate (pre +:+ marker key +:+ post) localizedData
          = interpolateTemplate pre localizedData
            +:+ match localizedData !! key with
                | Some value =>
                    String "034" (value +:+ String "034" EmptyString)
                | None => marker key
                end
            +:+ interpolateTemplate post localizedData) as Hfirst.
  { unfold interpolateTemplate, ReplaceAllStringFunc.
    assert (pre +:+ marker key +:+ post
            = pre +:+ String "{" ("l10n." +:+ key +:+ String "}" post)) as E
      by by rewrite marker_append.
    intros Hk. rewrite E, from_open by lia. rewrite <- marker_append.
    rewrite from_marker by done. cbv beta zeta. rewrite key_of_marker.
    destruct (localizedData !! key); [by rewrite Hq|done]. }
  split; [exact Hfirst|]. split; [|split].
  - unfold interpolateTemplate, ReplaceAllStringFunc.
    assert (pre +:+ marker key +:+ post
            = pre +:+ String "{" ("l10n." +:+ key +:+ String "}" post)) as E
      by by rewrite marker_append.
    intros Hb Hk. rewrite E, from_open by lia. rewrite <- marker_append.
    by rewrite from_not_marker.
  - apply l10nPattern_Some.
  - intros value Hv Hk.
    assert (interpolateTemplate (marker key) localizedData
            = String "034" (value +:+ String "034" EmptyString)) as E.
    { clear Hfirst. unfold interpolateTemplate, ReplaceAllStringFunc.
      rewrite <- (append_nil_r (marker key)), from_marker by done.
      cbv beta zeta. rewrite key_of_marker, Hv, Hq. simpl.
      by rewrite append_nil_r. }
    rewrite E. split; [done|]. split.
    + simpl. rewrite length_append. simpl. lia.
    + intros Heq. apply (f_equal String.length) in Heq. simpl in Heq.
      rewrite length_append in Heq. simpl in Heq. lia.
Qed.

Lemma C10_interpolation_markers_witness :
  let data : gmap string string := <["k1" := "W"]> (<["title" := "Hello"]> ∅) in
  (key_name "title" = true
   ∧ interpolateTemplate ("<h1>" +:+ marker "title" +:+ "</h1>") data
     = "<h1>" +:+ String "034" ("Hello" +:+ String "034" "</h1>"))
  ∧ (brace_free "k1" = true ∧ key_name "k1" = false
     ∧ data !! "k1" = Some "W"
     ∧ interpolateTemplate ("<p>" +:+ marker "k1" +:+ "</p>") data
       = "<p>{l10n.k1}</p>").
Proof.
  intros data. split.
  - split; [reflexivity|].
    rewrite (proj1 (C10_interpolation_markers data "<h1>" "title" "</h1>")
               eq_refl).
    vm_compute. reflexivity.
  - split; [reflexivity|]. split; [reflexivity|].
    split; [vm_compute; reflexivity|].
    rewrite (proj1 (proj2 (C10_interpolation_markers data "<p>" "k1" "</p>"))
               eq_refl eq_refl).
    vm_compute. reflexivity.
Defined.

Example interpolate_digit_key :
  interpolateTemplate "<p>{l10n.k1} {l10n.title}</p>"
    (<["k1" := "W"]> (<["title" := "Hello"]> ∅))
  = "<p>{l10n.k1} " +:+ String "034" ("Hello" +:+ String "034" "</p>").
Proof. vm_compute. reflexivity. Qed.

(** * Properties of the generator *)

Lemma Sprintf_d_inj (n n' : Z) : Sprintf_d n = Sprintf_d n' → n = n'.
Proof.
  unfold Sprintf_d. intros H. apply DecimalZ.to_int_inj.
  assert (∀ z, NilZero.int_of_string (NilZero.string_of_int (Z.to_int z))
               = Some (Z.to_int z)) as Hisi.
  { intros z. apply NilZero.isi; destruct z; simpl; try discriminate;
      intros [= E]; by apply DecimalPos.Unsigned.to_uint_nonnil in E. }
  pose proof (Hisi n) as Hn. rewrite H, Hisi in Hn. by injection Hn.
Qed.

Section GeneratorFacts.
Context (componentTemplates : gmap string ComponentTemplate.t).
Context (localizationDB : gmap string (gmap string string)).
#[local] Abbreviation generate :=
  (getLocalizedComponent componentTemplates localizationDB).

Lemma componentStrings_of_step (strings m : gmap string string) key :
  match strings !! key with
  | Some value => <[key := value]> m
  | None => <[key := "[" +:+ key +:+ "]"]> m
  end
  = <[key := default ("[" +:+ key +:+ "]") (strings !! key)]> m.
Proof. by destruct (strings !! key). Qed.

Lemma componentStrings_of_lookup strings requiredKeys key :
  componentStrings_of strings requiredKeys !! key
  = if decide (key ∈ requiredKeys)
    then Some (default ("[" +:+ key +:+ "]") (strings !! key))
    else None.
Proof.
  unfold componentStrings_of.
  assert (∀ acc : gmap string string,
    foldl (fun componentStrings key =>
             match strings !! key with
             | Some value => <[key := value]> componentStrings
             | None => <[key := "[" +:+ key +:+ "]"]> componentStrings
             end) acc requiredKeys !! key
    = if decide (key ∈ requiredKeys)
      then Some (default ("[" +:+ key +:+ "]") (strings !! key))
      else acc !! key) as H.
  { induction requiredKeys as [|k ks IH]; intros acc; cbn [foldl].
    - by rewrite decide_False by apply not_elem_of_nil.
    - rewrite IH, componentStrings_of_step.
      destruct (decide (key ∈ ks)) as [Hin|Hout].
      + rewrite decide_True; [done|by right].
      + destruct (decide (key = k)) as [->|Hne].
        * rewrite lookup_insert_eq. rewrite decide_True; [done|left].
        * rewrite lookup_insert_ne by done.
          rewrite decide_False; [done|].
          rewrite elem_of_cons. tauto. }
  rewrite H. by destruct (decide _).
Qed.

(** What the generator returns for a registered component. *)
Lemma generate_registered componentType lang now_id now_stamp template :
  componentTemplates !! componentType = Some template →
  ∃ component,
    generate componentType lang now_id now_stamp = Ok component
    ∧ LocalizedComponent.ComponentName component
      = ComponentTemplate.ComponentName template
    ∧ LocalizedComponent.ComponentType component
      = ComponentTemplate.ComponentType template
    ∧ LocalizedComponent.Language component
      = cacheKey_lang localizationDB lang
    ∧ LocalizedComponent.LocalizedData component
      = componentStrings_of (strings_for localizationDB lang)
          (ComponentTemplate.RequiredKeys template)
    ∧ LocalizedComponent.Template component
      = interpolateTemplate (ComponentTemplate.Template template)
          (LocalizedComponent.LocalizedData component)
    ∧ ComponentMetadata.ComponentID (LocalizedComponent.Metadata component)
      = componentType +:+ "_" +:+ cacheKey_lang localizationDB lang +:+ "_"
        +:+ Sprintf_d (Z.rem (UnixMilli now_id) 10000)
    ∧ ComponentMetadata.LastUpdated (LocalizedComponent.Metadata component)
      = RFC3339 now_stamp
    ∧ ComponentMetadata.RequiredKeys (LocalizedComponent.Metadata component)
      = ComponentTemplate.RequiredKeys template
    ∧ LocalizedComponent.Cached component = false.
Proof.
  intros Ht. unfold getLocalizedComponent, cacheKey_lang, strings_for.
  rewrite Ht. destruct (localizationDB !! lang); eexists; split_and!; done.
Qed.

Lemma generate_unregistered componentType lang now_id now_stamp :
  componentTemplates !! componentType = None →
  generate componentType lang now_id now_stamp
  = Error ("component type '" +:+ componentType +:+ "' not found").
Proof. intros Ht. unfold getLocalizedComponent. by rewrite Ht. Qed.
End GeneratorFacts.

(** C7.  For any registries, a component type with a registered template
    and any requested language: the generation succeeds, and in the
    [LocalizedData] of the artifact every required key that the table of
    the resolved language lacks is mapped to the bracketed key [[key]],
    every required key the table has is mapped to its localized string, and
    no other key is present. *)
Theorem C7_missing_key_placeholder
    (componentTemplates : gmap string ComponentTemplate.t)
    (localizationDB : gmap string (gmap string string))
    (componentType lang : string) (now_id now_stamp : Z)
    (template : ComponentTemplate.t) :
  componentTemplates !! componentType = Some template →
  ∃ component,
    getLocalizedComponent componentTemplates localizationDB
      componentType lang now_id now_stamp = Ok component
    ∧ (∀ key, key ∈ ComponentTemplate.RequiredKeys template →
         strings_for localizationDB lang !! key = None →
         LocalizedComponent.LocalizedData component !! key
         = Some ("[" +:+ key +:+ "]"))
    ∧ (∀ key value, key ∈ ComponentTemplate.RequiredKeys template →
         strings_for localizationDB lang !! key = Some value →
         LocalizedComponent.LocalizedData component !! key = Some value)
    ∧ (∀ key, key ∉ ComponentTemplate.RequiredKeys template →
         LocalizedComponent.LocalizedData component !! key = None).
Proof.
  intros Ht.
  destruct (generate_registered componentTemplates localizationDB
              componentType lang now_id now_stamp template Ht)
    as (component & Hgen & _ & _ & _ & Hdata & _).
  exists component. split; [done|]. rewrite Hdata.
  split_and!.
  - intros key Hin Hmiss. rewrite componentStrings_of_lookup.
    rewrite decide_True by done. by rewrite Hmiss.
  - intros key value Hin Hval. rewrite componentStrings_of_lookup.
    rewrite decide_True by done. by rewrite Hval.
  - intros key Hout. rewrite componentStrings_of_lookup.
    by rewrite decide_False.
Qed.

Lemma C7_missing_key_placeholder_witness :
  let db : gmap string (gmap string string) :=
    <["it" := {["welcome_title" := "Benvenuti"]}]> localizationDB in
  let template :=
    ComponentTemplate.Make "WelcomeComponent" "functional" welcome_template
      ["welcome_title"; "welcome_subtitle"; "login_button"; "signup_button"] in
  componentTemplates !! "welcome" = Some template
  ∧ ∃ component,
      getLocalizedComponent componentTemplates db "welcome" "it" 0 0
      = Ok component
      ∧ LocalizedComponent.LocalizedData component !! "login_button"
        = Some "[login_button]"
      ∧ LocalizedComponent.LocalizedData component !! "welcome_title"
        = Some "Benvenuti".
Proof.
  intros db template.
  assert (componentTemplates !! "welcome" = Some template) as Ht
    by (vm_compute; reflexivity).
  split; [exact Ht|].
  destruct (C7_missing_key_placeholder componentTemplates db
              "welcome" "it" 0 0 template Ht)
    as (component & Hgen & Hmiss & Hhave & _).
  exists component. split; [exact Hgen|]. split.
  - apply (Hmiss "login_button").
    + apply (bool_decide_unpack (_ ∈ _)). vm_compute. exact I.
    + vm_compute. reflexivity.
  - apply (Hhave "welcome_title" "Benvenuti").
    + apply (bool_decide_unpack (_ ∈ _)). vm_compute. exact I.
    + vm_compute. reflexivity.
Defined.

(** C4 (as amended: the identifiers differ exactly when the millisecond
    clock differs modulo 10000).  Two generations of the same component
    type and requested language, at any two instants, give artifacts with
    the same name, kind, language, rendered template, localized values and
    required keys; their [component_id]s are distinct if and only if the two
    readings of the clock, in Unix milliseconds, have different remainders
    modulo 10000. *)
Theorem C4_generations_differ_by_clock
    (componentTemplates : gmap string ComponentTemplate.t)
    (localizationDB : gmap string (gmap string string))
    (componentType lang : string) (t1 s1 t2 s2 : Z)
    (c1 c2 : LocalizedComponent.t) :
  getLocalizedComponent componentTemplates localizationDB
    componentType lang t1 s1 = Ok c1 →
  getLocalizedComponent componentTemplates localizationDB
    componentType lang t2 s2 = Ok c2 →
  LocalizedComponent.Template c1 = LocalizedComponent.Template c2
  ∧ LocalizedComponent.LocalizedData c1 = LocalizedComponent.LocalizedData c2
  ∧ LocalizedComponent.ComponentName c1 = LocalizedComponent.ComponentName c2
  ∧ LocalizedComponent.ComponentType c1 = LocalizedComponent.ComponentType c2
  ∧ LocalizedComponent.Language c1 = LocalizedComponent.Language c2
  ∧ (ComponentMetadata.ComponentID (LocalizedComponent.Metadata c1)
     ≠ ComponentMetadata.ComponentID (LocalizedComponent.Metadata c2)
     ↔ Z.rem (UnixMilli t1) 10000 ≠ Z.rem (UnixMilli t2) 10000).
Proof.
  intros H1 H2.
  destruct (componentTemplates !! componentType) as [template|] eqn:Ht.
  2:{ rewrite generate_unregistered in H1 by done. discriminate. }
  destruct (generate_registered componentTemplates localizationDB
              componentType lang t1 s1 template Ht)
    as (c1' & E1 & Hn1 & Hk1 & Hl1 & Hd1 & Hb1 & Hi1 & _).
  destruct (generate_registered componentTemplates localizationDB
              componentType lang t2 s2 template Ht)
    as (c2' & E2 & Hn2 & Hk2 & Hl2 & Hd2 & Hb2 & Hi2 & _).
  rewrite E1 in H1. rewrite E2 in H2.
  assert (c1' = c1) as -> by congruence.
  assert (c2' = c2) as -> by congruence.
  split_and!; try congruence.
  rewrite Hi1, Hi2. split.
  - intros Hne E. apply Hne. by rewrite E.
  - intros Hne E. apply Hne.
    do 4 apply String.app_inj in E. by apply Sprintf_d_inj.
Qed.

Lemma C4_generations_differ_by_clock_witness :
  ∃ c1 c2,
    Generate "welcome" "en" 1700000000123000000 1700000000123000000 = Ok c1
    ∧ Generate "welcome" "en" 1700000000456000000 1700000000456000000 = Ok c2
    ∧ LocalizedComponent.Template c1 = LocalizedComponent.Template c2
    ∧ LocalizedComponent.LocalizedData c1 = LocalizedComponent.LocalizedData c2
    ∧ (ComponentMetadata.ComponentID (LocalizedComponent.Metadata c1)
       ≠ ComponentMetadata.ComponentID (LocalizedComponent.Metadata c2)
       ↔ Z.rem (UnixMilli 1700000000123000000) 10000
         ≠ Z.rem (UnixMilli 1700000000456000000) 10000).
Proof.
  destruct (Generate "welcome" "en" 1700000000123000000 1700000000123000000)
    as [c1|] eqn:E1; [|vm_compute in E1; discriminate].
  destruct (Generate "welcome" "en" 1700000000456000000 1700000000456000000)
    as [c2|] eqn:E2; [|vm_compute in E2; discriminate].
  exists c1, c2. split; [reflexivity|]. split; [reflexivity|].
  pose proof (C4_generations_differ_by_clock componentTemplates localizationDB
                "welcome" "en" _ _ _ _ c1 c2 E1 E2)
    as (Ht & Hd & _ & _ & _ & Hid).
  split; [exact Ht|]. split; [exact Hd|]. exact Hid.
Defined.

(** C4 as stated fails: two generations of the same pair whose clock
    readings fall in the same millisecond, or lie ten seconds apart, carry
    the same [component_id]. *)
Lemma C4_same_identifier_counterexample :
  let t := 1700000000123000000 in
  (∃ c1 c2,
     Generate "welcome" "en" t t = Ok c1
     ∧ Generate "welcome" "en" (t + 400000) (t + 400000) = Ok c2
     ∧ ComponentMetadata.ComponentID (LocalizedComponent.Metadata c1)
       = ComponentMetadata.ComponentID (LocalizedComponent.Metadata c2))
  ∧ (∃ c1 c2,
       Generate "welcome" "en" t t = Ok c1
       ∧ Generate "welcome" "en" (t + 10 * 1000000000) (t + 10 * 1000000000)
         = Ok c2
       ∧ ComponentMetadata.ComponentID (LocalizedComponent.Metadata c1)
         = ComponentMetadata.ComponentID (LocalizedComponent.Metadata c2)).
Proof.
  intros t. split.
  - destruct (Generate "welcome" "en" t t) as [c1|] eqn:E1;
      [|vm_compute in E1; discriminate].
    destruct (Generate "welcome" "en" (t + 400000) (t + 400000))
      as [c2|] eqn:E2; [|vm_compute in E2; discriminate].
    exists c1, c2. split_and!; try done.
    vm_compute in E1, E2. injection E1 as <-. injection E2 as <-. reflexivity.
  - destruct (Generate "welcome" "en" t t) as [c1|] eqn:E1;
      [|vm_compute in E1; discriminate].
    destruct (Generate "welcome" "en" (t + 10 * 1000000000)
                (t + 10 * 1000000000))
      as [c2|] eqn:E2; [|vm_compute in E2; discriminate].
    exists c1, c2. split_and!; try done.
    vm_compute in E1, E2. injection E1 as <-. injection E2 as <-. reflexivity.
Qed.

Example generate_welcome_id :
  (fun r => match r with
            | Ok c => Some (ComponentMetadata.ComponentID
                              (LocalizedComponent.Metadata c),
                            LocalizedComponent.Language c)
            | Error _ => None
            end)
    (Generate "welcome" "zh" 1700000000123000000 1700000000123000000)
  = Some ("welcome_en_123", "en").
Proof. vm_compute. reflexivity. Qed.

(** * The JSON round trip *)

Lemma DecodeRuneInString_ascii (a : ascii) (rest : string) :
  byte_in 0 127 a = true → DecodeRuneInString (String a rest) = Some 1%nat.
Proof.
  intros Ha. unfold DecodeRuneInString.
  destruct rest as [|b [|c [|d rest]]]; by rewrite Ha.
Qed.

Lemma json_string_ascii (s : string) :
  all_chars (byte_in 0 127) s = true → json_string s = s.
Proof.
  unfold json_string. induction s as [|a s IH]; [done|].
  intros H. apply andb_true_iff in H as [Ha Hs].
  change (json_string_from 0 (String a s))
    with (match DecodeRuneInString (String a s) with
          | Some size => String a (json_string_from (size - 1) s)
          | None => RuneError +:+ json_string_from 0 s
          end).
  rewrite DecodeRuneInString_ascii by done. simpl. by rewrite IH.
Qed.

Lemma ascii_string_of_uint (d : Decimal.uint) :
  all_chars (byte_in 0 127) (NilEmpty.string_of_uint d) = true.
Proof. induction d; simpl; try done. Qed.

Lemma ascii_Sprintf_d (n : Z) :
  all_chars (byte_in 0 127) (Sprintf_d n) = true.
Proof.
  assert (∀ d, all_chars (byte_in 0 127) (NilZero.string_of_uint d) = true)
    as Hu.
  { intros d. unfold NilZero.string_of_uint.
    destruct d; try done; apply (ascii_string_of_uint (_ _)). }
  unfold Sprintf_d, NilZero.string_of_int.
  destruct (Z.to_int n) as [d|d]; [apply Hu|].
  change (byte_in 0 127 "-"
          && all_chars (byte_in 0 127) (NilZero.string_of_uint d) = true).
  by rewrite Hu.
Qed.

Lemma utf8_spec (s : string) : utf8 s = true ↔ json_string s = s.
Proof. apply String.eqb_eq. Qed.

Lemma foldl_insert_lookup (l : list (string * string))
    (acc : gmap string string) (k : string) :
  NoDup l.*1 →
  foldl (fun read '(key, value) => <[key := value]> read) acc l !! k
  = match (list_to_map l : gmap string string) !! k with
    | Some v => Some v
    | None => acc !! k
    end.
Proof.
  revert acc. induction l as [|[k0 v0] l IH]; intros acc Hnd; [done|].
  apply NoDup_cons in Hnd as [Hk0 Hnd]. simpl. rewrite IH by done.
  destruct (decide (k = k0)) as [->|Hne].
  - rewrite lookup_insert_eq.
    by rewrite (not_elem_of_list_to_map_1 _ _ Hk0), lookup_insert_eq.
  - rewrite !lookup_insert_ne by done. done.
Qed.

Lemma json_map_stable (m : gmap string string) :
  map_Forall (fun key value => json_string key = key
                               ∧ json_string value = value) m →
  json_map m = m.
Proof.
  intros Hm. unfold json_map.
  pose proof (merge_sort_Permutation key_le (map_to_list m)) as Hp.
  set (l := merge_sort key_le (map_to_list m)) in *.
  assert (Forall (fun kv => json_string kv.1 = kv.1
                            ∧ json_string kv.2 = kv.2) l) as Hl.
  { apply Forall_forall. intros [k v] Hin. rewrite Hp in Hin.
    apply elem_of_map_to_list in Hin. exact (Hm k v Hin). }
  assert (NoDup l.*1) as Hnd.
  { rewrite Hp. apply NoDup_fst_map_to_list. }
  assert (∀ acc,
            foldl (fun read '(key, value) =>
                     <[json_string key := json_string value]> read) acc l
            = foldl (fun read '(key, value) => <[key := value]> read) acc l)
    as ->.
  { clear Hp Hnd. induction Hl as [|[k v] l [Hk Hv] Hl IH]; intros acc;
      [done|]. simpl in *. by rewrite Hk, Hv, IH. }
  apply map_eq. intros k. rewrite foldl_insert_lookup by done.
  rewrite lookup_empty.
  assert ((list_to_map l : gmap string string) = m) as ->.
  { rewrite (list_to_map_proper l (map_to_list m)) by done.
    apply list_to_map_to_list. }
  by destruct (m !! k).
Qed.

(** A byte that starts no well-formed sequence comes back as U+FFFD; a
    well-formed sequence comes back as it is. *)
Example json_string_invalid_byte :
  json_string (String "255" "ok")
  = String "239" (String "191" (String "189" "ok")).
Proof. vm_compute. reflexivity. Qed.

Example json_string_two_bytes :
  json_string (String "195" (String "169" "!"))
  = String "195" (String "169" "!").
Proof. vm_compute. reflexivity. Qed.

Example json_string_truncated :
  json_string (String "a" (String "195" EmptyString)) = "a" +:+ RuneError.
Proof. vm_compute. reflexivity. Qed.

(** * Properties of the handler *)

Section EntriesFacts.
Context {V : Type}.
Implicit Types (c : TTLCache V) (l : list (Element V)) (x : Element V).

Lemma elem_of_Remove e l x : x ∈ Remove e l → x ∈ l.
Proof.
  unfold Remove. rewrite !list_elem_of_In, List.filter_In. tauto.
Qed.

Lemma node_elem e l x : node e l = Some x → x ∈ l ∧ eid x = e.
Proof.
  unfold node. intros H. apply List.find_some in H as [Hin He].
  split; [by apply list_elem_of_In|by apply is_node_true].
Qed.

Lemma elem_of_MoveToBack e l x : x ∈ MoveToBack e l → x ∈ l.
Proof.
  unfold MoveToBack. destruct (node e l) as [y|] eqn:E; [|done].
  rewrite elem_of_app, list_elem_of_singleton.
  intros [H| ->]; [by apply elem_of_Remove in H|by apply node_elem in E as [? _]].
Qed.

Lemma entries_keys c : (entries c).*1 = lru_keys c.
Proof. unfold entries, lru_keys. by rewrite <- list_fmap_compose. Qed.

Lemma entries_mono l l' :
  (∀ x, x ∈ l' → x ∈ l) →
  ∀ kv, kv ∈ (fun x => (key (Value x), value (Value x))) <$> l' →
        kv ∈ (fun x => (key (Value x), value (Value x))) <$> l.
Proof.
  intros Hsub kv. rewrite !list_elem_of_fmap.
  intros (x & -> & Hx). eauto.
Qed.

(** [Get] adds no entry. *)
Lemma entries_Get c k now kv :
  kv ∈ entries (Get c k now).1 → kv ∈ entries c.
Proof.
  unfold Get, entries.
  destruct (cache c !! k) as [e|]; [|done].
  destruct (timestamps c !! k) as [t|]; simpl.
  - destruct (_ >? _); simpl.
    + apply entries_mono. apply elem_of_Remove.
    + destruct (node e (lruList c)); simpl; [|done].
      apply entries_mono. apply elem_of_MoveToBack.
  - apply entries_mono. apply elem_of_Remove.
Qed.

(** What [Get] finds is an entry under the key asked for. *)
Lemma Get_found_entry c k now v :
  wf c → (Get c k now).2 = Some v → (k, v) ∈ entries c.
Proof.
  intros Hwf Hv. pose proof Hv as Hv'.
  apply Get_found in Hv' as (e & t & Hc & Ht & Hage).
  destruct (Get_hit c k now e t Hwf Hc Ht Hage) as ((x & Hx & Hk & Hr) & _).
  unfold entries. apply list_elem_of_fmap. exists x. split; [|done].
  rewrite Hk. f_equal. congruence.
Qed.

(** [Put] adds the entry put and no other. *)
Lemma entries_Put c k v now kv :
  wf c → kv ∈ entries (Put c k v now) → kv ∈ entries c ∨ kv = (k, v).
Proof.
  intros Hwf. unfold Put.
  destruct (cache c !! k) as [e|] eqn:Hc.
  - destruct (wf_lookup _ _ _ Hwf Hc)
      as (l1 & x & l2 & El & He & Hk & Hn & Hr & H1 & H2 & _).
    unfold entries. simpl.
    rewrite (MoveToBack_split _ _ _ _ _ Hn Hr).
    rewrite set_value_back by done. rewrite El.
    rewrite !fmap_app, !fmap_cons. simpl. rewrite Hk.
    rewrite !elem_of_app, !elem_of_cons, elem_of_nil. tauto.
  - unfold entries, PushBack. simpl.
    rewrite fmap_app, elem_of_app. simpl. rewrite list_elem_of_singleton.
    intros [H|H]; [left|by right].
    destruct (_ >=? _); [|done].
    destruct (Front (lruList c)); [|done].
    simpl in H. revert H. apply entries_mono, elem_of_Remove.
Qed.
End EntriesFacts.

Section KeyFacts.
Implicit Types (s l : string).

Lemma colon_in s l : colon_free (s +:+ String ":" l) = false.
Proof.
  unfold colon_free. rewrite all_chars_append. simpl.
  by rewrite andb_false_r.
Qed.

Lemma split_at_last_colon s1 l1 s2 l2 :
  colon_free l1 = true → colon_free l2 = true →
  s1 +:+ String ":" l1 = s2 +:+ String ":" l2 → s1 = s2 ∧ l1 = l2.
Proof.
  intros H1 H2. revert s2.
  induction s1 as [|a s1 IH]; intros [|b s2]; rewrite ?append_cons, ?append_nil_l.
  - by intros [= ->].
  - intros [= <- ->]. by rewrite colon_in in H1.
  - intros [= -> <-]. by rewrite colon_in in H2.
  - intros [= -> E]. apply IH in E as [-> ->]. done.
Qed.

(** A cache key determines the component type and the language it was made
    of, as long as language codes have no colon. *)
Lemma Sprintf_cacheKey_inj componentType lang componentType' lang' :
  colon_free lang = true → colon_free lang' = true →
  Sprintf_cacheKey componentType lang = Sprintf_cacheKey componentType' lang' →
  componentType = componentType' ∧ lang = lang'.
Proof.
  intros H1 H2 E. unfold Sprintf_cacheKey in E.
  apply String.app_inj in E. by apply split_at_last_colon.
Qed.
End KeyFacts.

Section HandlerFacts.
Context (componentTemplates : gmap string ComponentTemplate.t).
Context (localizationDB : gmap string (gmap string string)).
Implicit Types (srv : Server) (env : Env).
#[local] Abbreviation endpoint :=
  (getLocalizedComponentEndpoint componentTemplates localizationDB).
#[local] Abbreviation key_of := (request_key localizationDB).
#[local] Abbreviation generate :=
  (getLocalizedComponent componentTemplates localizationDB).

(** The handler, branch by branch. *)
Lemma endpoint_branches srv componentType lang_query env :
  endpoint srv componentType lang_query env
  = let cacheKey := key_of componentType lang_query in
    let got := Get (componentCache srv) cacheKey (clock_Get env) in
    match got.2 with
    | Some component =>
        (MkServer got.1 (redisClient srv),
         StatusOK (LocalizedComponent.with_Cached true component), [])
    | None =>
        match redis_lookup (redisClient srv) cacheKey env with
        | Some (store, component) =>
            (MkServer (Put got.1 cacheKey component (clock_Put env))
                      (Some (expireInRedis store cacheKey env).1),
             StatusOK (LocalizedComponent.with_Cached true component),
             warning "Failed to refresh Redis TTL"
               (expireInRedis store cacheKey env).2)
        | None =>
            match generate componentType (default "en" lang_query)
                    (clock_ComponentID env) (clock_LastUpdated env) with
            | Error err =>
                (MkServer got.1 (redisClient srv),
                 StatusNotFound err (getComponentKeys componentTemplates), [])
            | Ok component =>
                (MkServer (Put got.1 cacheKey component (clock_Put env))
                   (match redisClient srv with
                    | Some store =>
                        Some (setInRedis store cacheKey component env).1
                    | None => None
                    end),
                 StatusOK (LocalizedComponent.with_Cached false component),
                 match redisClient srv with
                 | Some store =>
                     warning "Failed to cache in Redis"
                       (setInRedis store cacheKey component env).2
                 | None => []
                 end)
            end
        end
    end.
Proof.
  unfold getLocalizedComponentEndpoint, request_key, redis_lookup.
  destruct (Get _ _ _) as [cache1 [component|]]; simpl; [done|].
  destruct (redisClient srv) as [store|].
  - destruct (getFromRedis _ _ _) as [component|err].
    + by destruct (expireInRedis _ _ _).
    + destruct (getLocalizedComponent _ _ _ _ _ _); [|done].
      by destruct (setInRedis _ _ _ _).
  - by destruct (getLocalizedComponent _ _ _ _ _ _).
Qed.

Lemma cacheKey_lang_cases lang :
  (is_Some (localizationDB !! lang) ∧ cacheKey_lang localizationDB lang = lang)
  ∨ (localizationDB !! lang = None ∧ cacheKey_lang localizationDB lang = "en").
Proof.
  unfold cacheKey_lang. destruct (localizationDB !! lang); eauto.
Qed.

Lemma redis_GET_Some store k now component :
  redis_GET store k now = Some component →
  ∃ deadline, store !! k = Some (component, deadline).
Proof.
  unfold redis_GET. destruct (store !! k) as [[payload deadline]|]; [|done].
  destruct (_ <? _); [|done]. intros [= ->]. eauto.
Qed.

Lemma redis_lookup_Some client k env store component :
  redis_lookup client k env = Some (store, component) →
  client = Some store ∧ ∃ deadline, store !! k = Some (component, deadline).
Proof.
  unfold redis_lookup, getFromRedis. destruct client as [store'|]; [|done].
  destruct (redis_Get_outcome env); [|done].
  destruct (redis_GET _ _ _) as [c|] eqn:E; [|done].
  intros [= -> ->]. split; [done|]. by eapply redis_GET_Some.
Qed.

Lemma redis_SET_lookup store k payload expiry now k' v :
  redis_SET store k payload expiry now !! k' = Some v →
  v = (payload, now + expiry) ∧ k' = k ∨ store !! k' = Some v.
Proof.
  unfold redis_SET. rewrite lookup_insert_Some.
  intros [[<- <-]|[_ H]]; [by left|by right].
Qed.

Lemma redis_EXPIRE_lookup store k expiry now k' payload deadline :
  redis_EXPIRE store k expiry now !! k' = Some (payload, deadline) →
  ∃ deadline', store !! k' = Some (payload, deadline').
Proof.
  unfold redis_EXPIRE. destruct (redis_GET _ _ _) as [p|] eqn:E; [|eauto].
  apply redis_GET_Some in E as [d Hd].
  rewrite lookup_insert_Some. intros [[-> [= -> _]]|[_ H]]; eauto.
Qed.

Lemma setInRedis_lookup store k component env k' v :
  (setInRedis store k component env).1 !! k' = Some v →
  (v.1 = json_round_trip component ∧ k' = k) ∨ store !! k' = Some v.
Proof.
  unfold setInRedis. cbv zeta.
  destruct (redis_Set_outcome env); simpl; try by right.
  all: intros H; apply redis_SET_lookup in H as [[-> ->]|H]; eauto.
Qed.

Lemma expireInRedis_lookup store k env k' payload deadline :
  (expireInRedis store k env).1 !! k' = Some (payload, deadline) →
  ∃ deadline', store !! k' = Some (payload, deadline').
Proof.
  unfold expireInRedis.
  destruct (redis_Expire_outcome env); simpl; eauto;
    apply redis_EXPIRE_lookup.
Qed.

(** The generator files its artifact under the key of the request. *)
Lemma generate_filed componentType lang_query now_id now_stamp component :
  generate componentType (default "en" lang_query) now_id now_stamp
  = Ok component →
  filed componentTemplates localizationDB
    (key_of componentType lang_query) component.
Proof.
  intros Hgen. unfold getLocalizedComponent in Hgen.
  destruct (componentTemplates !! componentType) as [template|] eqn:Ht;
    [|done].
  exists componentType. unfold request_key, cacheKey_lang.
  destruct (localizationDB !! default "en" lang_query) eqn:El;
    injection Hgen as <-; simpl; rewrite ?El; eauto.
Qed.

(** An artifact read back from its JSON text is filed as it was. *)
Lemma filed_round_trip k component :
  langs_utf8 localizationDB →
  filed componentTemplates localizationDB k component →
  filed componentTemplates localizationDB k (json_round_trip component).
Proof.
  intros Hutf8 (componentType & Hreg & Hk & Hlang).
  assert (json_string (LocalizedComponent.Language component)
          = LocalizedComponent.Language component) as E.
  { destruct Hlang as [Hl| ->]; [by apply Hutf8|]. vm_compute. reflexivity. }
  exists componentType. simpl. by rewrite E.
Qed.

(** The handler keeps the two tiers consistent. *)
Lemma endpoint_consistent srv componentType lang_query env :
  langs_utf8 localizationDB →
  consistent componentTemplates localizationDB srv →
  consistent componentTemplates localizationDB
    (endpoint srv componentType lang_query env).1.1.
Proof.
  intros Hutf8 [Hwf Hlocal Hremote]. rewrite endpoint_branches. cbv zeta.
  set (cacheKey := key_of componentType lang_query).
  pose proof (wf_Get (componentCache srv) cacheKey (clock_Get env) Hwf) as Hwf1.
  assert (∀ k c, (k, c) ∈ entries (Get (componentCache srv) cacheKey
                                     (clock_Get env)).1 →
                 filed componentTemplates localizationDB k c) as Hlocal1.
  { intros k c H. apply Hlocal. by apply entries_Get in H. }
  destruct (Get _ _ _).2 as [component|] eqn:Hgot; simpl.
  { by split. }
  destruct (redis_lookup _ _ _) as [[store component]|] eqn:Hredis; simpl.
  { apply redis_lookup_Some in Hredis as (Hclient & deadline & Hstore).
    split; simpl.
    - by apply wf_Put.
    - intros k c H. apply entries_Put in H; [|done].
      destruct H as [H|[= -> ->]]; [eauto|]. by eapply Hremote.
    - intros store' k c d [= <-] H.
      apply expireInRedis_lookup in H as [d' H]. by eapply Hremote. }
  destruct (generate _ _ _ _) as [component|err] eqn:Hgen; simpl.
  2:{ by split. }
  apply generate_filed in Hgen.
  split; simpl.
  - by apply wf_Put.
  - intros k c H. apply entries_Put in H; [|done].
    destruct H as [H|[= -> ->]]; [eauto|done].
  - intros store' k c d Hclient H.
    destruct (redisClient srv) as [store|] eqn:Es; [|done].
    injection Hclient as <-.
    apply setInRedis_lookup in H as [[Hc ->]|H]; [|by eapply Hremote].
    simpl in Hc. subst c. by apply filed_round_trip.
Qed.

Lemma startup_consistent connected (store : RedisStore) :
  (∀ k component deadline, store !! k = Some (component, deadline) →
     filed componentTemplates localizationDB k component) →
  consistent componentTemplates localizationDB (startup connected store).
Proof.
  intros Hstore. split; simpl.
  - apply wf_New.
  - intros k c H. by apply elem_of_nil in H.
  - intros store' k c d. destruct connected; [|done].
    intros [= <-]. apply Hstore.
Qed.

Lemma serve_consistent srv requests :
  langs_utf8 localizationDB →
  consistent componentTemplates localizationDB srv →
  consistent componentTemplates localizationDB
    (serve componentTemplates localizationDB srv requests).
Proof.
  intros Hutf8. unfold serve. revert srv.
  induction requests as [|[[componentType lang_query] env] requests IH];
    intros srv Hc; simpl; [done|].
  by apply IH, endpoint_consistent.
Qed.
End HandlerFacts.

Section HandlerClaims.
Context (componentTemplates : gmap string ComponentTemplate.t).
Context (localizationDB : gmap string (gmap string string)).
Implicit Types (srv : Server) (env : Env).
#[local] Abbreviation endpoint :=
  (getLocalizedComponentEndpoint componentTemplates localizationDB).
#[local] Abbreviation key_of := (request_key localizationDB).
#[local] Abbreviation generate :=
  (getLocalizedComponent componentTemplates localizationDB).
#[local] Abbreviation consistent' :=
  (consistent componentTemplates localizationDB).

Lemma cacheKey_lang_colon_free lang :
  langs_colon_free localizationDB → colon_free (cacheKey_lang localizationDB lang) = true.
Proof.
  intros Hcf. destruct (cacheKey_lang_cases localizationDB lang)
    as [[Hin ->]|[_ ->]]; [by apply Hcf|done].
Qed.

(** An artifact filed under the key of a request is one of the component
    type and of the language the key was made of. *)
Lemma filed_request_key componentType lang_query component :
  langs_colon_free localizationDB →
  filed componentTemplates localizationDB
    (key_of componentType lang_query) component →
  is_Some (componentTemplates !! componentType)
  ∧ LocalizedComponent.Language component
    = cacheKey_lang localizationDB (default "en" lang_query).
Proof.
  intros Hcf (componentType' & Hreg & Hkey & Hlang).
  unfold request_key in Hkey.
  apply Sprintf_cacheKey_inj in Hkey as [-> <-]; [done| |].
  - by apply cacheKey_lang_colon_free.
  - destruct Hlang as [Hin| ->]; [by apply Hcf|done].
Qed.

(** Requests for an unregistered component type find nothing in either
    tier of a consistent server. *)
Lemma unregistered_not_cached srv componentType lang_query env :
  langs_colon_free localizationDB → consistent' srv →
  componentTemplates !! componentType = None →
  cache (componentCache srv) !! key_of componentType lang_query = None
  ∧ redis_lookup (redisClient srv) (key_of componentType lang_query) env
    = None.
Proof.
  intros Hcf [Hwf Hlocal Hremote] Hunreg. split.
  - destruct (cache _ !! _) as [e|] eqn:Hc; [|done]. exfalso.
    assert (key_of componentType lang_query ∈ lru_keys (componentCache srv))
      as Hin by (apply wf_lookup_keys; eauto).
    rewrite <- entries_keys in Hin.
    apply list_elem_of_fmap in Hin as ([k c] & Hk & Hin). simpl in Hk.
    subst k. apply Hlocal in Hin.
    apply filed_request_key in Hin as [[? Hreg] _]; [congruence|done].
  - destruct (redis_lookup _ _ _) as [[store c]|] eqn:Hr; [|done]. exfalso.
    apply redis_lookup_Some in Hr as (Hclient & d & Hstore).
    apply (Hremote _ _ _ _ Hclient) in Hstore.
    apply filed_request_key in Hstore as [[? Hreg] _]; [congruence|done].
Qed.

Lemma getComponentKeys_spec k :
  k ∈ getComponentKeys componentTemplates
  ↔ is_Some (componentTemplates !! k).
Proof.
  unfold getComponentKeys. rewrite list_elem_of_fmap. split.
  - intros ([k' t] & -> & Hin). apply elem_of_map_to_list in Hin. eauto.
  - intros [t Ht]. exists (k, t). split; [done|].
    by apply elem_of_map_to_list.
Qed.

Lemma not_found_unchanged srv componentType lang_query env :
  langs_colon_free localizationDB → consistent' srv →
  componentTemplates !! componentType = None →
  endpoint srv componentType lang_query env
  = (srv,
     StatusNotFound ("component type '" +:+ componentType +:+ "' not found")
       (getComponentKeys componentTemplates),
     []).
Proof.
  intros Hcf Hcons Hunreg.
  destruct (unregistered_not_cached srv componentType lang_query env
              Hcf Hcons Hunreg) as [Hlocal Hremote].
  rewrite endpoint_branches. cbv zeta.
  rewrite Get_miss by done. simpl. rewrite Hremote.
  rewrite generate_unregistered by done. by destruct srv.
Qed.

(** A request for a registered component type is answered with an
    artifact, whatever the remote tier does. *)
Lemma registered_answered srv componentType lang_query env :
  is_Some (componentTemplates !! componentType) →
  ∃ component,
    (endpoint srv componentType lang_query env).1.2 = StatusOK component.
Proof.
  intros [template Ht]. rewrite endpoint_branches. cbv zeta.
  destruct (Get _ _ _).2 as [c|]; simpl; [eauto|].
  destruct (redis_lookup _ _ _) as [[store c]|]; simpl; [eauto|].
  destruct (generate_registered componentTemplates localizationDB
              componentType (default "en" lang_query)
              (clock_ComponentID env) (clock_LastUpdated env) template Ht)
    as (c & -> & _). simpl. eauto.
Qed.

(** The artifact answered is one of the language the key is made of. *)
Lemma answered_language srv componentType lang_query env component :
  langs_colon_free localizationDB → consistent' srv →
  (endpoint srv componentType lang_query env).1.2 = StatusOK component →
  LocalizedComponent.Language component
  = cacheKey_lang localizationDB (default "en" lang_query).
Proof.
  intros Hcf [Hwf Hlocal Hremote]. rewrite endpoint_branches. cbv zeta.
  destruct (Get _ _ _).2 as [c|] eqn:Hgot; simpl.
  { intros [= <-]. apply Get_found_entry in Hgot; [|done].
    apply Hlocal in Hgot. by apply filed_request_key in Hgot as [_ ?]. }
  destruct (redis_lookup _ _ _) as [[store c]|] eqn:Hr; simpl.
  { intros [= <-]. apply redis_lookup_Some in Hr as (Hclient & d & Hstore).
    apply (Hremote _ _ _ _ Hclient) in Hstore.
    by apply filed_request_key in Hstore as [_ ?]. }
  destruct (generate _ _ _ _) as [c|err] eqn:Hgen; simpl; [|done].
  intros [= <-]. apply generate_filed in Hgen.
  by apply filed_request_key in Hgen as [_ ?].
Qed.
End HandlerClaims.

(** ** The program with its registries *)

Lemma shipped_langs_colon_free : langs_colon_free localizationDB.
Proof.
  intros lang [strings Hl].
  assert (map_Forall (fun k _ => colon_free k = true) localizationDB) as H.
  { apply (bool_decide_unpack (map_Forall _ _)). vm_compute. exact I. }
  exact (H lang strings Hl).
Qed.

Lemma shipped_langs_utf8 : langs_utf8 localizationDB.
Proof.
  intros lang [strings Hl].
  assert (map_Forall (fun k _ => json_string k = k) localizationDB) as H.
  { apply (bool_decide_unpack (map_Forall _ _)). vm_compute. exact I. }
  exact (H lang strings Hl).
Qed.

Lemma shipped_component_keys :
  getComponentKeys componentTemplates
  = ["welcome"; "user_profile"; "navigation"; "footer"].
Proof. vm_compute. reflexivity. Qed.

(** The empty server: started without a remote tier, or with an empty one. *)
Lemma startup_empty_consistent connected :
  consistent componentTemplates localizationDB (startup connected ∅).
Proof. apply startup_consistent. intros k c d H. by rewrite lookup_empty in H. Qed.

(** The program after any requests since a startup with an empty store. *)
Lemma served_consistent connected requests :
  consistent componentTemplates localizationDB
    (serve componentTemplates localizationDB (startup connected ∅) requests).
Proof.
  apply serve_consistent;
    [apply shipped_langs_utf8|apply startup_empty_consistent].
Qed.

(** C5.  On a server whose tiers are consistent, a request for a component
    type without a registered template, with any language parameter and
    whatever the remote tier answers, gets the not-found answer: its error
    names the component type, its list of available components is the list
    of the registered identifiers (four of them), and the state after the
    request is the state before it: neither the local cache nor the remote
    store has changed, and nothing is printed. *)
Theorem C5_unknown_component_not_found (srv : Server)
    (componentType : string) (lang_query : option string) (env : Env) :
  consistent componentTemplates localizationDB srv →
  componentTemplates !! componentType = None →
  ∃ error available_components,
    Lookup srv componentType lang_query env
    = (srv, StatusNotFound error available_components, [])
    ∧ error = "component type '" +:+ componentType +:+ "' not found"
    ∧ (∀ k, k ∈ available_components
            ↔ is_Some (componentTemplates !! k))
    ∧ (1 ≤ length available_components)%nat.
Proof.
  intros Hcons Hunreg. eexists _, _. split_and!.
  - apply not_found_unchanged; [apply shipped_langs_colon_free|done|done].
  - done.
  - apply getComponentKeys_spec.
  - rewrite shipped_component_keys. simpl. lia.
Qed.

Lemma C5_unknown_component_not_found_witness :
  let env := MkEnv 0 0 0 0 Answered 0 Acknowledged 0 Acknowledged 0 in
  componentTemplates !! "nonexistent" = None
  ∧ ∃ error available_components,
      Lookup (startup true ∅) "nonexistent" (Some "en") env
      = (startup true ∅, StatusNotFound error available_components, [])
      ∧ (1 ≤ length available_components)%nat.
Proof.
  intros env.
  assert (componentTemplates !! "nonexistent" = None) as Hunreg
    by (vm_compute; reflexivity).
  split; [exact Hunreg|].
  destruct (C5_unknown_component_not_found (startup true ∅) "nonexistent"
              (Some "en") env (startup_empty_consistent true) Hunreg)
    as (error & available & Hresp & _ & _ & Hlen).
  exists error, available. split; [exact Hresp|exact Hlen].
Defined.

Example lookup_nonexistent :
  (Lookup (startup true ∅) "nonexistent" (Some "en")
     (MkEnv 0 0 0 0 Answered 0 Acknowledged 0 Acknowledged 0)).1.2
  = StatusNotFound "component type 'nonexistent' not found"
      ["welcome"; "user_profile"; "navigation"; "footer"].
Proof. vm_compute. reflexivity. Qed.

Section SlotFacts.
Context (componentTemplates : gmap string ComponentTemplate.t).
Context (localizationDB : gmap string (gmap string string)).
Implicit Types (srv : Server) (env : Env).
#[local] Abbreviation endpoint :=
  (getLocalizedComponentEndpoint componentTemplates localizationDB).
#[local] Abbreviation key_of := (request_key localizationDB).

(** The local cache after a request for a registered component type: the
    cache after the [Get] on a hit, and that cache after a [Put] under the
    same key otherwise. *)
Lemma endpoint_local_cache srv componentType lang_query env :
  is_Some (componentTemplates !! componentType) →
  let cacheKey := key_of componentType lang_query in
  let got := Get (componentCache srv) cacheKey (clock_Get env) in
  let after :=
    componentCache (endpoint srv componentType lang_query env).1.1 in
  (is_Some got.2 ∧ after = got.1)
  ∨ (got.2 = None
     ∧ ∃ component, after = Put got.1 cacheKey component (clock_Put env)).
Proof.
  intros [template Ht] cacheKey got after. subst after.
  rewrite endpoint_branches. cbv zeta. fold cacheKey. fold got.
  destruct got.2 as [c|]; simpl; [left; eauto|right].
  split; [done|].
  destruct (redis_lookup _ _ _) as [[store c]|]; simpl; [eauto|].
  destruct (generate_registered componentTemplates localizationDB
              componentType (default "en" lang_query)
              (clock_ComponentID env) (clock_LastUpdated env) template Ht)
    as (c & -> & _). simpl. eauto.
Qed.

Lemma Put_key_linked {V} (c : TTLCache V) k v now :
  wf c → k ∈ lru_keys (Put c k v now).
Proof.
  intros Hwf. apply wf_lookup_keys; [by apply wf_Put|apply Put_lookup].
Qed.

(** After the request the key of the request is in the local cache. *)
Lemma endpoint_key_linked srv componentType lang_query env :
  wf (componentCache srv) →
  is_Some (componentTemplates !! componentType) →
  key_of componentType lang_query
  ∈ lru_keys (componentCache (endpoint srv componentType lang_query env).1.1).
Proof.
  intros Hwf Hreg.
  destruct (endpoint_local_cache srv componentType lang_query env Hreg)
    as [[[c Hc] ->]|[Hnone [c ->]]].
  - apply Get_found in Hc as (e & t & Hc & Ht & Hage).
    destruct (Get_hit _ _ _ e t Hwf Hc Ht Hage) as (_ & _ & -> & _).
    apply elem_of_app. right. left.
  - apply Put_key_linked. by apply wf_Get.
Qed.

Lemma without_only k : without k [k] = [].
Proof. exact (without_split k [] [] (not_elem_of_nil k) (not_elem_of_nil k)). Qed.

(** A cache that holds at most the key of the request holds exactly that
    key after the request. *)
Lemma endpoint_one_slot srv componentType lang_query env :
  let cacheKey := key_of componentType lang_query in
  let after :=
    componentCache (endpoint srv componentType lang_query env).1.1 in
  is_Some (componentTemplates !! componentType) →
  wf (componentCache srv) → 1 ≤ maxSize (componentCache srv) →
  lru_keys (componentCache srv) = [] ∨ lru_keys (componentCache srv) = [cacheKey] →
  lru_keys after = [cacheKey]
  ∧ wf after ∧ maxSize after = maxSize (componentCache srv).
Proof.
  intros cacheKey after Hreg Hwf Hmax Hkeys. subst after.
  destruct (endpoint_local_cache srv componentType lang_query env Hreg)
    as [[[v Hv] ->]|[Hnone [v ->]]]; subst cacheKey;
    set (cacheKey := key_of componentType lang_query) in *;
    set (c := componentCache srv) in *.
  - apply Get_found in Hv as (e & t & Hc & Ht & Hage).
    destruct (Get_hit _ _ _ e t Hwf Hc Ht Hage)
      as (_ & _ & Hk & _ & _ & _ & Hm & _).
    split_and!; [|by apply wf_Get|done].
    rewrite Hk. destruct Hkeys as [E|E]; rewrite E.
    + assert (cacheKey ∈ lru_keys c) as Hin by (apply wf_lookup_keys; eauto).
      rewrite E in Hin. by apply elem_of_nil in Hin.
    + by rewrite without_only.
  - assert (lru_keys (Get c cacheKey (clock_Get env)).1 = []
            ∧ cache (Get c cacheKey (clock_Get env)).1 !! cacheKey = None)
      as [Hk Hc].
    { destruct (cache c !! cacheKey) as [e|] eqn:Hc.
      - destruct (Get_stamped _ _ _ Hwf Hc) as [t Ht].
        destruct (Z_le_gt_dec (clock_Get env - t) (ttl c)) as [Hage|Hage].
        + destruct (Get_hit _ _ (clock_Get env) e t Hwf Hc Ht Hage)
            as ((x & _ & _ & Hx) & _). congruence.
        + destruct (Get_expired _ _ (clock_Get env) e t Hwf Hc Ht Hage)
            as (_ & Hk & _ & Hc' & _).
          split; [|done]. rewrite Hk.
          destruct Hkeys as [E|E]; rewrite E; [done|apply without_only].
      - rewrite Get_miss by done. simpl. split; [|done].
        destruct Hkeys as [E|E]; [done|].
        apply wf_lookup_None in Hc; [|done]. rewrite E in Hc.
        exfalso. apply Hc. left. }
    pose proof (wf_Get c cacheKey (clock_Get env) Hwf) as Hwf1.
    split_and!.
    + rewrite Put_new by done. rewrite Size_lru_keys, Hk, maxSize_Get.
      simpl. by destruct (_ >=? _).
    + by apply wf_Put.
    + by rewrite maxSize_Put, maxSize_Get.
Qed.
End SlotFacts.

(** C1.  On a server whose tiers are consistent, for a component type with
    a registered template and a requested language without a localization
    table: the cache key of the request is the key of the fallback language
    [en], so the requests for all such languages use one and the same key;
    the artifact answered has the language [en], whichever tier serves it;
    after the request the local cache has an entry under that key; and two
    such requests on a server just started, with any two unsupported
    languages and whatever the clocks and the remote tier do, leave the
    local cache with that one entry. *)
Theorem C1_unsupported_language_collapses (srv : Server)
    (componentType lang : string) (env : Env) :
  consistent componentTemplates localizationDB srv →
  is_Some (componentTemplates !! componentType) →
  localizationDB !! lang = None →
  request_key localizationDB componentType (Some lang)
  = Sprintf_cacheKey componentType "en"
  ∧ (∃ component,
       (Lookup srv componentType (Some lang) env).1.2 = StatusOK component
       ∧ LocalizedComponent.Language component = "en")
  ∧ (Sprintf_cacheKey componentType "en"
     ∈ lru_keys (componentCache (Lookup srv componentType (Some lang) env).1.1))
  ∧ (∀ lang' env1 env2 connected,
       localizationDB !! lang' = None →
       request_key localizationDB componentType (Some lang')
       = request_key localizationDB componentType (Some lang)
       ∧ lru_keys
           (componentCache
              (serve componentTemplates localizationDB (startup connected ∅)
                 [(componentType, Some lang, env1);
                  (componentType, Some lang', env2)]))
         = [Sprintf_cacheKey componentType "en"]).
Proof.
  intros Hcons Hreg Hlang.
  assert (∀ l, localizationDB !! l = None →
               request_key localizationDB componentType (Some l)
               = Sprintf_cacheKey componentType "en") as Hkey.
  { intros l Hl. unfold request_key, cacheKey_lang. simpl. by rewrite Hl. }
  split_and!.
  - by apply Hkey.
  - destruct (registered_answered componentTemplates localizationDB
                srv componentType (Some lang) env Hreg) as [component Hresp].
    exists component. split; [done|].
    rewrite (answered_language componentTemplates localizationDB
               srv componentType (Some lang) env component
               shipped_langs_colon_free Hcons Hresp).
    unfold cacheKey_lang. simpl. by rewrite Hlang.
  - rewrite <- (Hkey lang Hlang).
    apply endpoint_key_linked; [apply (consistent_wf _ _ _ Hcons)|done].
  - intros lang' env1 env2 connected Hlang'.
    split; [by rewrite !Hkey|].
    change (serve componentTemplates localizationDB (startup connected ∅)
              [(componentType, Some lang, env1);
               (componentType, Some lang', env2)])
      with (getLocalizedComponentEndpoint componentTemplates localizationDB
              (getLocalizedComponentEndpoint componentTemplates
                 localizationDB (startup connected ∅) componentType
                 (Some lang) env1).1.1
              componentType (Some lang') env2).1.1.
    destruct (endpoint_one_slot componentTemplates localizationDB
                (startup connected ∅) componentType (Some lang) env1 Hreg)
      as (Hk1 & Hwf1 & Hm1).
    { apply wf_New. } { simpl. unfold CacheMaxSize. lia. } { by left. }
    destruct (endpoint_one_slot componentTemplates localizationDB
                (getLocalizedComponentEndpoint componentTemplates
                   localizationDB (startup connected ∅) componentType
                   (Some lang) env1).1.1
                componentType (Some lang') env2 Hreg Hwf1)
      as (Hk2 & _).
    { rewrite Hm1. simpl. unfold CacheMaxSize. lia. }
    { right. rewrite Hk1. by rewrite !Hkey. }
    rewrite Hk2. by rewrite Hkey.
Qed.

Lemma C1_unsupported_language_collapses_witness :
  let env := MkEnv 0 0 0 0 Answered 0 Acknowledged 0 Acknowledged 0 in
  is_Some (componentTemplates !! "welcome")
  ∧ localizationDB !! "zh" = None
  ∧ localizationDB !! "ja" = None
  ∧ request_key localizationDB "welcome" (Some "zh") = "component:welcome:en"
  ∧ (∃ component,
       (Lookup (startup true ∅) "welcome" (Some "zh") env).1.2
       = StatusOK component
       ∧ LocalizedComponent.Language component = "en")
  ∧ lru_keys
      (componentCache
         (serve componentTemplates localizationDB (startup true ∅)
            [("welcome", Some "zh", env); ("welcome", Some "ja", env)]))
    = ["component:welcome:en"].
Proof.
  intros env.
  assert (is_Some (componentTemplates !! "welcome")) as Hreg
    by (vm_compute; eexists; reflexivity).
  assert (localizationDB !! "zh" = None) as Hzh by (vm_compute; reflexivity).
  assert (localizationDB !! "ja" = None) as Hja by (vm_compute; reflexivity).
  destruct (C1_unsupported_language_collapses (startup true ∅) "welcome" "zh"
              env (startup_empty_consistent true) Hreg Hzh)
    as (Hkey & Hresp & _ & Hslot).
  split; [exact Hreg|]. split; [exact Hzh|]. split; [exact Hja|].
  split; [exact Hkey|]. split; [exact Hresp|].
  exact (proj2 (Hslot "ja" env env true Hja)).
Defined.

(** C6.  For any registries and any server state, a request for a component
    type with a registered template is answered with an artifact (status
    200) whatever the remote tier does: no remote error reaches the caller.
    When the client is [nil] or the remote read fails, the answer and the
    local cache are those of the same server without a remote tier: the
    request is served from the local cache or by generation.  A remote read
    that fails is handled as a read that finds no entry: the state after the
    request, the answer and the lines printed are the same.  The outcome of
    the remote write changes neither the answer nor the local cache; a write
    that fails is reported by one warning line that carries its error. *)
Theorem C6_remote_failures_absorbed
    (componentTemplates : gmap string ComponentTemplate.t)
    (localizationDB : gmap string (gmap string string))
    (srv : Server) (componentType : string) (lang_query : option string)
    (env : Env) :
  is_Some (componentTemplates !! componentType) →
  let endpoint :=
    getLocalizedComponentEndpoint componentTemplates localizationDB in
  let cacheKey := request_key localizationDB componentType lang_query in
  let local_only := MkServer (componentCache srv) None in
  (∃ component,
     (endpoint srv componentType lang_query env).1.2 = StatusOK component)
  ∧ ((redisClient srv = None ∨ ∃ err, redis_Get_outcome env = ReadFailed err) →
     (endpoint srv componentType lang_query env).1.2
     = (endpoint local_only componentType lang_query env).1.2
     ∧ componentCache (endpoint srv componentType lang_query env).1.1
       = componentCache (endpoint local_only componentType lang_query env).1.1)
  ∧ (∀ store err,
       redisClient srv = Some store →
       redis_GET store cacheKey (redis_Get_clock env) = None →
       endpoint srv componentType lang_query
         (with_Get_outcome (ReadFailed err) env)
       = endpoint srv componentType lang_query
           (with_Get_outcome Answered env))
  ∧ (∀ outcome,
       (endpoint srv componentType lang_query
          (with_Set_outcome outcome env)).1.2
       = (endpoint srv componentType lang_query env).1.2
       ∧ componentCache
           (endpoint srv componentType lang_query
              (with_Set_outcome outcome env)).1.1
         = componentCache (endpoint srv componentType lang_query env).1.1)
  ∧ (∀ store err,
       redisClient srv = Some store →
       (Get (componentCache srv) cacheKey (clock_Get env)).2 = None →
       redis_lookup (Some store) cacheKey env = None →
       redis_Set_outcome env = FailedExecuted err
       ∨ redis_Set_outcome env = FailedNotExecuted err →
       (endpoint srv componentType lang_query env).2
       = ["Warning: Failed to cache in Redis: " +:+ err]).
Proof.
  intros Hreg endpoint cacheKey local_only. subst endpoint.
  pose proof Hreg as [template Ht].
  split; [by apply registered_answered|].
  split; [|split; [|split]].
  - intros Hdown. rewrite !endpoint_branches. cbv zeta. simpl.
    fold cacheKey.
    assert (redis_lookup (redisClient srv) cacheKey env = None) as ->.
    { destruct Hdown as [-> |[err Herr]]; [done|].
      unfold redis_lookup, getFromRedis. rewrite Herr.
      by destruct (redisClient srv). }
    destruct (Get _ _ _).2; simpl; [done|].
    by destruct (getLocalizedComponent _ _ _ _ _ _).
  - intros store err Hclient Habsent. rewrite !endpoint_branches. cbv zeta.
    fold cacheKey. rewrite Hclient.
    assert (∀ o, redis_lookup (Some store) cacheKey
                   (with_Get_outcome o env)
                 = match o with
                   | Answered => None
                   | ReadFailed _ => None
                   end) as Hmiss.
    { intros o. unfold redis_lookup, getFromRedis. simpl.
      destruct o; [by rewrite Habsent|done]. }
    rewrite !Hmiss. reflexivity.
  - intros outcome. rewrite !endpoint_branches. cbv zeta. fold cacheKey.
    simpl.
    assert (redis_lookup (redisClient srv) cacheKey
              (with_Set_outcome outcome env)
            = redis_lookup (redisClient srv) cacheKey env) as -> by done.
    destruct (Get _ _ _).2; simpl; [done|].
    destruct (redis_lookup _ _ _) as [[store c]|]; simpl; [done|].
    by destruct (getLocalizedComponent _ _ _ _ _ _).
  - intros store err Hclient Hlocal Hremote Hfail.
    rewrite endpoint_branches. cbv zeta. fold cacheKey.
    rewrite Hlocal, Hclient, Hremote.
    destruct (generate_registered componentTemplates localizationDB
                componentType (default "en" lang_query)
                (clock_ComponentID env) (clock_LastUpdated env) template Ht)
      as (c & -> & _). simpl.
    unfold setInRedis. by destruct Hfail as [-> | ->].
Qed.

Lemma C6_remote_failures_absorbed_witness :
  let down :=
    MkEnv 0 0 1700000000123000000 1700000000123000000
      (ReadFailed "dial tcp: connection refused") 0
      (FailedNotExecuted "dial tcp: connection refused") 0
      (FailedNotExecuted "dial tcp: connection refused") 0 in
  is_Some (componentTemplates !! "welcome")
  ∧ (∃ component,
       (Lookup (startup true ∅) "welcome" (Some "en") down).1.2
       = StatusOK component)
  ∧ (Lookup (startup true ∅) "welcome" (Some "en") down).2
    = ["Warning: Failed to cache in Redis: dial tcp: connection refused"].
Proof.
  intros down.
  assert (is_Some (componentTemplates !! "welcome")) as Hreg
    by (vm_compute; eexists; reflexivity).
  destruct (C6_remote_failures_absorbed componentTemplates localizationDB
              (startup true ∅) "welcome" (Some "en") down Hreg)
    as (Hok & _ & _ & _ & Hlog).
  split; [exact Hreg|]. split; [exact Hok|].
  apply (Hlog ∅ "dial tcp: connection refused").
  - reflexivity.
  - vm_compute. reflexivity.
  - vm_compute. reflexivity.
  - right. reflexivity.
Defined.

(** C9.  A request whose key has a fresh entry in a well-formed local cache
    is answered with the artifact that [Get] returns and with [Cached] set
    to [true] in the answer: the answer has the fields of the cached
    artifact and the flag [true], whatever flag the cached artifact has,
    and the artifact in the cache keeps its own flag.  Nothing is printed;
    the remote store is the one before the request; the local cache is the
    cache that [Get] leaves, with no [Put]: its map, its timestamps, its
    capacity and its TTL are unchanged, it holds the same entries, and only
    the order of recency differs, the entry of the key having moved to the
    back. *)
Theorem C9_local_hit_writes_nothing
    (componentTemplates : gmap string ComponentTemplate.t)
    (localizationDB : gmap string (gmap string string))
    (srv : Server) (componentType : string) (lang_query : option string)
    (env : Env) (component : LocalizedComponent.t) :
  let cacheKey := request_key localizationDB componentType lang_query in
  let result :=
    getLocalizedComponentEndpoint componentTemplates localizationDB
      srv componentType lang_query env in
  wf (componentCache srv) →
  (Get (componentCache srv) cacheKey (clock_Get env)).2 = Some component →
  result.1.2
  = StatusOK
      (LocalizedComponent.Make
         (LocalizedComponent.ComponentName component)
         (LocalizedComponent.ComponentType component)
         (LocalizedComponent.Language component)
         (LocalizedComponent.Template component)
         (LocalizedComponent.LocalizedData component)
         (LocalizedComponent.Metadata component)
         true)
  ∧ (∀ answered, result.1.2 = StatusOK answered →
       LocalizedComponent.Cached answered = true)
  ∧ ((cacheKey, component) ∈ entries (componentCache result.1.1))
  ∧ result.2 = []
  ∧ redisClient result.1.1 = redisClient srv
  ∧ componentCache result.1.1
    = (Get (componentCache srv) cacheKey (clock_Get env)).1
  ∧ ((cacheKey, component) ∈ entries (componentCache srv))
  ∧ cache (componentCache result.1.1) = cache (componentCache srv)
  ∧ timestamps (componentCache result.1.1) = timestamps (componentCache srv)
  ∧ maxSize (componentCache result.1.1) = maxSize (componentCache srv)
  ∧ ttl (componentCache result.1.1) = ttl (componentCache srv)
  ∧ entries (componentCache result.1.1) ≡ₚ entries (componentCache srv)
  ∧ Size (componentCache result.1.1) = Size (componentCache srv)
  ∧ lru_keys (componentCache result.1.1)
    = without cacheKey (lru_keys (componentCache srv)) ++ [cacheKey].
Proof.
  intros cacheKey result Hwf Hgot. subst result.
  rewrite endpoint_branches. cbv zeta. fold cacheKey. rewrite Hgot. simpl.
  pose proof (Get_found_entry _ _ _ _ Hwf Hgot) as Hentry.
  apply Get_found in Hgot as (e & t & Hc & Ht & Hage).
  destruct (Get_hit _ _ _ e t Hwf Hc Ht Hage)
    as (_ & _ & Hk & Hp & Hcache & Hstamps & Hm & Httl).
  assert (entries (Get (componentCache srv) cacheKey (clock_Get env)).1
          ≡ₚ entries (componentCache srv)) as Hperm.
  { unfold entries. by rewrite Hp. }
  split_and!; try done.
  - by intros answered [= <-].
  - by rewrite Hperm.
  - unfold Size, Len. by rewrite Hp.
Qed.

Lemma C9_local_hit_writes_nothing_witness :
  let env := MkEnv 0 0 0 0 Answered 0 Acknowledged 0 Acknowledged 0 in
  let srv := (Lookup (startup true ∅) "welcome" (Some "en") env).1.1 in
  ∃ component answered,
    (Get (componentCache srv) "component:welcome:en" 5).2 = Some component
    ∧ LocalizedComponent.Cached component = false
    ∧ (Lookup srv "welcome" (Some "en")
         (MkEnv 5 5 5 5 Answered 5 Acknowledged 5 Acknowledged 5)).1.2
      = StatusOK answered
    ∧ LocalizedComponent.Cached answered = true
    ∧ LocalizedComponent.Template answered
      = LocalizedComponent.Template component
    ∧ redisClient
        (Lookup srv "welcome" (Some "en")
           (MkEnv 5 5 5 5 Answered 5 Acknowledged 5 Acknowledged 5)).1.1
      = redisClient srv.
Proof.
  intros env srv.
  assert (wf (componentCache srv)) as Hwf.
  { apply (consistent_wf componentTemplates localizationDB).
    apply endpoint_consistent;
      [apply shipped_langs_utf8|apply startup_empty_consistent]. }
  destruct (Get (componentCache srv) "component:welcome:en" 5).2
    as [component|] eqn:Hgot; [|vm_compute in Hgot; discriminate].
  assert (LocalizedComponent.Cached component = false) as Hflag.
  { revert Hgot. vm_compute. by intros [= <-]. }
  destruct (C9_local_hit_writes_nothing componentTemplates localizationDB
              srv "welcome" (Some "en")
              (MkEnv 5 5 5 5 Answered 5 Acknowledged 5 Acknowledged 5)
              component Hwf Hgot)
    as (Hresp & _ & _ & _ & Hredis & _).
  eexists component, _.
  split; [reflexivity|]. split; [exact Hflag|]. split; [exact Hresp|].
  split; [reflexivity|]. split; [reflexivity|]. exact Hredis.
Defined.

(** * Further properties of the cache *)

Section ViewFacts.
Context {V : Type}.
Implicit Types (c : TTLCache V) (l : list (Element V)) (x : Element V).
#[local] Abbreviation entry_of :=
  (fun x : Element V => (key (Value x), value (Value x))).

Lemma without_entry_absent k (es : list (string * V)) :
  k ∉ es.*1 → without_entry k es = es.
Proof.
  unfold without_entry. induction es as [|[k' v] es IH]; [done|].
  rewrite fmap_cons, not_elem_of_cons. simpl. intros [Hne Hk].
  rewrite filter_cons_True by (simpl; congruence). by rewrite IH.
Qed.

Lemma without_entry_split k v (es1 es2 : list (string * V)) :
  k ∉ es1.*1 → k ∉ es2.*1 →
  without_entry k (es1 ++ (k, v) :: es2) = es1 ++ es2.
Proof.
  intros H1 H2. unfold without_entry.
  rewrite filter_app, filter_cons_False by (simpl; intros ?; done).
  fold (without_entry k es1) (without_entry k es2).
  by rewrite !without_entry_absent.
Qed.

Lemma entries_fst l : (entry_of <$> l).*1 = (fun x => key (Value x)) <$> l.
Proof. by rewrite <- list_fmap_compose. Qed.

Lemma NoDup_fst_functional (es : list (string * V)) k v1 v2 :
  NoDup es.*1 → (k, v1) ∈ es → (k, v2) ∈ es → v1 = v2.
Proof.
  induction es as [|[k' v'] es IH]; [by intros _ H%elem_of_nil|].
  rewrite fmap_cons, NoDup_cons, !elem_of_cons. simpl.
  intros [Hk Hnd] [H1|H1] [H2|H2]; try congruence; try by apply IH.
  - exfalso. apply Hk. injection H1 as <- <-.
    apply list_elem_of_fmap. by exists (k, v2).
  - exfalso. apply Hk. injection H2 as <- <-.
    apply list_elem_of_fmap. by exists (k, v1).
Qed.

(** One value per key. *)
Lemma entries_functional c k v1 v2 :
  wf c → (k, v1) ∈ entries c → (k, v2) ∈ entries c → v1 = v2.
Proof.
  intros Hwf H1 H2. pose proof (wf_keys _ Hwf) as Hnd.
  rewrite <- entries_keys in Hnd.
  by eapply (NoDup_fst_functional (entries c)).
Qed.

Lemma entries_key_linked c k v : (k, v) ∈ entries c → k ∈ lru_keys c.
Proof.
  intros H. rewrite <- entries_keys. apply list_elem_of_fmap.
  by exists (k, v).
Qed.

(** The entries after each branch of [Get] and [Put]. *)
Lemma Get_hit_entries c k now v :
  wf c → (Get c k now).2 = Some v →
  entries (Get c k now).1 = without_entry k (entries c) ++ [(k, v)]
  ∧ timestamps (Get c k now).1 = timestamps c
  ∧ (k, v) ∈ entries c.
Proof.
  intros Hwf Hv. pose proof (Get_found_entry _ _ _ _ Hwf Hv) as Hin.
  pose proof Hv as Hv'.
  apply Get_found in Hv' as (e & t & Hc & Ht & Hage).
  destruct (wf_lookup _ _ _ Hwf Hc)
    as (l1 & x & l2 & El & He & Hk & Hn & Hr & _ & _ & Hk1 & Hk2).
  destruct (Get_hit c k now e t Hwf Hc Ht Hage)
    as ((y & _ & _ & Hy) & Hl & _ & _ & _ & Hts & _).
  split_and!; try done.
  unfold entries. rewrite Hl, (MoveToBack_split _ _ _ _ _ Hn Hr), El.
  rewrite !fmap_app, fmap_cons. simpl. rewrite Hk.
  rewrite without_entry_split by by rewrite entries_fst.
  rewrite <- app_assoc. do 3 f_equal.
  assert ((k, value (Value x)) ∈ entries c) as Hx.
  { unfold entries. rewrite El, fmap_app, fmap_cons, Hk.
    apply elem_of_app. right. left. }
  by rewrite (entries_functional c k _ _ Hwf Hx Hin).
Qed.

Lemma Get_expired_entries c k now e t :
  wf c → cache c !! k = Some e → timestamps c !! k = Some t →
  now - t > ttl c →
  entries (Get c k now).1 = without_entry k (entries c)
  ∧ timestamps (Get c k now).1 = delete k (timestamps c).
Proof.
  intros Hwf Hc Ht Hage.
  destruct (wf_lookup _ _ _ Hwf Hc)
    as (l1 & x & l2 & El & He & Hk & Hn & Hr & _ & _ & Hk1 & Hk2).
  unfold Get. rewrite Hc, Ht.
  destruct (Z.gtb_spec (now - t) (ttl c)); [|lia].
  unfold entries. simpl. rewrite Hr, El.
  rewrite !fmap_app, fmap_cons, Hk.
  by rewrite without_entry_split by by rewrite entries_fst.
Qed.

Lemma Put_existing_entries c k v now e :
  wf c → cache c !! k = Some e →
  entries (Put c k v now) = without_entry k (entries c) ++ [(k, v)]
  ∧ timestamps (Put c k v now) = <[k := now]> (timestamps c).
Proof.
  intros Hwf Hc.
  destruct (wf_lookup _ _ _ Hwf Hc)
    as (l1 & x & l2 & El & He & Hk & Hn & Hr & H1 & H2 & Hk1 & Hk2).
  unfold Put. rewrite Hc. unfold entries. simpl.
  rewrite (MoveToBack_split _ _ _ _ _ Hn Hr).
  rewrite set_value_back by done. rewrite El.
  rewrite !fmap_app, fmap_cons. simpl. rewrite Hk.
  rewrite without_entry_split by by rewrite entries_fst.
  by rewrite <- app_assoc.
Qed.

Lemma Put_new_entries c k v now :
  wf c → cache c !! k = None →
  entries (Put c k v now)
  = (if Size c >=? maxSize c then tail (entries c) else entries c)
    ++ [(k, v)]
  ∧ timestamps (Put c k v now)
    = <[k := now]>
        (if Size c >=? maxSize c
         then match head (lru_keys c) with
              | Some oldest => delete oldest (timestamps c)
              | None => timestamps c
              end
         else timestamps c).
Proof.
  intros Hwf Hc. unfold Put. rewrite Hc. unfold Size.
  destruct (Len (lruList c) >=? maxSize c).
  2:{ unfold entries, PushBack. simpl. by rewrite fmap_app. }
  unfold entries, lru_keys, PushBack, Front.
  pose proof (wf_nodes _ Hwf) as Hn.
  destruct (lruList c) as [|oldest rest] eqn:El; simpl; rewrite ?El;
    [done|].
  rewrite fmap_cons in Hn. apply NoDup_cons in Hn as [Hn _].
  rewrite Remove_here, Remove_absent by done. by rewrite fmap_app.
Qed.

Lemma linked_iff c k :
  wf c → (is_Some (cache c !! k) ↔ k ∈ (entries c).*1).
Proof. intros Hwf. rewrite entries_keys. by apply wf_lookup_keys. Qed.

(** [Get] and [Put] see a cache only through its view. *)
Lemma same_view_Get c c' k now :
  wf c → wf c' → same_view c c' →
  (Get c k now).2 = (Get c' k now).2
  ∧ same_view (Get c k now).1 (Get c' k now).1.
Proof.
  intros Hwf Hwf' (He & Ht & Hm & Httl).
  destruct (cache c !! k) as [e|] eqn:Hc.
  - assert (is_Some (cache c' !! k)) as [e' Hc'].
    { apply linked_iff; [done|]. rewrite <- He. apply linked_iff; eauto. }
    destruct (Get_stamped _ _ _ Hwf Hc) as [t Hts].
    assert (timestamps c' !! k = Some t) as Hts' by by rewrite <- Ht.
    destruct (Z_le_gt_dec (now - t) (ttl c)) as [Hage|Hage].
    + destruct (Get_hit c k now e t Hwf Hc Hts Hage)
        as ((x & _ & _ & Hx) & _).
      destruct (Get_hit c' k now e' t Hwf' Hc' Hts' ltac:(lia))
        as ((x' & _ & _ & Hx') & _ & _ & _ & _ & _ & Hm' & Httl').
      destruct (Get_hit_entries c k now _ Hwf Hx) as (E1 & T1 & I1).
      destruct (Get_hit_entries c' k now _ Hwf' Hx') as (E1' & T1' & I1').
      rewrite <- He in I1'.
      pose proof (entries_functional c k _ _ Hwf I1 I1') as Ev.
      split; [congruence|].
      unfold same_view. rewrite E1, E1', T1, T1', He, Ev.
      rewrite !maxSize_Get, !ttl_Get. done.
    + destruct (Get_expired c k now e t Hwf Hc Hts Hage) as (R1 & _).
      destruct (Get_expired c' k now e' t Hwf' Hc' Hts' ltac:(lia))
        as (R1' & _).
      destruct (Get_expired_entries c k now e t Hwf Hc Hts Hage) as (E1 & T1).
      destruct (Get_expired_entries c' k now e' t Hwf' Hc' Hts' ltac:(lia))
        as (E1' & T1').
      split; [congruence|].
      unfold same_view. rewrite E1, E1', T1, T1', He, Ht.
      rewrite !maxSize_Get, !ttl_Get. done.
  - assert (cache c' !! k = None) as Hc'.
    { destruct (cache c' !! k) eqn:E; [|done].
      assert (is_Some (cache c !! k)) as [? ?]; [|congruence].
      apply linked_iff; [done|]. rewrite He. apply linked_iff; eauto. }
    rewrite !Get_miss by done. done.
Qed.

Lemma same_view_Size c c' : same_view c c' → Size c = Size c'.
Proof.
  intros (He & _). unfold Size, Len.
  rewrite <- (length_fmap entry_of (lruList c)).
  rewrite <- (length_fmap entry_of (lruList c')).
  fold (entries c) (entries c'). by rewrite He.
Qed.

Lemma same_view_Put c c' k v now :
  wf c → wf c' → same_view c c' →
  same_view (Put c k v now) (Put c' k v now).
Proof.
  intros Hwf Hwf' Hview. pose proof Hview as (He & Ht & Hm & Httl).
  pose proof (same_view_Size _ _ Hview) as Hs.
  assert (lru_keys c = lru_keys c') as Hk
    by by rewrite <- !entries_keys, He.
  destruct (cache c !! k) as [e|] eqn:Hc.
  - assert (is_Some (cache c' !! k)) as [e' Hc'].
    { apply linked_iff; [done|]. rewrite <- He. apply linked_iff; eauto. }
    destruct (Put_existing_entries c k v now e Hwf Hc) as (E1 & T1).
    destruct (Put_existing_entries c' k v now e' Hwf' Hc') as (E1' & T1').
    unfold same_view. rewrite E1, E1', T1, T1', He, Ht.
    rewrite !maxSize_Put, !ttl_Put. done.
  - assert (cache c' !! k = None) as Hc'.
    { destruct (cache c' !! k) eqn:E; [|done].
      assert (is_Some (cache c !! k)) as [? ?]; [|congruence].
      apply linked_iff; [done|]. rewrite He. apply linked_iff; eauto. }
    destruct (Put_new_entries c k v now Hwf Hc) as (E1 & T1).
    destruct (Put_new_entries c' k v now Hwf' Hc') as (E1' & T1').
    unfold same_view. rewrite E1, E1', T1, T1', He, Ht, Hs, Hm, Hk.
    rewrite !maxSize_Put, !ttl_Put. done.
Qed.

Lemma same_view_calls c c' ops :
  wf c → wf c' → same_view c c' →
  answers c ops = answers c' ops
  ∧ same_view (calls c ops) (calls c' ops).
Proof.
  unfold calls. revert c c'.
  induction ops as [|[k now|k v now] ops IH]; intros c c' Hwf Hwf' Hview;
    simpl; [done| |].
  - destruct (same_view_Get c c' k now Hwf Hwf' Hview) as [Hr Hv].
    destruct (IH _ _ (wf_Get c k now Hwf) (wf_Get c' k now Hwf') Hv)
      as [Ha Hc].
    split; [by rewrite Hr, Ha|done].
  - apply IH; [by apply wf_Put|by apply wf_Put|by apply same_view_Put].
Qed.
End ViewFacts.

Section CacheExtras.
Context {V : Type}.
Implicit Types (c : TTLCache V) (ops : list (Call V)).

Lemma timestamps_Put c k v now : timestamps (Put c k v now) !! k = Some now.
Proof.
  unfold Put. destruct (cache c !! k); simpl; apply lookup_insert_eq.
Qed.

Lemma Put_entry_linked c k v now : wf c → (k, v) ∈ entries (Put c k v now).
Proof.
  intros Hwf. destruct (cache c !! k) as [e|] eqn:Hc.
  - destruct (Put_existing_entries c k v now e Hwf Hc) as [-> _].
    apply elem_of_app. right. left.
  - destruct (Put_new_entries c k v now Hwf Hc) as [-> _].
    apply elem_of_app. right. left.
Qed.

(** What is put is read back until the TTL has passed. *)
Lemma Put_Get c k v now now' :
  wf c →
  (Get (Put c k v now) k now').2
  = if now' - now >? ttl c then None else Some v.
Proof.
  intros Hwf. pose proof (wf_Put c k v now Hwf) as Hwf'.
  destruct (Put_lookup c k v now) as [e He].
  pose proof (timestamps_Put c k v now) as Ht.
  destruct (Z.gtb_spec (now' - now) (ttl c)) as [Hage|Hage].
  - rewrite <- (ttl_Put c k v now) in Hage.
    by destruct (Get_expired _ k now' e now Hwf' He Ht ltac:(lia)) as [-> _].
  - rewrite <- (ttl_Put c k v now) in Hage.
    destruct (Get_hit _ k now' e now Hwf' He Ht Hage)
      as ((x & _ & _ & Hx) & _).
    pose proof (Get_found_entry _ _ _ _ Hwf' Hx) as Hin.
    rewrite Hx. f_equal.
    exact (entries_functional _ k _ _ Hwf' Hin (Put_entry_linked c k v now Hwf)).
Qed.

(** The timestamp of a key is left alone, or the key is dropped, by a call
    that is not a [Put] of that key. *)
Lemma timestamps_call_other c k op :
  not_Put_of k op = true →
  timestamps (call c op) !! k = timestamps c !! k
  ∨ timestamps (call c op) !! k = None.
Proof.
  destruct op as [k' now|k' v now]; simpl.
  - intros _. unfold Get.
    destruct (cache c !! k') as [e|]; [|by left].
    assert (∀ e, timestamps (drop_entry c k' e) !! k = timestamps c !! k
                 ∨ timestamps (drop_entry c k' e) !! k = None) as Hdrop.
    { intros e0. simpl. destruct (decide (k' = k)) as [->|Hne].
      - right. apply lookup_delete_eq.
      - left. by apply lookup_delete_ne. }
    destruct (timestamps c !! k') as [t|]; [|apply Hdrop].
    destruct (_ >? _); [apply Hdrop|].
    destruct (node _ _); by left.
  - intros Hne. apply negb_true_iff, String.eqb_neq in Hne.
    unfold Put. destruct (cache c !! k') as [e|]; simpl.
    { left. by rewrite lookup_insert_ne. }
    rewrite lookup_insert_ne by done.
    destruct (_ >=? _); [|by left].
    destruct (Front _) as [oldest|]; [|by left]. simpl.
    destruct (decide (key (Value oldest) = k)) as [->|Hne'].
    + right. apply lookup_delete_eq.
    + left. by apply lookup_delete_ne.
Qed.

Lemma ttl_call c op : ttl (call c op) = ttl c.
Proof. destruct op; simpl; [apply ttl_Get|apply ttl_Put]. Qed.

Lemma wf_Clear c : wf (Clear c).
Proof.
  split; simpl; try apply NoDup_nil_2.
  - intros k e. rewrite lookup_empty. split; [done|].
    intros (x & Hx & _). by apply elem_of_nil in Hx.
  - intros x Hx. by apply elem_of_nil in Hx.
  - by rewrite !dom_empty_L.
Qed.

Lemma dom_cache_keys c :
  wf c → dom (cache c) = list_to_set (lru_keys c).
Proof.
  intros Hwf. apply set_eq. intros k.
  rewrite elem_of_dom, elem_of_list_to_set. by apply wf_lookup_keys.
Qed.
End CacheExtras.

(** X1.  In a cache reached by any calls, a value put under a key is what
    the next [Get] of that key returns as long as the clock of the [Get] is
    at most the TTL after the clock of the [Put] (the boundary included);
    past that the [Get] finds nothing.  The [Put] may replace an entry or
    create one, at any capacity. *)
Theorem X1_Put_then_Get_until_TTL {V : Type} (N t : Z) (ops : list (Call V))
    (k : string) (v : V) (now now' : Z) :
  let c := calls (NewTTLCache N t) ops in
  (Get (Put c k v now) k now').2 = if now' - now >? t then None else Some v.
Proof.
  intros c. subst c. rewrite Put_Get by apply wf_started.
  by rewrite ttl_calls.
Qed.

(** X2.  Reads do not extend the life of an entry.  After a [Put] of a key
    at clock [t0], whatever [Get]s (of any key) and [Put]s of other keys
    follow, a [Get] of the key at a clock more than the TTL after [t0]
    finds nothing: only a new [Put] of the key restarts its TTL. *)
Theorem X2_reads_do_not_refresh {V : Type} (N t : Z)
    (before after : list (Call V)) (k : string) (v : V) (t0 now : Z) :
  forallb (not_Put_of k) after = true →
  now - t0 > t →
  let c := calls (Put (calls (NewTTLCache N t) before) k v t0) after in
  (Get c k now).2 = None.
Proof.
  intros Hafter Hage c.
  set (c1 := Put (calls (NewTTLCache N t) before) k v t0) in *.
  assert (wf c1) as Hwf1 by apply wf_Put, wf_started.
  assert (ttl c1 = t) as Httl1.
  { unfold c1. rewrite ttl_Put. apply ttl_calls. }
  assert (timestamps c1 !! k = Some t0) as Hts1 by apply timestamps_Put.
  assert (wf c ∧ ttl c = t
          ∧ (timestamps c !! k = Some t0 ∨ timestamps c !! k = None))
    as (Hwf & Httl & Hts).
  { subst c. unfold calls. clearbody c1. revert c1 Hwf1 Httl1 Hts1.
    assert (∀ c1, wf c1 → ttl c1 = t →
              timestamps c1 !! k = Some t0 ∨ timestamps c1 !! k = None →
              wf (foldl call c1 after) ∧ ttl (foldl call c1 after) = t
              ∧ (timestamps (foldl call c1 after) !! k = Some t0
                 ∨ timestamps (foldl call c1 after) !! k = None)) as H.
    { induction after as [|op after IH]; intros c1 Hwf1 Httl1 Hts1;
        simpl; [done|].
      simpl in Hafter. apply andb_true_iff in Hafter as [Hop Hafter].
      apply IH; [done|by apply wf_call|by rewrite ttl_call|].
      destruct (timestamps_call_other c1 k op Hop) as [->| ->]; auto. }
    intros c1 Hwf1 Httl1 Hts1. apply H; auto. }
  destruct (cache c !! k) as [e|] eqn:Hc; [|by rewrite Get_miss].
  destruct (Get_stamped _ _ _ Hwf Hc) as [ts Hst].
  destruct Hts as [Hts|Hts]; [|congruence].
  assert (ts = t0) as -> by congruence.
  by destruct (Get_expired c k now e t0 Hwf Hc Hst ltac:(lia)) as [-> _].
Qed.

Lemma X2_reads_do_not_refresh_witness :
  forallb (not_Put_of "a")
    [CallGet "a" 5; CallPut "b" 2 6; CallGet "a" (CacheTTL - 1)] = true
  ∧ (CacheTTL + 1) - 0 > CacheTTL
  ∧ (Get (calls (Put (calls (NewTTLCache 2 CacheTTL) []) "a" 1 0)
            [CallGet "a" 5; CallPut "b" 2 6; CallGet "a" (CacheTTL - 1)])
       "a" (CacheTTL + 1)).2 = None.
Proof.
  split; [reflexivity|]. split; [reflexivity|].
  apply (X2_reads_do_not_refresh 2 CacheTTL [] _ "a" 1 0 (CacheTTL + 1));
    reflexivity.
Defined.

(** X3.  In a cache reached by any calls the three structures agree: no key
    occurs twice in the recency list, a key is in the list exactly when the
    map has it and exactly when it has a timestamp, and [Size] is the number
    of keys of the map and of the timestamps. *)
Theorem X3_structures_agree {V : Type} (N t : Z) (ops : list (Call V)) :
  let c := calls (NewTTLCache N t) ops in
  NoDup (lru_keys c)
  ∧ (∀ k, k ∈ lru_keys c ↔ is_Some (cache c !! k))
  ∧ (∀ k, is_Some (cache c !! k) ↔ is_Some (timestamps c !! k))
  ∧ Size c = Z.of_nat (size (cache c))
  ∧ size (timestamps c) = size (cache c).
Proof.
  intros c. assert (wf c) as Hwf by apply wf_started.
  split; [apply (wf_keys _ Hwf)|].
  split; [intros k; symmetry; by apply wf_lookup_keys|].
  split.
  { intros k. rewrite <- !elem_of_dom. by rewrite (wf_stamps _ Hwf). }
  assert (size (cache c) = length (lru_keys c)) as Hsize.
  { rewrite <- size_dom, dom_cache_keys by done.
    apply size_list_to_set, (wf_keys _ Hwf). }
  split.
  - by rewrite Size_lru_keys, Hsize.
  - by rewrite <- !size_dom, (wf_stamps _ Hwf).
Qed.

(** X4.  A [Put] under a key the cache already holds evicts nothing, at any
    capacity: [Size] is unchanged, the keys are the same with the key put
    now last in the order of recency, and every other key keeps its value
    and its timestamp. *)
Theorem X4_overwrite_evicts_nothing {V : Type} (N t : Z)
    (ops : list (Call V)) (k : string) (v : V) (now : Z) :
  let c := calls (NewTTLCache N t) ops in
  k ∈ lru_keys c →
  Size (Put c k v now) = Size c
  ∧ lru_keys (Put c k v now) = without k (lru_keys c) ++ [k]
  ∧ lru_keys (Put c k v now) ≡ₚ lru_keys c
  ∧ (∀ k' v', k' ≠ k →
       ((k', v') ∈ entries (Put c k v now) ↔ (k', v') ∈ entries c)
       ∧ timestamps (Put c k v now) !! k' = timestamps c !! k').
Proof.
  intros c Hin. assert (wf c) as Hwf by apply wf_started.
  apply wf_lookup_keys in Hin as [e Hc]; [|done].
  destruct (Put_existing c k v now e Hwf Hc) as (Hk & Hs & _ & Hts).
  destruct (Put_existing_entries c k v now e Hwf Hc) as (He & _).
  destruct (wf_lookup _ _ _ Hwf Hc)
    as (l1 & x & l2 & El & _ & Hkx & _ & _ & _ & _ & Hk1 & Hk2).
  split_and!; try done.
  - rewrite Hk. unfold lru_keys. rewrite El, fmap_app, fmap_cons, Hkx.
    rewrite without_split by done.
    rewrite <- app_assoc. apply Permutation_app_head.
    symmetry. apply Permutation_cons_append.
  - intros k' v' Hne. split; [|by rewrite Hts, lookup_insert_ne].
    rewrite He, elem_of_app, list_elem_of_singleton.
    unfold without_entry. rewrite list_elem_of_filter. simpl.
    split; [intros [[_ ?]|[= ? ?]]; [done|congruence]|tauto].
Qed.

Lemma X4_overwrite_evicts_nothing_witness :
  let c := calls (NewTTLCache 2 CacheTTL) [CallPut "a" 1 0; CallPut "b" 2 1] in
  ("a" ∈ lru_keys c)
  ∧ Size (Put c "a" 3 2) = Size c
  ∧ lru_keys (Put c "a" 3 2) = without "a" (lru_keys c) ++ ["a"].
Proof.
  intros c.
  assert ("a" ∈ lru_keys c) as Hin.
  { apply (bool_decide_unpack (_ ∈ _)). vm_compute. exact I. }
  split; [exact Hin|].
  destruct (X4_overwrite_evicts_nothing 2 CacheTTL
              [CallPut "a" 1 0; CallPut "b" 2 1] "a" 3 2 Hin)
    as (Hs & Hk & _).
  split; [exact Hs|exact Hk].
Defined.

(** X5.  [Clear] leaves a cache that behaves as a new one of the same
    capacity and TTL: it is empty, and whatever calls follow, every [Get]
    gives the answer it gives on the new cache, and the two caches end with
    the same entries in the same order of recency and the same timestamps. *)
Theorem X5_Clear_is_a_new_cache {V : Type} (N t : Z)
    (before after : list (Call V)) :
  let c := calls (NewTTLCache N t) before in
  Size (Clear c) = 0
  ∧ answers (Clear c) after = answers (NewTTLCache N t) after
  ∧ entries (calls (Clear c) after)
    = entries (calls (NewTTLCache N t) after)
  ∧ timestamps (calls (Clear c) after)
    = timestamps (calls (NewTTLCache N t) after).
Proof.
  intros c. split; [done|].
  assert (same_view (Clear c) (NewTTLCache N t)) as Hview.
  { unfold same_view. simpl. split_and!; try done.
    - apply maxSize_calls.
    - apply ttl_calls. }
  destruct (same_view_calls (Clear c) (NewTTLCache N t) after
              (wf_Clear c) (wf_New N t) Hview) as (Ha & He & Ht & _).
  done.
Qed.

(** * The order of recency *)

Section RecencyFacts.
Context {V : Type}.
Implicit Types (c : TTLCache V) (k : string) (v : V).

(** A linked entry that has not expired is what [Get] returns. *)
Lemma Get_linked c k v now t :
  wf c → (k, v) ∈ entries c → timestamps c !! k = Some t →
  now - t ≤ ttl c → (Get c k now).2 = Some v.
Proof.
  intros Hwf Hin Ht Hage.
  assert (is_Some (cache c !! k)) as [e He].
  { apply linked_iff; [done|]. apply list_elem_of_fmap. by exists (k, v). }
  destruct (Get_hit c k now e t Hwf He Ht Hage) as ((x & _ & _ & Hx) & _).
  rewrite Hx. f_equal.
  exact (entries_functional c k _ _ Hwf (Get_found_entry _ _ _ _ Hwf Hx) Hin).
Qed.

(** A [Put] of a new key: appended when there is room, in place of the
    front entry when there is none. *)
Lemma Put_room c k v now :
  wf c → k ∉ lru_keys c → Size c < maxSize c →
  entries (Put c k v now) = entries c ++ [(k, v)]
  ∧ timestamps (Put c k v now) = <[k := now]> (timestamps c).
Proof.
  intros Hwf Hk Hroom.
  destruct (Put_new_entries c k v now Hwf (lookup_absent c k Hwf Hk))
    as [He Ht].
  rewrite He, Ht, Z.geb_leb.
  by destruct (Z.leb_spec (maxSize c) (Size c)); [lia|].
Qed.

Lemma Put_full c k v now :
  wf c → k ∉ lru_keys c → maxSize c ≤ Size c →
  entries (Put c k v now) = tail (entries c) ++ [(k, v)].
Proof.
  intros Hwf Hk Hfull.
  destruct (Put_new_entries c k v now Hwf (lookup_absent c k Hwf Hk))
    as [He _].
  rewrite He, Z.geb_leb.
  by destruct (Z.leb_spec (maxSize c) (Size c)); [|lia].
Qed.

Lemma Size_entries c : Size c = Z.of_nat (length (entries c)).
Proof. by rewrite Size_lru_keys, <- entries_keys, length_fmap. Qed.
End RecencyFacts.

(** A key is not among keys it differs from. *)
Ltac not_among :=
  repeat (apply not_elem_of_cons; split; [congruence|]);
  apply not_elem_of_nil.

(** C8.  Capacity 3, keys [a], [b], [c], [d] pairwise distinct, any values,
    any clock readings with the [Get] of [a] no later than the TTL after its
    [Put].  After the [Put]s of [a], [b], [c] the cache holds the three
    keys in that order; the [Get] of [a] finds its value and moves [a]
    behind [c]; the [Put] of [d] then unlinks [b], the front entry, and not
    [a]: the cache ends with [c], [a], [d] and their values.  In general,
    on every cache reached by calls, a [Get] that finds its key moves that
    entry to the back of the recency order and leaves the order of the other
    entries as it was, and a [Put] of a new key into a cache that holds at
    least [maxSize] entries unlinks the entry at the front of that order. *)
Theorem C8_recency_order {V : Type} (ttl0 : Z) (a b c d : string)
    (va vb vc vd : V) (t1 t2 t3 t4 t5 : Z) :
  NoDup [a; b; c; d] →
  t4 - t1 ≤ ttl0 →
  let c3 := Put (Put (Put (NewTTLCache 3 ttl0) a va t1) b vb t2) c vc t3 in
  let c4 := (Get c3 a t4).1 in
  let c5 := Put c4 d vd t5 in
  (lru_keys c3 = [a; b; c]
   ∧ (Get c3 a t4).2 = Some va
   ∧ lru_keys c4 = [b; c; a]
   ∧ lru_keys c5 = [c; a; d]
   ∧ entries c5 = [(c, vc); (a, va); (d, vd)]
   ∧ (b ∉ lru_keys c5) ∧ (a ∈ lru_keys c5))
  ∧ (∀ (N t : Z) (ops : list (Call V)) k now v,
       let c := calls (NewTTLCache N t) ops in
       (Get c k now).2 = Some v →
       lru_keys (Get c k now).1 = without k (lru_keys c) ++ [k])
  ∧ (∀ (N t : Z) (ops : list (Call V)) k v now,
       let c := calls (NewTTLCache N t) ops in
       cache c !! k = None → N ≤ Size c →
       lru_keys (Put c k v now) = tail (lru_keys c) ++ [k]).
Proof.
  intros Hnd Hage.
  set (c0 := NewTTLCache 3 ttl0).
  set (c1 := Put c0 a va t1). set (c2 := Put c1 b vb t2).
  intros c3 c4 c5. split; [|split].
  - assert (a ≠ b ∧ a ≠ c ∧ a ≠ d ∧ b ≠ c ∧ b ≠ d ∧ c ≠ d) as Hne.
    { apply NoDup_cons in Hnd as [Ha Hnd]. apply NoDup_cons in Hnd as [Hb Hnd].
      apply NoDup_cons in Hnd as [Hc _].
      apply not_elem_of_cons in Ha as [? Ha].
      apply not_elem_of_cons in Ha as [? Ha].
      apply not_elem_of_cons in Ha as [? _].
      apply not_elem_of_cons in Hb as [? Hb].
      apply not_elem_of_cons in Hb as [? _].
      apply not_elem_of_cons in Hc as [? _]. done. }
    destruct Hne as (Hab & Hac & Had & Hbc & Hbd & Hcd).
    assert (wf c0) as Hwf0 by apply wf_New.
    assert (wf c1) as Hwf1 by by apply wf_Put.
    assert (wf c2) as Hwf2 by by apply wf_Put.
    assert (wf c3) as Hwf3 by by apply wf_Put.
    assert (wf c4) as Hwf4 by by apply wf_Get.
    assert (maxSize c3 = 3 ∧ maxSize c2 = 3 ∧ maxSize c1 = 3 ∧ ttl c3 = ttl0)
      as (Hm3 & Hm2 & Hm1 & Httl).
    { unfold c3, c2, c1. by rewrite !maxSize_Put, !ttl_Put. }
    destruct (Put_room c0 a va t1 Hwf0) as [E1 T1].
    { unfold lru_keys. simpl. apply not_elem_of_nil. }
    { done. }
    change (entries c0) with (@nil (string * V)) in E1. simpl in E1.
    change (timestamps c0) with (∅ : gmap string Z) in T1.
    destruct (Put_room c1 b vb t2 Hwf1) as [E2 T2].
    { rewrite <- entries_keys. fold c1 in E1. rewrite E1. simpl.
      not_among. }
    { rewrite Size_entries. fold c1 in E1. rewrite E1, Hm1. simpl. lia. }
    fold c1 in E1, T1. rewrite E1 in E2. rewrite T1 in T2. simpl in E2.
    destruct (Put_room c2 c vc t3 Hwf2) as [E3 T3].
    { rewrite <- entries_keys. fold c2 in E2. rewrite E2. simpl.
      not_among. }
    { rewrite Size_entries. fold c2 in E2. rewrite E2, Hm2. simpl. lia. }
    fold c2 in E2, T2. rewrite E2 in E3. rewrite T2 in T3. simpl in E3.
    fold c3 in E3, T3.
    assert ((Get c3 a t4).2 = Some va) as Hgot.
    { apply (Get_linked c3 a va t4 t1); [done| | |by rewrite Httl].
      - rewrite E3. apply elem_of_cons. by left.
      - rewrite T3. rewrite lookup_insert_ne by congruence.
        rewrite lookup_insert_ne by congruence. apply lookup_insert_eq. }
    destruct (Get_hit_entries c3 a t4 va Hwf3 Hgot) as (E4 & _ & _).
    assert (without_entry a [(a, va); (b, vb); (c, vc)]
            = [(b, vb); (c, vc)]) as Hw.
    { apply (without_entry_split a va [] [(b, vb); (c, vc)]);
        [apply not_elem_of_nil|simpl; not_among]. }
    rewrite E3, Hw in E4. simpl in E4. fold c4 in E4.
    assert (entries c5 = [(c, vc); (a, va); (d, vd)]) as E5.
    { unfold c5. rewrite Put_full; [by rewrite E4|done| |].
      - rewrite <- entries_keys, E4. simpl. not_among.
      - unfold c4. rewrite maxSize_Get, Hm3. fold c4.
        rewrite Size_entries, E4. simpl. lia. }
    rewrite <- !entries_keys, E3, E4, E5. simpl.
    split_and!; try done.
    + not_among.
    + apply elem_of_cons. right. apply elem_of_cons. by left.
  - intros N t ops k now v c' Hfound.
    apply Get_found in Hfound as (e & ts & Hc & Ht & Hage').
    assert (wf c') as Hwf by apply wf_started.
    by destruct (Get_hit c' k now e ts Hwf Hc Ht Hage') as (_ & _ & -> & _).
  - intros N t ops k v now c' Hc Hfull.
    assert (wf c') as Hwf by apply wf_started.
    rewrite Put_new by done.
    assert (maxSize c' = N) as -> by apply maxSize_calls.
    rewrite Z.geb_leb. by destruct (Z.leb_spec N (Size c')); [|lia].
Qed.

Lemma C8_recency_order_witness :
  NoDup ["a"; "b"; "c"; "d"]
  ∧ 3 - 0 ≤ CacheTTL
  ∧ (Get (Put (Put (Put (NewTTLCache 3 CacheTTL) "a" 1 0) "b" 2 1) "c" 3 2)
       "a" 3).2 = Some 1
  ∧ lru_keys
      (Put (Get (Put (Put (Put (NewTTLCache 3 CacheTTL) "a" 1 0) "b" 2 1)
                     "c" 3 2) "a" 3).1 "d" 4 4)
    = ["c"; "a"; "d"].
Proof.
  assert (NoDup ["a"; "b"; "c"; "d"]) as Hnd.
  { apply (bool_decide_unpack (NoDup _)). vm_compute. exact I. }
  assert (3 - 0 ≤ CacheTTL) as Hage by (vm_compute; discriminate).
  split; [exact Hnd|]. split; [exact Hage|].
  pose proof (C8_recency_order CacheTTL "a" "b" "c" "d" 1 2 3 4 0 1 2 3 4
                Hnd Hage) as [H _].
  split; [exact (proj1 (proj2 H))|].
  exact (proj1 (proj2 (proj2 (proj2 H)))).
Defined.

(** C8 as stated fails at capacity 2: the [Put] of [c] has unlinked [a]
    before the access, so the [Get] of [a] finds nothing and moves nothing,
    and [a] is not in the cache after the [Put] of [d]. *)
Lemma C8_capacity_2_counterexample :
  let c3 :=
    Put (Put (Put (NewTTLCache 2 CacheTTL) "a" 1 0) "b" 2 1) "c" 3 2 in
  let c5 := Put (Get c3 "a" 3).1 "d" 4 4 in
  (Get c3 "a" 3).2 = None
  ∧ lru_keys (Get c3 "a" 3).1 = lru_keys c3
  ∧ ¬ ("a" ∈ lru_keys c5)
  ∧ lru_keys c5 = ["c"; "d"].
Proof.
  vm_compute. split; [reflexivity|]. split; [reflexivity|].
  split; [|reflexivity].
  apply (bool_decide_unpack (¬ (_ ∈ _))). vm_compute. exact I.
Qed.

(** * Properties of the limiter, the health check and the routes *)

Lemma count_cons {A} (p : A → bool) (a : A) (l : list A) :
  count p (a :: l) = (if p a then 1 else 0) + count p l.
Proof. unfold count. simpl. destruct (p a); simpl; lia. Qed.

Lemma limiter_run_tokens (s s_end : Semaphore) (events : list Event)
    (decisions : list Admission) :
  0 ≤ sem_len s ≤ sem_cap s →
  limiter_run s events = Some (s_end, decisions) →
  0 ≤ sem_len s_end ≤ sem_cap s_end
  ∧ sem_cap s_end = sem_cap s
  ∧ sem_len s_end
    = sem_len s + count is_Next decisions - count is_Leave events
  ∧ Z.of_nat (length decisions) = count is_Arrive events.
Proof.
  revert s decisions.
  induction events as [|[|] events IH]; intros s decisions Hs; simpl.
  - intros [= <- <-]. unfold count. simpl. lia.
  - unfold try_send.
    destruct (Z.ltb_spec (sem_len s) (sem_cap s)) as [Hroom|Hfull].
    + destruct (limiter_run _ events) as [[s1 ds]|] eqn:E; [|done].
      intros [= <- <-]. apply IH in E; [|simpl; lia].
      rewrite !count_cons. simpl in *. lia.
    + destruct (limiter_run _ events) as [[s1 ds]|] eqn:E; [|done].
      intros [= <- <-]. apply IH in E; [|done].
      rewrite !count_cons. simpl in *. lia.
  - destruct (Z.ltb_spec 0 (sem_len s)) as [Hheld|]; [|done].
    intros E. apply IH in E; [|simpl; lia].
    rewrite !count_cons. simpl in *. lia.
Qed.

Lemma limiter_run_burst (s : Semaphore) (n : nat) :
  0 ≤ sem_len s ≤ sem_cap s →
  let room := Z.to_nat (sem_cap s - sem_len s) in
  limiter_run s (repeat Arrive n)
  = Some (MkSemaphore (sem_cap s) (sem_len s + Z.of_nat (n `min` room)),
          repeat Next (n `min` room) ++ repeat at_capacity (n - room)).
Proof.
  revert s. induction n as [|n IH]; intros s Hs room; simpl.
  - destruct s as [cap len]. simpl in *. rewrite Z.add_0_r. done.
  - unfold try_send.
    destruct (Z.ltb_spec (sem_len s) (sem_cap s)) as [Hroom|Hfull].
    + rewrite IH by (simpl; lia). simpl.
      replace (Z.to_nat (sem_cap s - (sem_len s + 1))) with (room - 1)%nat
        by (subst room; lia).
      destruct room as [|r] eqn:Er; [subst room; lia|].
      simpl. rewrite Nat.sub_0_r. do 3 f_equal. lia.
    + rewrite IH by done. fold room.
      assert (room = 0%nat) as -> by (subst room; lia).
      rewrite !Nat.min_0_r, !Nat.sub_0_r. simpl. do 2 f_equal.
Qed.

(** X6.  The limiter never holds more tokens than its limit.  For a limiter
    made with a limit that is not negative and for every run of arrivals
    and returns: the number of tokens held stays between 0 and the limit;
    it is the number of requests admitted minus the number that have
    returned; every arrival gets one decision; and a burst of [n] arrivals
    with no return in between admits the first [limit] of them and answers
    503 to all the others. *)
Theorem X6_limiter_bounds_in_flight (limit : Z) (s0 : Semaphore) :
  make_semaphore limit = Some s0 →
  (∀ events s_end decisions,
     limiter_run s0 events = Some (s_end, decisions) →
     0 ≤ sem_len s_end ≤ limit
     ∧ sem_len s_end = count is_Next decisions - count is_Leave events
     ∧ Z.of_nat (length decisions) = count is_Arrive events)
  ∧ (∀ n : nat,
       limiter_run s0 (repeat Arrive n)
       = Some (MkSemaphore limit (Z.of_nat n `min` limit),
               repeat Next (n `min` Z.to_nat limit)
               ++ repeat at_capacity (n - Z.to_nat limit))).
Proof.
  unfold make_semaphore. destruct (Z.ltb_spec limit 0); [done|].
  intros [= <-]. split.
  - intros events s_end decisions E.
    apply limiter_run_tokens in E; simpl in *; lia.
  - intros n. rewrite limiter_run_burst by (simpl; lia). simpl.
    rewrite Z.sub_0_r. do 3 f_equal. lia.
Qed.

Lemma X6_limiter_bounds_in_flight_witness :
  make_semaphore ConcurrencyLimit = Some (MkSemaphore 2 0)
  ∧ limiter_run (MkSemaphore 2 0) (repeat Arrive 3)
    = Some (MkSemaphore 2 2, [Next; Next; at_capacity]).
Proof.
  split; [reflexivity|].
  exact (proj2 (X6_limiter_bounds_in_flight ConcurrencyLimit
                  (MkSemaphore 2 0) eq_refl) 3%nat).
Defined.

Section ServerExtras.
Context (componentTemplates : gmap string ComponentTemplate.t).
Context (localizationDB : gmap string (gmap string string)).
Implicit Types (srv : Server) (env : Env).
#[local] Abbreviation endpoint :=
  (getLocalizedComponentEndpoint componentTemplates localizationDB).
#[local] Abbreviation key_of := (request_key localizationDB).
#[local] Abbreviation generate :=
  (getLocalizedComponent componentTemplates localizationDB).
#[local] Abbreviation serve' := (serve componentTemplates localizationDB).

(** The local cache after a request: the cache after the [Get], or that
    cache after a [Put] under the key of the request. *)
Lemma endpoint_cache_shape srv componentType lang_query env :
  let cacheKey := key_of componentType lang_query in
  let got := Get (componentCache srv) cacheKey (clock_Get env) in
  let after :=
    componentCache (endpoint srv componentType lang_query env).1.1 in
  after = got.1
  ∨ (got.2 = None
     ∧ ∃ component, after = Put got.1 cacheKey component (clock_Put env)).
Proof.
  intros cacheKey got after. subst after.
  rewrite endpoint_branches. cbv zeta. fold cacheKey. fold got.
  destruct got.2 as [c|]; simpl; [by left|].
  destruct (redis_lookup _ _ _) as [[store c]|]; simpl; [right; eauto|].
  destruct (getLocalizedComponent _ _ _ _ _ _); simpl;
    [right; eauto|by left].
Qed.

Lemma endpoint_Size_bound srv componentType lang_query env :
  let after :=
    componentCache (endpoint srv componentType lang_query env).1.1 in
  wf (componentCache srv) → 1 ≤ maxSize (componentCache srv) →
  Size (componentCache srv) ≤ maxSize (componentCache srv) →
  wf after ∧ maxSize after = maxSize (componentCache srv)
  ∧ Size after ≤ maxSize after.
Proof.
  intros after Hwf Hmax Hsize. subst after.
  set (got := Get (componentCache srv) (key_of componentType lang_query)
                (clock_Get env)).
  assert (wf got.1 ∧ maxSize got.1 = maxSize (componentCache srv)
          ∧ Size got.1 ≤ maxSize got.1) as (Hwf1 & Hm1 & Hs1).
  { subst got. split; [by apply wf_Get|]. rewrite maxSize_Get.
    split; [done|].
    pose proof (Size_Get_le (componentCache srv)
                  (key_of componentType lang_query) (clock_Get env) Hwf).
    lia. }
  destruct (endpoint_cache_shape srv componentType lang_query env)
    as [->|[_ [c ->]]]; fold got; [done|].
  split; [by apply wf_Put|]. rewrite maxSize_Put. split; [done|].
  apply Size_Put_le; [done|lia|done].
Qed.

Lemma Size_nonneg {V} (c : TTLCache V) : 0 ≤ Size c.
Proof. unfold Size, Len. lia. Qed.

Lemma serve_cons srv componentType lang_query env requests :
  serve' srv ((componentType, lang_query, env) :: requests)
  = serve' (endpoint srv componentType lang_query env).1.1 requests.
Proof. reflexivity. Qed.

Lemma serve_Size_bound srv requests :
  wf (componentCache srv) → 1 ≤ maxSize (componentCache srv) →
  Size (componentCache srv) ≤ maxSize (componentCache srv) →
  Size (componentCache (serve' srv requests)) ≤ maxSize (componentCache srv).
Proof.
  revert srv.
  induction requests as [|[[componentType lang_query] env] requests IH];
    intros srv Hwf Hmax Hsize; [done|].
  rewrite serve_cons.
  destruct (endpoint_Size_bound srv componentType lang_query env
              Hwf Hmax Hsize) as (Hwf1 & Hm1 & Hs1).
  rewrite <- Hm1. apply IH; [done|lia|done].
Qed.

(** A request neither connects nor disconnects the client. *)
Lemma endpoint_client srv componentType lang_query env :
  is_Some (redisClient (endpoint srv componentType lang_query env).1.1)
  ↔ is_Some (redisClient srv).
Proof.
  rewrite endpoint_branches. cbv zeta.
  destruct (Get _ _ _).2; simpl; [done|].
  destruct (redis_lookup _ _ _) as [[store c]|] eqn:E; simpl.
  { apply redis_lookup_Some in E as [-> _]. split; eauto. }
  destruct (getLocalizedComponent _ _ _ _ _ _); simpl; [|done].
  destruct (redisClient srv); split; intros [? ?]; eauto; done.
Qed.

Lemma serve_client srv requests :
  is_Some (redisClient (serve' srv requests)) ↔ is_Some (redisClient srv).
Proof.
  revert srv.
  induction requests as [|[[componentType lang_query] env] requests IH];
    intros srv; [done|].
  rewrite serve_cons, IH. apply endpoint_client.
Qed.

(** The generator reads the requested language only through the language
    the cache key is made of. *)
Lemma generate_normal componentType lang now_id now_stamp :
  generate componentType lang now_id now_stamp
  = generate componentType (cacheKey_lang localizationDB lang)
      now_id now_stamp.
Proof.
  unfold getLocalizedComponent, cacheKey_lang.
  destruct (componentTemplates !! componentType) as [template|]; [|done].
  destruct (localizationDB !! lang) as [strings|] eqn:El; [by rewrite El|].
  by destruct (localizationDB !! "en").
Qed.

(** The handler keeps both tiers to generator outputs. *)
Lemma endpoint_coherent srv componentType lang_query env :
  json_stable componentTemplates localizationDB →
  coherent componentTemplates localizationDB srv →
  coherent componentTemplates localizationDB
    (endpoint srv componentType lang_query env).1.1.
Proof.
  intros Hstable [Hwf Hlocal Hremote]. rewrite endpoint_branches. cbv zeta.
  set (cacheKey := key_of componentType lang_query).
  pose proof (wf_Get (componentCache srv) cacheKey (clock_Get env) Hwf) as Hwf1.
  assert (∀ k c, (k, c) ∈ entries (Get (componentCache srv) cacheKey
                                     (clock_Get env)).1 →
                 generated_for componentTemplates localizationDB k c)
    as Hlocal1.
  { intros k c H. apply Hlocal. by apply entries_Get in H. }
  destruct (Get _ _ _).2 as [component|] eqn:Hgot; simpl.
  { by split. }
  destruct (redis_lookup _ _ _) as [[store component]|] eqn:Hredis; simpl.
  { apply redis_lookup_Some in Hredis as (Hclient & deadline & Hstore).
    split; simpl.
    - by apply wf_Put.
    - intros k c H. apply entries_Put in H; [|done].
      destruct H as [H|[= -> ->]]; [eauto|]. by eapply Hremote.
    - intros store' k c d [= <-] H.
      apply expireInRedis_lookup in H as [d' H]. by eapply Hremote. }
  destruct (generate _ _ _ _) as [component|err] eqn:Hgen; simpl.
  2:{ by split. }
  assert (generated_for componentTemplates localizationDB cacheKey component)
    as Hfor.
  { by exists componentType, lang_query, (clock_ComponentID env),
              (clock_LastUpdated env). }
  split; simpl.
  - by apply wf_Put.
  - intros k c H. apply entries_Put in H; [|done].
    destruct H as [H|[= -> ->]]; [eauto|done].
  - intros store' k c d Hclient H.
    destruct (redisClient srv) as [store|] eqn:Es; [|done].
    injection Hclient as <-.
    apply setInRedis_lookup in H as [[Hc ->]|H]; [|by eapply Hremote].
    simpl in Hc. subst c. by rewrite (Hstable _ _ _ _ _ Hgen).
Qed.

Lemma startup_coherent connected :
  coherent componentTemplates localizationDB (startup connected ∅).
Proof.
  split; simpl.
  - apply wf_New.
  - intros k c H. by apply elem_of_nil in H.
  - intros store' k c d. destruct connected; [|done].
    intros [= <-] H. by rewrite lookup_empty in H.
Qed.

Lemma serve_coherent srv requests :
  json_stable componentTemplates localizationDB →
  coherent componentTemplates localizationDB srv →
  coherent componentTemplates localizationDB (serve' srv requests).
Proof.
  intros Hstable. revert srv.
  induction requests as [|[[componentType lang_query] env] requests IH];
    intros srv Hc; [done|].
  rewrite serve_cons. by apply IH, endpoint_coherent.
Qed.

(** An artifact generated for a key is generated for every request with
    that key. *)
Lemma generated_for_request componentType lang_query component :
  langs_colon_free localizationDB →
  generated_for componentTemplates localizationDB
    (key_of componentType lang_query) component →
  ∃ now_id now_stamp,
    generate componentType (default "en" lang_query) now_id now_stamp
    = Ok component.
Proof.
  intros Hcf (componentType' & lang_query' & now_id & now_stamp & Hkey & Hgen).
  unfold request_key in Hkey.
  apply Sprintf_cacheKey_inj in Hkey as [-> Hlang];
    try by apply cacheKey_lang_colon_free.
  exists now_id, now_stamp.
  rewrite generate_normal, Hlang, <- generate_normal. done.
Qed.
End ServerExtras.

(** * The artifacts of the program and JSON *)

Lemma shipped_utf8_artifacts :
  map_Forall (fun _ template =>
    map_Forall (fun _ strings => utf8_artifact template strings = true)
      localizationDB) componentTemplates.
Proof.
  apply (bool_decide_unpack (map_Forall _ _)). vm_compute. exact I.
Qed.

Lemma shipped_types_ascii :
  map_Forall (fun componentType _ =>
                all_chars (byte_in 0 127) componentType = true)
    componentTemplates.
Proof.
  apply (bool_decide_unpack (map_Forall _ _)). vm_compute. exact I.
Qed.

Lemma shipped_langs_ascii :
  map_Forall (fun lang _ => all_chars (byte_in 0 127) lang = true)
    localizationDB.
Proof.
  apply (bool_decide_unpack (map_Forall _ _)). vm_compute. exact I.
Qed.

Lemma shipped_en : is_Some (localizationDB !! "en").
Proof. apply (bool_decide_unpack (is_Some _)). vm_compute. exact I. Qed.

(** The table and the language the generator uses are of the registry. *)
Lemma shipped_table (lang : string) :
  ∃ l strings,
    localizationDB !! l = Some strings
    ∧ match localizationDB !! lang with
      | Some strings => (strings, lang)
      | None => (default ∅ (localizationDB !! "en"), "en")
      end = (strings, l).
Proof.
  destruct (localizationDB !! lang) as [strings|] eqn:E; [by eauto|].
  destruct shipped_en as [strings Hen]. exists "en", strings.
  by rewrite Hen.
Qed.

Lemma json_strings_stable (ks : list string) :
  forallb utf8 ks = true → json_string <$> ks = ks.
Proof.
  induction ks as [|k ks IH]; [done|].
  intros H. simpl in H. apply andb_true_iff in H as [Hk Hks].
  apply utf8_spec in Hk. by rewrite fmap_cons, Hk, IH.
Qed.

(** Every artifact the program generates is read back from its JSON text
    as it is. *)
Lemma shipped_json_stable : json_stable componentTemplates localizationDB.
Proof.
  intros componentType lang now_id now_stamp component.
  unfold getLocalizedComponent.
  destruct (componentTemplates !! componentType) as [template|] eqn:Et;
    [|done].
  destruct (shipped_table lang) as (l & strings & El & ->).
  intros [= <-].
  pose proof (shipped_utf8_artifacts _ _ Et _ _ El) as Hu.
  unfold utf8_artifact in Hu. cbv zeta in Hu.
  apply andb_true_iff in Hu as [Hu Hdata].
  apply andb_true_iff in Hu as [Hu Hkeys].
  apply andb_true_iff in Hu as [Hu Htemplate].
  apply andb_true_iff in Hu as [Hname Htype].
  apply utf8_spec in Hname, Htype, Htemplate.
  apply bool_decide_eq_true in Hdata.
  pose proof (shipped_types_ascii _ _ Et) as Hct.
  pose proof (shipped_langs_ascii _ _ El) as Hl.
  unfold json_round_trip. cbv zeta. simpl.
  rewrite Hname, Htype, Htemplate, (json_string_ascii l Hl).
  rewrite json_strings_stable by done.
  rewrite json_map_stable.
  2:{ intros k v Hkv. specialize (Hdata k v Hkv). simpl in Hdata.
      apply andb_true_iff in Hdata as [Hk Hv].
      by apply utf8_spec in Hk, Hv. }
  rewrite json_string_ascii; [done|].
  rewrite !all_chars_append, Hct, Hl, ascii_Sprintf_d. done.
Qed.

Section ServerExtras2.
Context (componentTemplates : gmap string ComponentTemplate.t).
Context (localizationDB : gmap string (gmap string string)).
Implicit Types (srv : Server) (env : Env).
#[local] Abbreviation endpoint :=
  (getLocalizedComponentEndpoint componentTemplates localizationDB).
#[local] Abbreviation key_of := (request_key localizationDB).
#[local] Abbreviation generate :=
  (getLocalizedComponent componentTemplates localizationDB).

(** A request for a registered component type that misses the local cache
    puts under its key the artifact it answers. *)
Lemma endpoint_local_miss srv componentType lang_query env :
  is_Some (componentTemplates !! componentType) →
  let cacheKey := key_of componentType lang_query in
  let got := Get (componentCache srv) cacheKey (clock_Get env) in
  let result := endpoint srv componentType lang_query env in
  got.2 = None →
  ∃ component served,
    result.1.2 = StatusOK (LocalizedComponent.with_Cached served component)
    ∧ componentCache result.1.1
      = Put got.1 cacheKey component (clock_Put env).
Proof.
  intros [template Ht] cacheKey got result Hmiss. subst result.
  rewrite endpoint_branches. cbv zeta. fold cacheKey. fold got.
  rewrite Hmiss.
  destruct (redis_lookup _ _ _) as [[store c]|]; simpl; [by exists c, true|].
  destruct (generate_registered componentTemplates localizationDB
              componentType (default "en" lang_query)
              (clock_ComponentID env) (clock_LastUpdated env) template Ht)
    as (c & -> & _). simpl. by exists c, false.
Qed.

Lemma setInRedis_other store k component env k' :
  k' ≠ k → (setInRedis store k component env).1 !! k' = store !! k'.
Proof.
  intros Hne. unfold setInRedis, redis_SET.
  destruct (redis_Set_outcome env); simpl; try done;
    by rewrite lookup_insert_ne.
Qed.

Lemma expireInRedis_other store k env k' :
  k' ≠ k → (expireInRedis store k env).1 !! k' = store !! k'.
Proof.
  intros Hne. unfold expireInRedis, redis_EXPIRE.
  destruct (redis_Expire_outcome env); simpl; try done;
    destruct (redis_GET _ _ _); try done; by rewrite lookup_insert_ne.
Qed.
End ServerExtras2.

(** X7.  The health check is outside the limiter and reflects the state.
    On a server that has served any requests since startup, whatever the
    tokens held in the limiter, GET /health is answered with status
    [healthy], leaves the limiter and the server as they are and prints
    nothing; the cache size it reports is the size of the local cache, which
    is between 0 and [CacheMaxSize]; the Redis status is [connected] exactly
    when the client exists and the ping succeeds.  With the limiter full, a
    component request is answered 503 and changes nothing; with room, it
    leaves the limiter as it found it. *)
Theorem X7_health_outside_the_limiter
    (componentTemplates : gmap string ComponentTemplate.t)
    (localizationDB : gmap string (gmap string string))
    (connected : bool) (store : RedisStore)
    (requests : list (string * option string * Env))
    (sem : Semaphore) (env : Env) (ping_err : option string) :
  let srv :=
    serve componentTemplates localizationDB (startup connected store)
      requests in
  let route := route componentTemplates localizationDB in
  ∃ body,
    route sem srv GetHealth env ping_err = (sem, srv, HealthOK body, [])
    ∧ Health.status body = "healthy"
    ∧ Health.cache_size body = Size (componentCache srv)
    ∧ 0 ≤ Health.cache_size body ≤ CacheMaxSize
    ∧ Health.concurrency_limit body = ConcurrencyLimit
    ∧ Health.redis_status body
      = (if connected
         then match ping_err with
              | None => "connected"
              | Some _ => "disconnected"
              end
         else "disconnected")
    ∧ (∀ componentType lang_query,
         sem_cap sem ≤ sem_len sem →
         route sem srv (GetComponent componentType lang_query) env ping_err
         = (sem, srv,
            Aborted 503 "server is at capacity, please try again later", []))
    ∧ (∀ componentType lang_query,
         sem_len sem < sem_cap sem →
         (route sem srv (GetComponent componentType lang_query) env
            ping_err).1.1.1 = sem).
Proof.
  intros srv route. subst route. eexists. split; [reflexivity|]. simpl.
  split; [done|]. split; [done|]. split.
  { split; [apply Size_nonneg|].
    apply (serve_Size_bound componentTemplates localizationDB
             (startup connected store) requests); simpl.
    - apply wf_New.
    - unfold CacheMaxSize. lia.
    - unfold Size, Len, CacheMaxSize. simpl. lia. }
  split; [done|]. split.
  { pose proof (serve_client componentTemplates localizationDB
                  (startup connected store) requests) as Hc.
    fold srv in Hc. simpl in Hc.
    destruct connected.
    - destruct (redisClient srv); [done|].
      destruct Hc as [_ Hc]. by destruct Hc.
    - destruct (redisClient srv); [|done].
      destruct Hc as [Hc _]. by destruct Hc. }
  split.
  - intros componentType lang_query Hfull. unfold try_send.
    by destruct (Z.ltb_spec (sem_len sem) (sem_cap sem)); [lia|].
  - intros componentType lang_query Hroom. unfold try_send.
    destruct (Z.ltb_spec (sem_len sem) (sem_cap sem)); [|lia].
    destruct (getLocalizedComponentEndpoint _ _ _ _ _ _) as [[srv' r] l].
    simpl. unfold receive. simpl. destruct sem. simpl. f_equal. lia.
Qed.

(** X8.  The generator reads the requested language only through the
    language the cache key is built from: for any registries, generating
    for a requested language gives the very artifact that generating for
    that normalized language gives (all unsupported languages give the
    artifact of [en]), and the language field of the artifact is that
    normalized language. *)
Theorem X8_generator_agrees_with_key
    (componentTemplates : gmap string ComponentTemplate.t)
    (localizationDB : gmap string (gmap string string))
    (componentType lang : string) (now_id now_stamp : Z) :
  getLocalizedComponent componentTemplates localizationDB
    componentType lang now_id now_stamp
  = getLocalizedComponent componentTemplates localizationDB
      componentType (cacheKey_lang localizationDB lang) now_id now_stamp
  ∧ (∀ component,
       getLocalizedComponent componentTemplates localizationDB
         componentType lang now_id now_stamp = Ok component →
       LocalizedComponent.Language component
       = cacheKey_lang localizationDB lang
       ∧ LocalizedComponent.Cached component = false).
Proof.
  split; [apply generate_normal|].
  intros component Hgen.
  destruct (componentTemplates !! componentType) as [template|] eqn:Ht.
  2:{ by rewrite generate_unregistered in Hgen. }
  destruct (generate_registered componentTemplates localizationDB
              componentType lang now_id now_stamp template Ht)
    as (c & E & _ & _ & Hl & _ & _ & _ & _ & _ & Hc).
  assert (c = component) as -> by congruence. done.
Qed.

(** X9.  What is served is what the generator makes.  For registries whose
    language codes have no colon and whose artifacts are read back from
    their JSON text as they are (their strings are well-formed UTF-8, as
    those of the program are), on a server that has served any requests
    since a startup with an empty remote store: every artifact answered,
    from the local cache, from the remote store or new, has the fields of an
    output of the generator for the component type and the language of the
    request, at some reading of the clock, the [Cached] flag apart, which
    the handler sets; so its name, kind, language, rendered template,
    localized values and required keys are those of a generation made
    now. *)
Theorem X9_answers_are_generator_outputs
    (componentTemplates : gmap string ComponentTemplate.t)
    (localizationDB : gmap string (gmap string string))
    (connected : bool) (requests : list (string * option string * Env))
    (componentType : string) (lang_query : option string) (env : Env)
    (component : LocalizedComponent.t) :
  langs_colon_free localizationDB →
  json_stable componentTemplates localizationDB →
  let srv :=
    serve componentTemplates localizationDB (startup connected ∅) requests in
  (getLocalizedComponentEndpoint componentTemplates localizationDB
     srv componentType lang_query env).1.2 = StatusOK component →
  (∃ now_id now_stamp generated,
     getLocalizedComponent componentTemplates localizationDB
       componentType (default "en" lang_query) now_id now_stamp
     = Ok generated
     ∧ LocalizedComponent.ComponentName component
       = LocalizedComponent.ComponentName generated
     ∧ LocalizedComponent.ComponentType component
       = LocalizedComponent.ComponentType generated
     ∧ LocalizedComponent.Language component
       = LocalizedComponent.Language generated
     ∧ LocalizedComponent.Template component
       = LocalizedComponent.Template generated
     ∧ LocalizedComponent.LocalizedData component
       = LocalizedComponent.LocalizedData generated
     ∧ LocalizedComponent.Metadata component
       = LocalizedComponent.Metadata generated)
  ∧ (∀ now_id now_stamp fresh,
       getLocalizedComponent componentTemplates localizationDB
         componentType (default "en" lang_query) now_id now_stamp
       = Ok fresh →
       LocalizedComponent.ComponentName component
       = LocalizedComponent.ComponentName fresh
       ∧ LocalizedComponent.ComponentType component
         = LocalizedComponent.ComponentType fresh
       ∧ LocalizedComponent.Language component
         = LocalizedComponent.Language fresh
       ∧ LocalizedComponent.Template component
         = LocalizedComponent.Template fresh
       ∧ LocalizedComponent.LocalizedData component
         = LocalizedComponent.LocalizedData fresh
       ∧ ComponentMetadata.RequiredKeys
           (LocalizedComponent.Metadata component)
         = ComponentMetadata.RequiredKeys (LocalizedComponent.Metadata fresh)).
Proof.
  intros Hcf Hstable srv Hresp.
  assert (coherent componentTemplates localizationDB srv)
    as [Hwf Hlocal Hremote]
    by (apply serve_coherent; [done|apply startup_coherent]).
  assert (∃ now_id now_stamp generated,
            getLocalizedComponent componentTemplates localizationDB
              componentType (default "en" lang_query) now_id now_stamp
            = Ok generated
            ∧ component
              = LocalizedComponent.with_Cached
                  (LocalizedComponent.Cached component) generated) as Hgen.
  { rewrite endpoint_branches in Hresp. cbv zeta in Hresp.
    destruct (Get _ _ _).2 as [c|] eqn:Hgot; simpl in Hresp.
    { injection Hresp as <-. apply Get_found_entry in Hgot; [|done].
      apply Hlocal, generated_for_request in Hgot as (t & s & Hg); [|done].
      by exists t, s, c. }
    destruct (redis_lookup _ _ _) as [[store c]|] eqn:Hr; simpl in Hresp.
    { injection Hresp as <-.
      apply redis_lookup_Some in Hr as (Hclient & d & Hstore).
      apply (Hremote _ _ _ _ Hclient), generated_for_request in Hstore
        as (t & s & Hg); [|done].
      by exists t, s, c. }
    destruct (getLocalizedComponent _ _ _ _ _ _) as [c|err] eqn:Hg;
      simpl in Hresp; [|done].
    injection Hresp as <-.
    by exists (clock_ComponentID env), (clock_LastUpdated env), c. }
  destruct Hgen as (t & s & generated & Hg & Hc).
  split.
  { exists t, s, generated. split; [done|]. rewrite Hc. by simpl. }
  intros now_id now_stamp fresh Hfresh.
  destruct (componentTemplates !! componentType) as [template|] eqn:Ht.
  2:{ by rewrite generate_unregistered in Hg. }
  destruct (generate_registered componentTemplates localizationDB
              componentType (default "en" lang_query) t s template Ht)
    as (c1 & E1 & Hn1 & Hk1 & Hl1 & Hd1 & Hb1 & _ & _ & Hr1 & _).
  destruct (generate_registered componentTemplates localizationDB
              componentType (default "en" lang_query) now_id now_stamp
              template Ht)
    as (c2 & E2 & Hn2 & Hk2 & Hl2 & Hd2 & Hb2 & _ & _ & Hr2 & _).
  assert (c1 = generated) as -> by congruence.
  assert (c2 = fresh) as -> by congruence.
  rewrite Hc. simpl. split_and!; congruence.
Qed.

Lemma X9_answers_are_generator_outputs_witness :
  let env := MkEnv 0 0 0 0 Answered 0 Acknowledged 0 Acknowledged 0 in
  langs_colon_free localizationDB
  ∧ json_stable componentTemplates localizationDB
  ∧ ∃ component,
      (Lookup
         (serve componentTemplates localizationDB (startup true ∅)
            [("welcome", Some "zh", env)])
         "welcome" (Some "ja") env).1.2 = StatusOK component
      ∧ ∃ now_id now_stamp generated,
          Generate "welcome" "ja" now_id now_stamp = Ok generated
          ∧ LocalizedComponent.Template component
            = LocalizedComponent.Template generated
          ∧ LocalizedComponent.Metadata component
            = LocalizedComponent.Metadata generated.
Proof.
  intros env. split; [exact shipped_langs_colon_free|].
  split; [exact shipped_json_stable|].
  destruct (Lookup
              (serve componentTemplates localizationDB (startup true ∅)
                 [("welcome", Some "zh", env)])
              "welcome" (Some "ja") env).1.2
    as [component|error available] eqn:Hresp;
    [|vm_compute in Hresp; discriminate].
  exists component. split; [reflexivity|].
  destruct (proj1 (X9_answers_are_generator_outputs componentTemplates
                     localizationDB true [("welcome", Some "zh", env)]
                     "welcome" (Some "ja") env component
                     shipped_langs_colon_free shipped_json_stable Hresp))
    as (now_id & now_stamp & generated & Hg & _ & _ & _ & Ht & _ & Hm).
  by exists now_id, now_stamp, generated.
Defined.

(** X10.  What a request puts in the local cache, the next one reads.  For
    a registered component type and a well-formed local cache: when a
    request misses the local cache, it answers an artifact (from the remote
    store, with [Cached] true, or new, with [Cached] false) and puts it in
    the local cache; a second request with the same cache key, whose [Get]
    reads the clock no later than the TTL after the first request's [Put],
    answers the fields of that artifact with [Cached] true, prints nothing
    and leaves the remote store alone. *)
Theorem X10_second_request_is_a_local_hit
    (componentTemplates : gmap string ComponentTemplate.t)
    (localizationDB : gmap string (gmap string string))
    (srv : Server) (componentType : string)
    (lang_query lang_query' : option string) (env1 env2 : Env) :
  let endpoint :=
    getLocalizedComponentEndpoint componentTemplates localizationDB in
  let cacheKey := request_key localizationDB componentType lang_query in
  let first := endpoint srv componentType lang_query env1 in
  let second := endpoint first.1.1 componentType lang_query' env2 in
  wf (componentCache srv) →
  is_Some (componentTemplates !! componentType) →
  (Get (componentCache srv) cacheKey (clock_Get env1)).2 = None →
  request_key localizationDB componentType lang_query' = cacheKey →
  clock_Get env2 - clock_Put env1 ≤ ttl (componentCache srv) →
  ∃ component served,
    first.1.2
    = StatusOK
        (LocalizedComponent.Make
           (LocalizedComponent.ComponentName component)
           (LocalizedComponent.ComponentType component)
           (LocalizedComponent.Language component)
           (LocalizedComponent.Template component)
           (LocalizedComponent.LocalizedData component)
           (LocalizedComponent.Metadata component)
           served)
    ∧ ((cacheKey, component) ∈ entries (componentCache first.1.1))
    ∧ second.1.2
      = StatusOK
          (LocalizedComponent.Make
             (LocalizedComponent.ComponentName component)
             (LocalizedComponent.ComponentType component)
             (LocalizedComponent.Language component)
             (LocalizedComponent.Template component)
             (LocalizedComponent.LocalizedData component)
             (LocalizedComponent.Metadata component)
             true)
    ∧ (∀ answered, second.1.2 = StatusOK answered →
         LocalizedComponent.Cached answered = true)
    ∧ second.2 = []
    ∧ redisClient second.1.1 = redisClient first.1.1.
Proof.
  cbv zeta. intros Hwf Hreg Hmiss Hkey Hage.
  destruct (endpoint_local_miss componentTemplates localizationDB
              srv componentType lang_query env1 Hreg Hmiss)
    as (component & served & Hresp & Hcache).
  exists component, served. split; [exact Hresp|].
  split.
  { rewrite Hcache. apply Put_entry_linked. by apply wf_Get. }
  rewrite (endpoint_branches _ _ _ componentType lang_query' env2).
  cbv zeta. rewrite Hkey, Hcache.
  rewrite Put_Get by by apply wf_Get.
  rewrite ttl_Get.
  destruct (Z.gtb_spec (clock_Get env2 - clock_Put env1)
              (ttl (componentCache srv))); [lia|].
  simpl. split; [done|]. split; [|done]. by intros answered [= <-].
Qed.

Lemma X10_second_request_is_a_local_hit_witness :
  let env1 := MkEnv 0 10 20 20 Answered 0 Acknowledged 0 Acknowledged 0 in
  let env2 := MkEnv CacheTTL 0 0 0 Answered 0 Acknowledged 0 Acknowledged 0 in
  let first := Lookup (startup false ∅) "welcome" (Some "zh") env1 in
  let second := Lookup first.1.1 "welcome" (Some "ja") env2 in
  ∃ answered1 answered2,
    first.1.2 = StatusOK answered1
    ∧ second.1.2 = StatusOK answered2
    ∧ LocalizedComponent.Cached answered1 = false
    ∧ LocalizedComponent.Cached answered2 = true
    ∧ LocalizedComponent.Metadata answered2
      = LocalizedComponent.Metadata answered1.
Proof.
  intros env1 env2 first second.
  destruct (X10_second_request_is_a_local_hit componentTemplates
              localizationDB (startup false ∅) "welcome"
              (Some "zh") (Some "ja") env1 env2)
    as (component & served & H1 & _ & H2 & _).
  - apply wf_New.
  - vm_compute. eexists. reflexivity.
  - reflexivity.
  - reflexivity.
  - vm_compute. discriminate.
  - eexists _, _. split; [exact H1|]. split; [exact H2|].
    split; [|split; reflexivity].
    simpl. revert H1. vm_compute. by intros [= _ _ _ _ _ _ <-].
Defined.

(** X11.  What one process stores remotely, another reads, as JSON gives it
    back.  A process with a client generates an artifact for a registered
    component type (both tiers missed), answers it with [Cached] false, and
    the SET is executed by the server.  Then a request with the same key on
    any process that talks to the resulting store, has a well-formed local
    cache without that key and reads the store before [RedisTTL] has passed
    on the server's clock, answers, without generating, the fields of the
    artifact as read back from its JSON text, with [Cached] true, and puts
    the artifact read back in its local cache.  When the artifacts of the
    registries are read back from JSON as they are, what is read back is
    that same artifact. *)
Theorem X11_remote_store_is_read_back
    (componentTemplates : gmap string ComponentTemplate.t)
    (localizationDB : gmap string (gmap string string))
    (srvA srvB : Server) (store : RedisStore) (componentType : string)
    (lang_query : option string) (envA envB : Env) :
  let endpoint :=
    getLocalizedComponentEndpoint componentTemplates localizationDB in
  let cacheKey := request_key localizationDB componentType lang_query in
  let first := endpoint srvA componentType lang_query envA in
  let second := endpoint srvB componentType lang_query envB in
  is_Some (componentTemplates !! componentType) →
  redisClient srvA = Some store →
  (Get (componentCache srvA) cacheKey (clock_Get envA)).2 = None →
  redis_lookup (Some store) cacheKey envA = None →
  (∀ err, redis_Set_outcome envA ≠ FailedNotExecuted err) →
  redisClient srvB = redisClient first.1.1 →
  wf (componentCache srvB) →
  (Get (componentCache srvB) cacheKey (clock_Get envB)).2 = None →
  redis_Get_outcome envB = Answered →
  redis_Get_clock envB < redis_Set_clock envA + RedisTTL →
  ∃ component read_back,
    getLocalizedComponent componentTemplates localizationDB componentType
      (default "en" lang_query) (clock_ComponentID envA)
      (clock_LastUpdated envA) = Ok component
    ∧ read_back = json_round_trip component
    ∧ LocalizedComponent.Cached component = false
    ∧ first.1.2 = StatusOK component
    ∧ second.1.2
      = StatusOK
          (LocalizedComponent.Make
             (LocalizedComponent.ComponentName read_back)
             (LocalizedComponent.ComponentType read_back)
             (LocalizedComponent.Language read_back)
             (LocalizedComponent.Template read_back)
             (LocalizedComponent.LocalizedData read_back)
             (LocalizedComponent.Metadata read_back)
             true)
    ∧ ((cacheKey, read_back) ∈ entries (componentCache second.1.1))
    ∧ (json_stable componentTemplates localizationDB →
       read_back = component).
Proof.
  intros endpoint cacheKey first second [template Ht] HclientA HmissA HremoteA
    Hexec HclientB HwfB HmissB Hanswered Hfresh.
  destruct (generate_registered componentTemplates localizationDB
              componentType (default "en" lang_query)
              (clock_ComponentID envA) (clock_LastUpdated envA) template Ht)
    as (component & Hgen & _).
  assert (LocalizedComponent.Cached component = false) as Hflag.
  { revert Hgen. unfold getLocalizedComponent. rewrite Ht.
    destruct (match localizationDB !! default "en" lang_query with
              | Some strings => (strings, default "en" lang_query)
              | None => (default ∅ (localizationDB !! "en"), "en")
              end) as [strings actualLang].
    by intros [= <-]. }
  assert (LocalizedComponent.with_Cached false component = component) as Hsame.
  { destruct component. simpl in Hflag. by subst. }
  set (read_back := json_round_trip component).
  exists component, read_back.
  split; [exact Hgen|]. split; [done|]. split; [exact Hflag|].
  assert (first
          = (MkServer
               (Put (Get (componentCache srvA) cacheKey (clock_Get envA)).1
                    cacheKey component (clock_Put envA))
               (Some (setInRedis store cacheKey component envA).1),
             StatusOK component,
             warning "Failed to cache in Redis"
               (setInRedis store cacheKey component envA).2)) as Hfirst.
  { subst first endpoint. rewrite endpoint_branches. cbv zeta.
    fold cacheKey. rewrite HmissA, HclientA, HremoteA, Hgen, Hsame. done. }
  split; [by rewrite Hfirst|].
  assert (redis_lookup (redisClient srvB) cacheKey envB
          = Some ((setInRedis store cacheKey component envA).1, read_back))
    as Hhit.
  { rewrite HclientB, Hfirst. simpl.
    unfold redis_lookup, getFromRedis. rewrite Hanswered.
    assert ((setInRedis store cacheKey component envA).1 !! cacheKey
            = Some (read_back, redis_Set_clock envA + RedisTTL)) as Hs.
    { unfold setInRedis, redis_SET. cbv zeta. fold read_back.
      destruct (redis_Set_outcome envA) as [|e|e] eqn:Eo; simpl;
        try apply lookup_insert_eq.
      by destruct (Hexec e). }
    unfold redis_GET. rewrite Hs.
    by destruct (Z.ltb_spec (redis_Get_clock envB)
                   (redis_Set_clock envA + RedisTTL)); [|lia]. }
  assert (second
          = (MkServer
               (Put (Get (componentCache srvB) cacheKey (clock_Get envB)).1
                    cacheKey read_back (clock_Put envB))
               (Some (expireInRedis
                        (setInRedis store cacheKey component envA).1
                        cacheKey envB).1),
             StatusOK (LocalizedComponent.with_Cached true read_back),
             warning "Failed to refresh Redis TTL"
               (expireInRedis (setInRedis store cacheKey component envA).1
                  cacheKey envB).2)) as Hsecond.
  { subst second endpoint. rewrite endpoint_branches. cbv zeta.
    fold cacheKey. rewrite HmissB, Hhit. done. }
  rewrite Hsecond. simpl. split; [done|]. split.
  - apply Put_entry_linked. by apply wf_Get.
  - intros Hstable. exact (Hstable _ _ _ _ _ Hgen).
Qed.

Lemma X11_remote_store_is_read_back_witness :
  let envA := MkEnv 0 0 20 20 Answered 0 Acknowledged 0 Acknowledged 100 in
  let envB := MkEnv 0 0 0 0 Answered (100 + RedisTTL - 1)
                Acknowledged 0 Acknowledged 0 in
  let first := Lookup (startup true ∅) "footer" (Some "fr") envA in
  let second :=
    Lookup (MkServer (NewTTLCache CacheMaxSize CacheTTL)
              (redisClient first.1.1))
      "footer" (Some "fr") envB in
  ∃ component answered,
    first.1.2 = StatusOK component
    ∧ second.1.2 = StatusOK answered
    ∧ LocalizedComponent.Cached component = false
    ∧ LocalizedComponent.Cached answered = true
    ∧ LocalizedComponent.Template answered
      = LocalizedComponent.Template component
    ∧ LocalizedComponent.LocalizedData answered
      = LocalizedComponent.LocalizedData component
    ∧ LocalizedComponent.Metadata answered
      = LocalizedComponent.Metadata component.
Proof.
  intros envA envB first second.
  destruct (X11_remote_store_is_read_back componentTemplates localizationDB
              (startup true ∅)
              (MkServer (NewTTLCache CacheMaxSize CacheTTL)
                 (redisClient first.1.1))
              ∅ "footer" (Some "fr") envA envB)
    as (component & read_back & _ & _ & Hflag & H1 & H2 & _ & Hsame).
  - vm_compute. eexists. reflexivity.
  - reflexivity.
  - reflexivity.
  - reflexivity.
  - intros err. discriminate.
  - reflexivity.
  - apply wf_New.
  - reflexivity.
  - reflexivity.
  - vm_compute. reflexivity.
  - rewrite (Hsame shipped_json_stable) in H2.
    eexists component, _. split; [exact H1|]. split; [exact H2|].
    split; [exact Hflag|]. split_and!; reflexivity.
Defined.

(** X12.  A request works on its own key only.  For a well-formed local
    cache: every entry of the local cache after the request is under the
    key of the request or was there before, with its value; the timestamp
    of every other key is unchanged, unless that key has left the cache;
    and in the remote store every other key holds what it held.  The client
    stays [nil] when it was. *)
Theorem X12_request_touches_its_key_only
    (componentTemplates : gmap string ComponentTemplate.t)
    (localizationDB : gmap string (gmap string string))
    (srv : Server) (componentType : string) (lang_query : option string)
    (env : Env) :
  let cacheKey := request_key localizationDB componentType lang_query in
  let after :=
    (getLocalizedComponentEndpoint componentTemplates localizationDB
       srv componentType lang_query env).1.1 in
  wf (componentCache srv) →
  (∀ k component,
     (k, component) ∈ entries (componentCache after) →
     k = cacheKey ∨ (k, component) ∈ entries (componentCache srv))
  ∧ (∀ k, k ≠ cacheKey →
       timestamps (componentCache after) !! k
       = timestamps (componentCache srv) !! k
       ∨ timestamps (componentCache after) !! k = None)
  ∧ match redisClient srv with
    | Some store =>
        ∃ store', redisClient after = Some store'
                  ∧ ∀ k, k ≠ cacheKey → store' !! k = store !! k
    | None => redisClient after = None
    end.
Proof.
  intros cacheKey after Hwf.
  set (got := Get (componentCache srv) cacheKey (clock_Get env)).
  assert (componentCache after = got.1
          ∨ ∃ component,
              componentCache after
              = Put got.1 cacheKey component (clock_Put env)) as Hshape.
  { destruct (endpoint_cache_shape componentTemplates localizationDB
                srv componentType lang_query env) as [H|[_ H]]; auto. }
  assert (∀ k, k ≠ cacheKey →
            timestamps got.1 !! k = timestamps (componentCache srv) !! k
            ∨ timestamps got.1 !! k = None) as Hgot_ts.
  { intros k Hne.
    exact (timestamps_call_other (componentCache srv) k
             (CallGet cacheKey (clock_Get env)) eq_refl). }
  split; [|split].
  - intros k component Hin.
    destruct Hshape as [E|[c E]]; rewrite E in Hin.
    + right. by apply entries_Get in Hin.
    + apply entries_Put in Hin; [|by apply wf_Get].
      destruct Hin as [Hin|[= -> _]]; [|by left].
      right. by apply entries_Get in Hin.
  - intros k Hne. destruct Hshape as [E|[c E]]; rewrite E; [auto|].
    assert (not_Put_of k (CallPut cacheKey c (clock_Put env)) = true) as Hnp.
    { unfold not_Put_of. apply negb_true_iff, String.eqb_neq. congruence. }
    destruct (timestamps_call_other got.1 k _ Hnp) as [H|H];
      simpl in H; rewrite H; auto.
  - subst after. rewrite endpoint_branches. cbv zeta. fold cacheKey.
    fold got. destruct got.2; simpl.
    { destruct (redisClient srv); eauto. }
    destruct (redis_lookup _ _ _) as [[store c]|] eqn:Hr; simpl.
    { apply redis_lookup_Some in Hr as [-> _].
      eexists. split; [done|]. intros k Hne. by apply expireInRedis_other. }
    destruct (getLocalizedComponent _ _ _ _ _ _); simpl.
    + destruct (redisClient srv) as [store|]; [|done].
      eexists. split; [done|]. intros k Hne. by apply setInRedis_other.
    + destruct (redisClient srv); eauto.
Qed.

Lemma X12_request_touches_its_key_only_witness :
  let env := MkEnv 0 0 0 0 Answered 0 Acknowledged 0 Acknowledged 0 in
  let srv := (Lookup (startup true ∅) "footer" (Some "en") env).1.1 in
  let after := (Lookup srv "welcome" (Some "de") env).1.1 in
  wf (componentCache srv)
  ∧ ∀ k component,
      (k, component) ∈ entries (componentCache after) →
      k = "component:welcome:de"
      ∨ (k, component) ∈ entries (componentCache srv).
Proof.
  intros env srv after.
  assert (wf (componentCache srv)) as Hwf.
  { apply (consistent_wf componentTemplates localizationDB).
    apply endpoint_consistent;
      [apply shipped_langs_utf8|apply startup_empty_consistent]. }
  split; [exact Hwf|].
  exact (proj1 (X12_request_touches_its_key_only componentTemplates
                  localizationDB srv "welcome" (Some "de") env Hwf)).
Defined.

(** X13.  Not found means not registered.  On a server that has served any
    requests since a startup with an empty remote store, with the registries
    of the program, a request is answered 404 exactly when its component
    type has no registered template; otherwise it is answered 200. *)
Theorem X13_not_found_iff_unregistered (connected : bool)
    (requests : list (string * option string * Env))
    (componentType : string) (lang_query : option string) (env : Env) :
  let srv :=
    serve componentTemplates localizationDB (startup connected ∅) requests in
  ((∃ error available,
      (Lookup srv componentType lang_query env).1.2
      = StatusNotFound error available)
   ↔ componentTemplates !! componentType = None)
  ∧ ((∃ component,
        (Lookup srv componentType lang_query env).1.2 = StatusOK component)
     ↔ is_Some (componentTemplates !! componentType)).
Proof.
  intros srv.
  assert (consistent componentTemplates localizationDB srv) as Hcons
    by apply served_consistent.
  destruct (componentTemplates !! componentType) as [template|] eqn:Ht.
  - destruct (registered_answered componentTemplates localizationDB srv
                componentType lang_query env) as [c Hc]; [by rewrite Ht|].
    fold Lookup in Hc. split.
    + split; [|done]. intros (e & a & H). congruence.
    + split; [eauto|]. intros _. by exists c.
  - pose proof (not_found_unchanged componentTemplates localizationDB srv
                  componentType lang_query env shipped_langs_colon_free
                  Hcons Ht) as Hnf.
    fold Lookup in Hnf. split.
    + split; [done|]. intros _. rewrite Hnf. simpl. eauto.
    + split; [|by intros [? ?]]. intros (c & H). rewrite Hnf in H. done.
Qed.

(** X14.  Cache keys do not collide.  For registries whose language codes
    have no colon, two requests have the same cache key exactly when they
    name the same component type and their languages normalize to the same
    language; this holds for every component type, registered or not,
    whatever characters it holds. *)
Theorem X14_cache_keys_do_not_collide
    (localizationDB : gmap string (gmap string string))
    (componentType componentType' : string)
    (lang_query lang_query' : option string) :
  langs_colon_free localizationDB →
  request_key localizationDB componentType lang_query
  = request_key localizationDB componentType' lang_query'
  ↔ componentType = componentType'
    ∧ cacheKey_lang localizationDB (default "en" lang_query)
      = cacheKey_lang localizationDB (default "en" lang_query').
Proof.
  intros Hcf. unfold request_key. split.
  - intros E. apply Sprintf_cacheKey_inj in E; [done| |];
      by apply cacheKey_lang_colon_free.
  - by intros [-> ->].
Qed.

Lemma X14_cache_keys_do_not_collide_witness :
  langs_colon_free localizationDB
  ∧ (request_key localizationDB "welcome" (Some "zh")
     = request_key localizationDB "welcome" None
     ↔ "welcome" = "welcome"
       ∧ cacheKey_lang localizationDB (default "en" (Some "zh"))
         = cacheKey_lang localizationDB (default "en" None)).
Proof.
  split; [exact shipped_langs_colon_free|].
  exact (X14_cache_keys_do_not_collide localizationDB "welcome" "welcome"
           (Some "zh") None shipped_langs_colon_free).
Defined.

(** * Further properties of the interpolation and of the registries *)

Section InterpolateExtras.
Context (localizedData : gmap string string).
#[local] Abbreviation repl' := (fun match_ : string =>
  let key := String.substring 6 (String.length match_ - 1 - 6) match_ in
  match localizedData !! key with
  | Some value => dquote +:+ value +:+ dquote
  | None => match_
  end).

Lemma from_unmatched_keys (n : nat) (s : string) :
  (∀ key, key_name key = true → localizedData !! key = None) →
  (String.length s ≤ n)%nat →
  ReplaceAllStringFunc_from repl' 0 s = s.
Proof.
  intros Hnone. revert s. induction n as [|n IH]; intros s Hlen.
  - destruct s; [done|simpl in Hlen; lia].
  - destruct s as [|a rest]; [done|].
    destruct (l10nPattern (String a rest)) as [len|] eqn:E.
    + apply l10nPattern_Some in E as (key & post & Es & Hk & _).
      rewrite Es, from_marker by done. cbv beta zeta.
      rewrite key_of_marker, Hnone by done.
      rewrite IH; [done|].
      assert (String.length (String a rest)
              = (String.length (marker key) + String.length post)%nat) as Hl
        by by rewrite Es, length_append.
      rewrite length_marker in Hl. simpl in Hl, Hlen. lia.
    + change (ReplaceAllStringFunc_from repl' 0 (String a rest))
        with (match l10nPattern (String a rest) with
              | Some len =>
                  repl' (String.substring 0 len (String a rest))
                  +:+ ReplaceAllStringFunc_from repl' (len - 1) rest
              | None => String a (ReplaceAllStringFunc_from repl' 0 rest)
              end).
      rewrite E, IH; [done|]. simpl in Hlen. lia.
Qed.
End InterpolateExtras.

(** X15.  Interpolation changes a template only where a marker meets the
    map.  When the map has no entry under a key name (it is empty, or its
    keys hold digits or other characters the pattern does not accept), every
    template comes back as it is; and a template without an opening brace
    comes back as it is whatever the map holds. *)
Theorem X15_interpolation_leaves_unmatched_text
    (localizedData : gmap string string) (template : string) :
  ((∀ key, key_name key = true → localizedData !! key = None) →
   interpolateTemplate template localizedData = template)
  ∧ (all_chars (fun a => negb (Ascii.eqb a "{")) template = true →
     interpolateTemplate template localizedData = template).
Proof.
  unfold interpolateTemplate, ReplaceAllStringFunc. split.
  - intros Hnone.
    by apply (from_unmatched_keys localizedData (String.length template)).
  - intros Hplain. rewrite <- (append_nil_r template) at 1.
    rewrite from_plain by done. simpl. apply append_nil_r.
Qed.

Lemma X15_interpolation_leaves_unmatched_text_witness :
  let data : gmap string string := {["k1" := "W"]} in
  (∀ key, key_name key = true → data !! key = None)
  ∧ interpolateTemplate "<p>{l10n.k1} {l10n.title}</p>" data
    = "<p>{l10n.k1} {l10n.title}</p>".
Proof.
  intros data.
  assert (∀ key, key_name key = true → data !! key = None) as Hnone.
  { intros key Hk. apply lookup_singleton_None. intros <-. discriminate. }
  split; [exact Hnone|].
  exact (proj1 (X15_interpolation_leaves_unmatched_text data
                  "<p>{l10n.k1} {l10n.title}</p>") Hnone).
Defined.

(** X16.  The two helper lists are the keys of the registries: for any
    registries, [getComponentKeys] and [getLanguageKeys] list each key of
    their map exactly once and nothing else, so their lengths are the sizes
    of the maps. *)
Theorem X16_key_lists_are_the_registry_keys
    (componentTemplates : gmap string ComponentTemplate.t)
    (localizationDB : gmap string (gmap string string)) :
  (NoDup (getComponentKeys componentTemplates)
   ∧ (∀ k, k ∈ getComponentKeys componentTemplates
           ↔ is_Some (componentTemplates !! k))
   ∧ length (getComponentKeys componentTemplates) = size componentTemplates)
  ∧ (NoDup (getLanguageKeys localizationDB)
     ∧ (∀ k, k ∈ getLanguageKeys localizationDB
             ↔ is_Some (localizationDB !! k))
     ∧ length (getLanguageKeys localizationDB) = size localizationDB).
Proof.
  unfold getComponentKeys, getLanguageKeys. split; split_and!.
  - apply NoDup_fst_map_to_list.
  - apply getComponentKeys_spec.
  - by rewrite length_fmap, length_map_to_list.
  - apply NoDup_fst_map_to_list.
  - intros k. rewrite list_elem_of_fmap. split.
    + intros ([k' t] & -> & Hin). apply elem_of_map_to_list in Hin. eauto.
    + intros [t Ht]. exists (k, t). split; [done|].
      by apply elem_of_map_to_list.
  - by rewrite length_fmap, length_map_to_list.
Qed.

(** * The shipped registries are complete *)

Lemma shipped_complete :
  map_Forall (fun _ template =>
    map_Forall (fun _ strings => complete template strings = true)
      localizationDB) componentTemplates.
Proof.
  apply (bool_decide_unpack (map_Forall _ _)). vm_compute. exact I.
Qed.

(** X17.  With the registries of the program the generator never falls back
    on a placeholder: whatever artifact it makes, for whatever component
    type and language parameter, the interpolated template holds no marker
    any more, and no localized string is the bracketed name of its key.
    Every template's markers and required keys are covered by every
    language table. *)
Theorem X17_shipped_registries_are_complete
    (componentType lang : string) (now_id now_stamp : Z)
    (component : LocalizedComponent.t) :
  Generate componentType lang now_id now_stamp = Ok component →
  has_marker (LocalizedComponent.Template component) = false
  ∧ ∀ key value,
      LocalizedComponent.LocalizedData component !! key = Some value →
      value ≠ "[" +:+ key +:+ "]".
Proof.
  unfold Generate, getLocalizedComponent.
  destruct (componentTemplates !! componentType) as [template|] eqn:Et;
    [|done].
  assert (∃ l strings,
            localizationDB !! l = Some strings
            ∧ match localizationDB !! lang with
              | Some strings => (strings, lang)
              | None => (default ∅ (localizationDB !! "en"), "en")
              end = (strings, l)) as (l & strings & El & ->).
  { destruct (localizationDB !! lang) as [strings|] eqn:E; [by eauto|].
    destruct shipped_en as [strings Hen]. exists "en", strings.
    by rewrite Hen. }
  intros [= <-]. simpl.
  pose proof (shipped_complete _ _ Et _ _ El) as Hc.
  unfold complete in Hc. cbv zeta in Hc.
  apply andb_true_iff in Hc as [Hm Hp].
  apply negb_true_iff in Hm. apply bool_decide_eq_true in Hp.
  split; [exact Hm|]. intros key value Hkv Heq.
  specialize (Hp key value Hkv). cbv beta in Hp.
  unfold is_placeholder in Hp. apply String.eqb_neq in Hp. done.
Qed.

Lemma X17_shipped_registries_are_complete_witness :
  ∃ component,
    Generate "footer" "klingon" 0 0 = Ok component
    ∧ has_marker (LocalizedComponent.Template component) = false.
Proof.
  destruct (Generate "footer" "klingon" 0 0) as [component|e] eqn:E.
  - exists component. split; [reflexivity|].
    exact (proj1 (X17_shipped_registries_are_complete
                    "footer" "klingon" 0 0 component E)).
  - exfalso. revert E. vm_compute. discriminate.
Defined.
